(** * Reliable data transfer over an unreliable channel

    A shallow embedding of [main.py]: the [Packet] structure with its
    checksum, the [UnreliableChannel], and the three protocol engines
    [StopAndWaitRDT], [GoBackNRDT] and [SelectiveRepeatRDT].

    Modelling decisions, all taken from the source:
    - Python integers are [Z]; the probabilities of the channel and the
      draws of [random.random()] are rationals [Q];
    - a [Packet] is a mutable object: packets live in a heap (a list,
      addressed by index) and engines hold references, so that the
      in-place mutation [packet.checksum = (packet.checksum + 1) % 256]
      of the channel is seen through every alias;
    - every [threading.Timer] is an entry of a table of timer threads
      with a status; a timer fires as an explicit event ([fire]);
    - [print] appends a line to [stdout];
    - the call chain send -> transmit -> receive -> ... -> send is
      recursive without a structural measure: [receive] carries fuel;
      the recursion limit of the interpreter is not modelled;
    - a handler runs to its end before the next event starts: the
      interleaving of timer threads inside a handler is not modelled;
    - Python exceptions are the [Raise] results. *)

From Stdlib Require Import QArith Lqa.
From stdpp Require Import base list gmap strings pretty sorting.
Close Scope Q_scope.
Open Scope Z_scope.

(** ** Results of fallible, possibly non-terminating calls *)

Inductive PyError := AttributeError | IndexError | KeyError.

Inductive Result (A : Type) :=
  | Ok (a : A)
  | Raise (e : PyError)
  | OutOfFuel.
Arguments Ok {A} a.
Arguments Raise {A} e.
Arguments OutOfFuel {A}.

Definition bind {A B} (m : Result A) (k : A → Result B) : Result B :=
  match m with
  | Ok a => k a
  | Raise e => Raise e
  | OutOfFuel => OutOfFuel
  end.

#[global] Instance Result_ret : MRet Result := λ A a, Ok a.
#[global] Instance Result_bind : MBind Result := λ A B k m, bind m k.

(** [for x in xs: body(x)] *)
Fixpoint for_each {A S} (xs : list A) (body : A → S → Result S) (s : S)
  : Result S :=
  match xs with
  | [] => Ok s
  | x :: xs' => s' ← body x s; for_each xs' body s'
  end.

(** [range(lo, hi)] *)
Definition range (lo hi : Z) : list Z := seqZ lo (hi - lo).

(** ** Packets *)

Inductive PacketType := DATA | ACK.

#[global] Instance PacketType_eq_dec : EqDecision PacketType.
Proof. solve_decision. Defined.

Module Packet.

Record t := mk {
  seq : Z;
  payload : option string;
  type : PacketType;
  checksum : Z
}.

(** [str(None)] is ["None"], [str] of a string is the string. *)
Definition str_payload (o : option string) : string :=
  match o with
  | None => "None"
  | Some s => s
  end.

(** [str] of a member of the [PacketType] enum. *)
Definition str_type (ty : PacketType) : string :=
  match ty with
  | DATA => "PacketType.DATA"
  | ACK => "PacketType.ACK"
  end.

(** [sum(data)] over the bytes of an encoded string. *)
Fixpoint sum_bytes (s : string) : Z :=
  match s with
  | EmptyString => 0
  | String c s' => Z.of_N (Ascii.N_of_ascii c) + sum_bytes s'
  end.

(** The checksum of the logical content: the three fields formatted one
    after the other, encoded, summed modulo 256. *)
Definition checksum_of (sq : Z) (pl : option string) (ty : PacketType) : Z :=
  sum_bytes (pretty sq +:+ str_payload pl +:+ str_type ty) `mod` 256.

Definition _compute_checksum (p : t) : Z :=
  checksum_of (seq p) (payload p) (type p).

(** [Packet(sequence_number, payload, packet_type)] *)
Definition new (sq : Z) (pl : option string) (ty : PacketType) : t :=
  {| seq := sq; payload := pl; type := ty; checksum := checksum_of sq pl ty |}.

Definition is_corrupt (p : t) : bool :=
  bool_decide (checksum p ≠ _compute_checksum p).

Definition set_checksum (c : Z) (p : t) : t :=
  {| seq := seq p; payload := payload p; type := type p; checksum := c |}.

#[global] Instance inhabited : Inhabited t := populate (new 0 None DATA).

End Packet.

(** ** The world around an engine: heap, random generator, timers, output *)

(** A reference to a packet object. *)
Abbreviation ref := nat (only parsing).
(** A handle on a [threading.Timer] object. *)
Abbreviation handle := nat (only parsing).

Inductive TimerStatus := Armed | Cancelled | Fired.

(** What a timer thread runs when it fires. *)
Inductive TimerAction :=
  | OnTimeout (args : list Z)      (* the engine's timeout handler *)
  | Callback (packet : ref).       (* a delayed delivery by the channel *)

Record Timer := mkTimer {
  interval : Q;
  action : TimerAction;
  status : TimerStatus
}.

(** The lines printed by the program, with the values they format. *)
Inductive Line :=
  | ChannelDropped (p : Packet.t)
  | ChannelCorrupted (p : Packet.t)
  | ChannelDelaying (p : Packet.t) (delay_time : Q)
  | SenderTimeout (sq : Z)
  | SenderAllSent
  | SenderSending (p : Packet.t)
  | ReceiverReceived (p : Packet.t)
  | ReceiverCorrupted
  | ReceiverAccepted (sq : Z)
  | ReceiverDuplicate
  | SenderAckReceived (p : Packet.t)
  | SenderAckCorrupt
  | SenderAckVerified (sq : Z).

Record World := mkWorld {
  heap : list Packet.t;
  rng : nat → Q;          (* the sequence of values of [random.random()] *)
  rng_pos : nat;          (* how many of them were drawn *)
  threads : list Timer;
  stdout : list Line
}.

Definition set_heap (h : list Packet.t) (w : World) : World :=
  {| heap := h; rng := rng w; rng_pos := rng_pos w;
     threads := threads w; stdout := stdout w |}.

Definition set_threads (t : list Timer) (w : World) : World :=
  {| heap := heap w; rng := rng w; rng_pos := rng_pos w;
     threads := t; stdout := stdout w |}.

(** [print(line)] *)
Definition print (l : Line) (w : World) : World :=
  {| heap := heap w; rng := rng w; rng_pos := rng_pos w;
     threads := threads w; stdout := stdout w ++ [l] |}.

(** [random.random()] *)
Definition random (w : World) : Q * World :=
  (rng w (rng_pos w),
   {| heap := heap w; rng := rng w; rng_pos := S (rng_pos w);
      threads := threads w; stdout := stdout w |}).

(** Reading a packet object through a reference. *)
Definition deref (w : World) (r : ref) : Packet.t := heap w !!! r.

(** Allocation of a new packet object. *)
Definition alloc (p : Packet.t) (w : World) : ref * World :=
  (length (heap w), set_heap (heap w ++ [p]) w).

(** [threading.Timer(interval, action).start()] *)
Definition start_thread (i : Q) (a : TimerAction) (w : World) : handle * World :=
  (length (threads w),
   set_threads (threads w ++ [mkTimer i a Armed]) w).

(** [timer.cancel()]: only a timer that has not fired yet is stopped. *)
Definition cancel (h : handle) (w : World) : World :=
  match threads w !! h with
  | Some (mkTimer i a Armed) => set_threads (<[h := mkTimer i a Cancelled]> (threads w)) w
  | _ => w
  end.

(** A state: the fields of an engine object and the world. *)
Record State (E : Type) := mkState { eng : E; world : World }.
Arguments mkState {E} eng world.
Arguments eng {E} s.
Arguments world {E} s.

Definition with_world {E} (f : World → World) (s : State E) : State E :=
  mkState (eng s) (f (world s)).

Definition with_eng {E} (f : E → E) (s : State E) : State E :=
  mkState (f (eng s)) (world s).

(** ** The unreliable channel *)

Record UnreliableChannel := mkChannel {
  loss : Q;
  corruption : Q;
  delay : Q;
  max_delay : Q
}.

(** [x < y] on the values of the random generator. *)
Definition Qltb (x y : Q) : bool := negb (Qle_bool y x).

(** [packet.checksum = (packet.checksum + 1) % 256] *)
Definition corrupt_packet (p : Packet.t) : Packet.t :=
  Packet.set_checksum ((Packet.checksum p + 1) `mod` 256) p.

Definition transmit {E} (ch : UnreliableChannel)
    (packet : ref) (receiver_callback : ref → State E → Result (State E))
    (s : State E) : Result (State E) :=
  let '(x1, w1) := random (world s) in
  if Qltb x1 (loss ch) then
    Ok (mkState (eng s) (print (ChannelDropped (deref w1 packet)) w1))
  else
    let '(x2, w2) := random w1 in
    let w3 :=
      if Qltb x2 (corruption ch) then
        let w := print (ChannelCorrupted (deref w2 packet)) w2 in
        set_heap (alter corrupt_packet packet (heap w)) w
      else w2 in
    let '(x3, w4) := random w3 in
    if Qltb x3 (delay ch) then
      let '(x4, w5) := random w4 in
      let delay_time := (0 + (max_delay ch - 0) * x4)%Q in
      let w6 := print (ChannelDelaying (deref w5 packet) delay_time) w5 in
      Ok (mkState (eng s) (start_thread delay_time (Callback packet) w6).2)
    else
      receiver_callback packet (mkState (eng s) w4).

(** The thread of timer [h] starts running its action. *)
Definition mark_fired (h : handle) (w : World) : World :=
  set_threads (alter (λ t, mkTimer (interval t) (action t) Fired) h (threads w)) w.

(** ["DATA_" + str(k)], the payload of the [k]-th data unit. *)
Definition data_payload (k : Z) : option string := Some ("DATA_" +:+ pretty k).

(** [get_data]: [[buffer[i] for i in sorted(buffer)]] *)
Definition sorted_values (buffer : gmap Z (option string)) : list (option string) :=
  (λ i, buffer !!! i) <$> merge_sort Z.le (elements (dom buffer)).

(** ** rdt 3.0: Stop-and-Wait *)

Module StopAndWaitRDT.

Record Engine := mkEngine {
  channel : UnreliableChannel;
  total_packets : Z;
  timeout : Q;
  seq_num : Z;
  timer : option handle;
  buffer : gmap Z (option string);
  sent_count : Z;
  received_count : Z;
  pending_packet : option ref;
  running : bool
}.

(** [StopAndWaitRDT(channel, total, timeout)] *)
Definition init (ch : UnreliableChannel) (total : Z) (tmo : Q) : Engine :=
  {| channel := ch; total_packets := total; timeout := tmo; seq_num := 0;
     timer := None; buffer := ∅; sent_count := 0; received_count := 0;
     pending_packet := None; running := false |}.

Definition set_seq_num (v : Z) (e : Engine) : Engine :=
  {| channel := channel e; total_packets := total_packets e; timeout := timeout e;
     seq_num := v; timer := timer e; buffer := buffer e;
     sent_count := sent_count e; received_count := received_count e;
     pending_packet := pending_packet e; running := running e |}.

Definition set_timer (v : option handle) (e : Engine) : Engine :=
  {| channel := channel e; total_packets := total_packets e; timeout := timeout e;
     seq_num := seq_num e; timer := v; buffer := buffer e;
     sent_count := sent_count e; received_count := received_count e;
     pending_packet := pending_packet e; running := running e |}.

Definition set_buffer (v : gmap Z (option string)) (e : Engine) : Engine :=
  {| channel := channel e; total_packets := total_packets e; timeout := timeout e;
     seq_num := seq_num e; timer := timer e; buffer := v;
     sent_count := sent_count e; received_count := received_count e;
     pending_packet := pending_packet e; running := running e |}.

Definition set_sent_count (v : Z) (e : Engine) : Engine :=
  {| channel := channel e; total_packets := total_packets e; timeout := timeout e;
     seq_num := seq_num e; timer := timer e; buffer := buffer e;
     sent_count := v; received_count := received_count e;
     pending_packet := pending_packet e; running := running e |}.

Definition set_received_count (v : Z) (e : Engine) : Engine :=
  {| channel := channel e; total_packets := total_packets e; timeout := timeout e;
     seq_num := seq_num e; timer := timer e; buffer := buffer e;
     sent_count := sent_count e; received_count := v;
     pending_packet := pending_packet e; running := running e |}.

Definition set_pending_packet (v : option ref) (e : Engine) : Engine :=
  {| channel := channel e; total_packets := total_packets e; timeout := timeout e;
     seq_num := seq_num e; timer := timer e; buffer := buffer e;
     sent_count := sent_count e; received_count := received_count e;
     pending_packet := v; running := running e |}.

Definition set_running (v : bool) (e : Engine) : Engine :=
  {| channel := channel e; total_packets := total_packets e; timeout := timeout e;
     seq_num := seq_num e; timer := timer e; buffer := buffer e;
     sent_count := sent_count e; received_count := received_count e;
     pending_packet := pending_packet e; running := v |}.

Definition St := State Engine.

(** The bound method [self.receive], as it is handed to the channel. *)
Definition Receive := ref → St → Result St.

Definition _start_timer (s : St) : St :=
  let '(h, w) := start_thread (timeout (eng s)) (OnTimeout []) (world s) in
  mkState (set_timer (Some h) (eng s)) w.

Definition _stop_timer (s : St) : St :=
  match timer (eng s) with
  | Some h => mkState (set_timer None (eng s)) (cancel h (world s))
  | None => s
  end.

Definition _on_timeout (self_receive : Receive) (s : St) : Result St :=
  match pending_packet (eng s) with
  | None => Raise AttributeError
  | Some r =>
      let s1 := with_world (print (SenderTimeout (Packet.seq (deref (world s) r)))) s in
      s2 ← transmit (channel (eng s1)) r self_receive s1;
      Ok (_start_timer s2)
  end.

Definition send (self_receive : Receive) (s : St) : Result St :=
  if bool_decide (total_packets (eng s) ≤ sent_count (eng s)) then
    Ok (with_eng (set_running false) (with_world (print SenderAllSent) s))
  else
    let '(r, w) :=
      alloc (Packet.new (seq_num (eng s)) (data_payload (sent_count (eng s))) DATA)
            (world s) in
    let s1 := mkState (set_pending_packet (Some r) (eng s))
                      (print (SenderSending (deref w r)) w) in
    s2 ← transmit (channel (eng s1)) r self_receive s1;
    Ok (_start_timer s2).

Definition _receiver (self_receive : Receive) (packet : ref) (s : St) : Result St :=
  let s0 := with_world (print (ReceiverReceived (deref (world s) packet))) s in
  let p := deref (world s0) packet in
  if Packet.is_corrupt p then
    let '(ack, w) :=
      alloc (Packet.new (1 - seq_num (eng s0)) None ACK)
            (print ReceiverCorrupted (world s0)) in
    transmit (channel (eng s0)) ack self_receive (mkState (eng s0) w)
  else if bool_decide (Packet.seq p = seq_num (eng s0)) then
    let e1 := set_buffer (<[received_count (eng s0) := Packet.payload p]> (buffer (eng s0)))
                         (eng s0) in
    let e2 := set_received_count (received_count e1 + 1) e1 in
    let '(ack, w) :=
      alloc (Packet.new (Packet.seq p) None ACK)
            (print (ReceiverAccepted (Packet.seq p)) (world s0)) in
    let e3 := set_seq_num (1 - seq_num e2) e2 in
    transmit (channel e3) ack self_receive (mkState e3 w)
  else
    let '(ack, w) :=
      alloc (Packet.new (Packet.seq p) None ACK)
            (print ReceiverDuplicate (world s0)) in
    transmit (channel (eng s0)) ack self_receive (mkState (eng s0) w).

Definition _ack_handler (self_receive : Receive) (ack : ref) (s : St) : Result St :=
  let s0 := with_world (print (SenderAckReceived (deref (world s) ack))) s in
  let a := deref (world s0) ack in
  if Packet.is_corrupt a then
    Ok (with_world (print SenderAckCorrupt) s0)
  else
    match pending_packet (eng s0) with
    | None => Raise AttributeError
    | Some r =>
        if bool_decide (Packet.seq a = Packet.seq (deref (world s0) r)) then
          let s1 := _stop_timer s0 in
          let s2 := with_world (print (SenderAckVerified (Packet.seq a))) s1 in
          let s3 := with_eng (λ e, set_sent_count (sent_count e + 1) e) s2 in
          send self_receive s3
        else Ok s0
    end.

Fixpoint receive (fuel : nat) (packet : ref) (s : St) : Result St :=
  match fuel with
  | O => OutOfFuel
  | S fuel' =>
      match Packet.type (deref (world s) packet) with
      | DATA => _receiver (receive fuel') packet s
      | ACK => _ack_handler (receive fuel') packet s
      end
  end.

Definition start (fuel : nat) (s : St) : Result St :=
  send (receive fuel) (with_eng (set_running true) s).

Definition get_data (e : Engine) : list (option string) :=
  sorted_values (buffer e).

(** The thread of timer [h] wakes up. *)
Definition fire (fuel : nat) (h : handle) (s : St) : Result St :=
  match threads (world s) !! h with
  | Some (mkTimer _ a Armed) =>
      let s1 := with_world (mark_fired h) s in
      match a with
      | OnTimeout _ => _on_timeout (receive fuel) s1
      | Callback packet => receive fuel packet s1
      end
  | _ => Ok s
  end.

End StopAndWaitRDT.

(** ** Go-Back-N *)

Module GoBackNRDT.

Record Engine := mkEngine {
  channel : UnreliableChannel;
  total_packets : Z;
  window_size : Z;
  timeout : Q;
  seq_num : Z;
  ack_received : Z;
  timer : gmap Z handle;
  buffer : gmap Z (option string);
  pending_packets : list ref;
  sent_count : Z;
  received_count : Z;
  running : bool
}.

(** [GoBackNRDT(channel, total, window_size, timeout)] *)
Definition init (ch : UnreliableChannel) (total window : Z) (tmo : Q) : Engine :=
  {| channel := ch; total_packets := total; window_size := window; timeout := tmo;
     seq_num := 0; ack_received := 0; timer := ∅; buffer := ∅;
     pending_packets := []; sent_count := 0; received_count := 0;
     running := false |}.

Definition set_seq_num (v : Z) (e : Engine) : Engine :=
  {| channel := channel e; total_packets := total_packets e;
     window_size := window_size e; timeout := timeout e;
     seq_num := v; ack_received := ack_received e; timer := timer e;
     buffer := buffer e; pending_packets := pending_packets e;
     sent_count := sent_count e; received_count := received_count e;
     running := running e |}.

Definition set_ack_received (v : Z) (e : Engine) : Engine :=
  {| channel := channel e; total_packets := total_packets e;
     window_size := window_size e; timeout := timeout e;
     seq_num := seq_num e; ack_received := v; timer := timer e;
     buffer := buffer e; pending_packets := pending_packets e;
     sent_count := sent_count e; received_count := received_count e;
     running := running e |}.

Definition set_timer (v : gmap Z handle) (e : Engine) : Engine :=
  {| channel := channel e; total_packets := total_packets e;
     window_size := window_size e; timeout := timeout e;
     seq_num := seq_num e; ack_received := ack_received e; timer := v;
     buffer := buffer e; pending_packets := pending_packets e;
     sent_count := sent_count e; received_count := received_count e;
     running := running e |}.

Definition set_buffer (v : gmap Z (option string)) (e : Engine) : Engine :=
  {| channel := channel e; total_packets := total_packets e;
     window_size := window_size e; timeout := timeout e;
     seq_num := seq_num e; ack_received := ack_received e; timer := timer e;
     buffer := v; pending_packets := pending_packets e;
     sent_count := sent_count e; received_count := received_count e;
     running := running e |}.

Definition set_pending_packets (v : list ref) (e : Engine) : Engine :=
  {| channel := channel e; total_packets := total_packets e;
     window_size := window_size e; timeout := timeout e;
     seq_num := seq_num e; ack_received := ack_received e; timer := timer e;
     buffer := buffer e; pending_packets := v;
     sent_count := sent_count e; received_count := received_count e;
     running := running e |}.

Definition set_sent_count (v : Z) (e : Engine) : Engine :=
  {| channel := channel e; total_packets := total_packets e;
     window_size := window_size e; timeout := timeout e;
     seq_num := seq_num e; ack_received := ack_received e; timer := timer e;
     buffer := buffer e; pending_packets := pending_packets e;
     sent_count := v; received_count := received_count e;
     running := running e |}.

Definition set_received_count (v : Z) (e : Engine) : Engine :=
  {| channel := channel e; total_packets := total_packets e;
     window_size := window_size e; timeout := timeout e;
     seq_num := seq_num e; ack_received := ack_received e; timer := timer e;
     buffer := buffer e; pending_packets := pending_packets e;
     sent_count := sent_count e; received_count := v;
     running := running e |}.

Definition set_running (v : bool) (e : Engine) : Engine :=
  {| channel := channel e; total_packets := total_packets e;
     window_size := window_size e; timeout := timeout e;
     seq_num := seq_num e; ack_received := ack_received e; timer := timer e;
     buffer := buffer e; pending_packets := pending_packets e;
     sent_count := sent_count e; received_count := received_count e;
     running := v |}.

Definition St := State Engine.
Definition Receive := ref → St → Result St.

Definition _start_timer (sq : Z) (s : St) : St :=
  let '(h, w) := start_thread (timeout (eng s)) (OnTimeout [sq]) (world s) in
  mkState (set_timer (<[sq := h]> (timer (eng s))) (eng s)) w.

Definition _stop_timer (sq : Z) (s : St) : St :=
  match timer (eng s) !! sq with
  | Some h => mkState (set_timer (delete sq (timer (eng s))) (eng s))
                      (cancel h (world s))
  | None => s
  end.

(** [self.pending_packets[k]] for a non-negative index [k]; the index
    [i % self.window_size] of the source is never negative, as the loop
    around it only runs when the window size is positive. *)
Definition pending_at (k : Z) (s : St) : Result ref :=
  match pending_packets (eng s) !! Z.to_nat k with
  | Some r => Ok r
  | None => Raise IndexError
  end.

Definition _on_timeout (self_receive : Receive) (sq : Z) (s : St) : Result St :=
  let s0 := with_world (print (SenderTimeout sq)) s in
  for_each
    (range (seq_num (eng s0))
           (Z.min (seq_num (eng s0) + window_size (eng s0)) (total_packets (eng s0))))
    (λ i s,
       r ← pending_at (i `mod` window_size (eng s)) s;
       s' ← transmit (channel (eng s)) r self_receive s;
       Ok (_start_timer i s'))
    s0.

Definition send (self_receive : Receive) (s : St) : Result St :=
  if bool_decide (total_packets (eng s) ≤ sent_count (eng s)) then
    Ok (with_eng (set_running false) (with_world (print SenderAllSent) s))
  else
    s' ← for_each (range 0 (window_size (eng s)))
      (λ i s,
         if bool_decide (sent_count (eng s) + i < total_packets (eng s)) then
           let '(r, w) :=
             alloc (Packet.new (seq_num (eng s) + i)
                               (data_payload (sent_count (eng s) + i)) DATA)
                   (world s) in
           let e1 := set_pending_packets (pending_packets (eng s) ++ [r]) (eng s) in
           let s1 := mkState e1 (print (SenderSending (deref w r)) w) in
           s2 ← transmit (channel e1) r self_receive s1;
           Ok (_start_timer (seq_num (eng s2) + i) s2)
         else Ok s)
      s;
    Ok (with_eng (λ e, set_seq_num (seq_num e + window_size e) e) s').

Definition _receiver (self_receive : Receive) (packet : ref) (s : St) : Result St :=
  let s0 := with_world (print (ReceiverReceived (deref (world s) packet))) s in
  let p := deref (world s0) packet in
  if Packet.is_corrupt p then
    let '(ack, w) :=
      alloc (Packet.new (1 - seq_num (eng s0)) None ACK)
            (print ReceiverCorrupted (world s0)) in
    transmit (channel (eng s0)) ack self_receive (mkState (eng s0) w)
  else if bool_decide (Packet.seq p = ack_received (eng s0)) then
    let e1 := set_buffer (<[received_count (eng s0) := Packet.payload p]> (buffer (eng s0)))
                         (eng s0) in
    let e2 := set_received_count (received_count e1 + 1) e1 in
    let '(ack, w) :=
      alloc (Packet.new (Packet.seq p) None ACK)
            (print (ReceiverAccepted (Packet.seq p)) (world s0)) in
    let e3 := set_ack_received (ack_received e2 + 1) e2 in
    transmit (channel e3) ack self_receive (mkState e3 w)
  else
    let '(ack, w) :=
      alloc (Packet.new (Packet.seq p) None ACK)
            (print ReceiverDuplicate (world s0)) in
    transmit (channel (eng s0)) ack self_receive (mkState (eng s0) w).

Definition _ack_handler (self_receive : Receive) (ack : ref) (s : St) : Result St :=
  let s0 := with_world (print (SenderAckReceived (deref (world s) ack))) s in
  let a := deref (world s0) ack in
  if Packet.is_corrupt a then
    Ok (with_world (print SenderAckCorrupt) s0)
  else if bool_decide (seq_num (eng s0) - window_size (eng s0) ≤ Packet.seq a)
          && bool_decide (Packet.seq a < seq_num (eng s0)) then
    let s1 := _stop_timer (Packet.seq a) s0 in
    let s2 := with_world (print (SenderAckVerified (Packet.seq a))) s1 in
    let s3 := with_eng (λ e, set_sent_count (sent_count e + 1) e) s2 in
    if bool_decide (sent_count (eng s3) < total_packets (eng s3)) then
      send self_receive s3
    else Ok s3
  else Ok s0.

Fixpoint receive (fuel : nat) (packet : ref) (s : St) : Result St :=
  match fuel with
  | O => OutOfFuel
  | S fuel' =>
      match Packet.type (deref (world s) packet) with
      | DATA => _receiver (receive fuel') packet s
      | ACK => _ack_handler (receive fuel') packet s
      end
  end.

Definition start (fuel : nat) (s : St) : Result St :=
  send (receive fuel) (with_eng (set_running true) s).

Definition get_data (e : Engine) : list (option string) :=
  sorted_values (buffer e).

(** The thread of timer [h] wakes up. *)
Definition fire (fuel : nat) (h : handle) (s : St) : Result St :=
  match threads (world s) !! h with
  | Some (mkTimer _ a Armed) =>
      let s1 := with_world (mark_fired h) s in
      match a with
      | OnTimeout [sq] => _on_timeout (receive fuel) sq s1
      | OnTimeout _ => Ok s1
      | Callback packet => receive fuel packet s1
      end
  | _ => Ok s
  end.

End GoBackNRDT.

(** ** Selective Repeat *)

Module SelectiveRepeatRDT.

Record Engine := mkEngine {
  channel : UnreliableChannel;
  total_packets : Z;
  window_size : Z;
  timeout : Q;
  seq_num : Z;
  ack_received : Z;
  timer : gmap Z handle;
  buffer : gmap Z (option string);
  pending_packets : gmap Z ref;
  sent_count : Z;
  received_count : Z;
  running : bool
}.

(** [SelectiveRepeatRDT(channel, total, window_size, timeout)] *)
Definition init (ch : UnreliableChannel) (total window : Z) (tmo : Q) : Engine :=
  {| channel := ch; total_packets := total; window_size := window; timeout := tmo;
     seq_num := 0; ack_received := 0; timer := ∅; buffer := ∅;
     pending_packets := ∅; sent_count := 0; received_count := 0;
     running := false |}.

Definition set_seq_num (v : Z) (e : Engine) : Engine :=
  {| channel := channel e; total_packets := total_packets e;
     window_size := window_size e; timeout := timeout e;
     seq_num := v; ack_received := ack_received e; timer := timer e;
     buffer := buffer e; pending_packets := pending_packets e;
     sent_count := sent_count e; received_count := received_count e;
     running := running e |}.

Definition set_ack_received (v : Z) (e : Engine) : Engine :=
  {| channel := channel e; total_packets := total_packets e;
     window_size := window_size e; timeout := timeout e;
     seq_num := seq_num e; ack_received := v; timer := timer e;
     buffer := buffer e; pending_packets := pending_packets e;
     sent_count := sent_count e; received_count := received_count e;
     running := running e |}.

Definition set_timer (v : gmap Z handle) (e : Engine) : Engine :=
  {| channel := channel e; total_packets := total_packets e;
     window_size := window_size e; timeout := timeout e;
     seq_num := seq_num e; ack_received := ack_received e; timer := v;
     buffer := buffer e; pending_packets := pending_packets e;
     sent_count := sent_count e; received_count := received_count e;
     running := running e |}.

Definition set_buffer (v : gmap Z (option string)) (e : Engine) : Engine :=
  {| channel := channel e; total_packets := total_packets e;
     window_size := window_size e; timeout := timeout e;
     seq_num := seq_num e; ack_received := ack_received e; timer := timer e;
     buffer := v; pending_packets := pending_packets e;
     sent_count := sent_count e; received_count := received_count e;
     running := running e |}.

Definition set_pending_packets (v : gmap Z ref) (e : Engine) : Engine :=
  {| channel := channel e; total_packets := total_packets e;
     window_size := window_size e; timeout := timeout e;
     seq_num := seq_num e; ack_received := ack_received e; timer := timer e;
     buffer := buffer e; pending_packets := v;
     sent_count := sent_count e; received_count := received_count e;
     running := running e |}.

Definition set_sent_count (v : Z) (e : Engine) : Engine :=
  {| channel := channel e; total_packets := total_packets e;
     window_size := window_size e; timeout := timeout e;
     seq_num := seq_num e; ack_received := ack_received e; timer := timer e;
     buffer := buffer e; pending_packets := pending_packets e;
     sent_count := v; received_count := received_count e;
     running := running e |}.

Definition set_received_count (v : Z) (e : Engine) : Engine :=
  {| channel := channel e; total_packets := total_packets e;
     window_size := window_size e; timeout := timeout e;
     seq_num := seq_num e; ack_received := ack_received e; timer := timer e;
     buffer := buffer e; pending_packets := pending_packets e;
     sent_count := sent_count e; received_count := v;
     running := running e |}.

Definition set_running (v : bool) (e : Engine) : Engine :=
  {| channel := channel e; total_packets := total_packets e;
     window_size := window_size e; timeout := timeout e;
     seq_num := seq_num e; ack_received := ack_received e; timer := timer e;
     buffer := buffer e; pending_packets := pending_packets e;
     sent_count := sent_count e; received_count := received_count e;
     running := v |}.

Definition St := State Engine.
Definition Receive := ref → St → Result St.

Definition _start_timer (sq : Z) (s : St) : St :=
  let '(h, w) := start_thread (timeout (eng s)) (OnTimeout [sq]) (world s) in
  mkState (set_timer (<[sq := h]> (timer (eng s))) (eng s)) w.

Definition _stop_timer (sq : Z) (s : St) : St :=
  match timer (eng s) !! sq with
  | Some h => mkState (set_timer (delete sq (timer (eng s))) (eng s))
                      (cancel h (world s))
  | None => s
  end.

Definition _on_timeout (self_receive : Receive) (sq : Z) (s : St) : Result St :=
  let s0 := with_world (print (SenderTimeout sq)) s in
  match pending_packets (eng s0) !! sq with
  | None => Raise KeyError
  | Some r =>
      s1 ← transmit (channel (eng s0)) r self_receive s0;
      Ok (_start_timer sq s1)
  end.

Definition send (self_receive : Receive) (s : St) : Result St :=
  if bool_decide (total_packets (eng s) ≤ sent_count (eng s)) then
    Ok (with_eng (set_running false) (with_world (print SenderAllSent) s))
  else
    s' ← for_each (range 0 (window_size (eng s)))
      (λ i s,
         if bool_decide (sent_count (eng s) + i < total_packets (eng s)) then
           let '(r, w) :=
             alloc (Packet.new (seq_num (eng s) + i)
                               (data_payload (sent_count (eng s) + i)) DATA)
                   (world s) in
           let e1 := set_pending_packets
                       (<[seq_num (eng s) + i := r]> (pending_packets (eng s)))
                       (eng s) in
           let s1 := mkState e1 (print (SenderSending (deref w r)) w) in
           s2 ← transmit (channel e1) r self_receive s1;
           Ok (_start_timer (seq_num (eng s2) + i) s2)
         else Ok s)
      s;
    Ok (with_eng (λ e, set_seq_num (seq_num e + window_size e) e) s').

Definition _receiver (self_receive : Receive) (packet : ref) (s : St) : Result St :=
  let s0 := with_world (print (ReceiverReceived (deref (world s) packet))) s in
  let p := deref (world s0) packet in
  if Packet.is_corrupt p then
    let '(ack, w) :=
      alloc (Packet.new (1 - seq_num (eng s0)) None ACK)
            (print ReceiverCorrupted (world s0)) in
    transmit (channel (eng s0)) ack self_receive (mkState (eng s0) w)
  else if bool_decide (Packet.seq p = ack_received (eng s0)) then
    let e1 := set_buffer (<[received_count (eng s0) := Packet.payload p]> (buffer (eng s0)))
                         (eng s0) in
    let e2 := set_received_count (received_count e1 + 1) e1 in
    let '(ack, w) :=
      alloc (Packet.new (Packet.seq p) None ACK)
            (print (ReceiverAccepted (Packet.seq p)) (world s0)) in
    let e3 := set_ack_received (ack_received e2 + 1) e2 in
    transmit (channel e3) ack self_receive (mkState e3 w)
  else
    let '(ack, w) :=
      alloc (Packet.new (Packet.seq p) None ACK)
            (print ReceiverDuplicate (world s0)) in
    transmit (channel (eng s0)) ack self_receive (mkState (eng s0) w).

Definition _ack_handler (self_receive : Receive) (ack : ref) (s : St) : Result St :=
  let s0 := with_world (print (SenderAckReceived (deref (world s) ack))) s in
  let a := deref (world s0) ack in
  if Packet.is_corrupt a then
    Ok (with_world (print SenderAckCorrupt) s0)
  else if bool_decide (is_Some (pending_packets (eng s0) !! Packet.seq a)) then
    let s1 := _stop_timer (Packet.seq a) s0 in
    let s2 := with_world (print (SenderAckVerified (Packet.seq a))) s1 in
    let s3 := with_eng (λ e, set_sent_count (sent_count e + 1) e) s2 in
    if bool_decide (sent_count (eng s3) < total_packets (eng s3)) then
      send self_receive s3
    else Ok s3
  else Ok s0.

Fixpoint receive (fuel : nat) (packet : ref) (s : St) : Result St :=
  match fuel with
  | O => OutOfFuel
  | S fuel' =>
      match Packet.type (deref (world s) packet) with
      | DATA => _receiver (receive fuel') packet s
      | ACK => _ack_handler (receive fuel') packet s
      end
  end.

Definition start (fuel : nat) (s : St) : Result St :=
  send (receive fuel) (with_eng (set_running true) s).

Definition get_data (e : Engine) : list (option string) :=
  sorted_values (buffer e).

(** The thread of timer [h] wakes up. *)
Definition fire (fuel : nat) (h : handle) (s : St) : Result St :=
  match threads (world s) !! h with
  | Some (mkTimer _ a Armed) =>
      let s1 := with_world (mark_fired h) s in
      match a with
      | OnTimeout [sq] => _on_timeout (receive fuel) sq s1
      | OnTimeout _ => Ok s1
      | Callback packet => receive fuel packet s1
      end
  | _ => Ok s
  end.

End SelectiveRepeatRDT.

(** * Vocabulary of the statements *)

(** The logical content of a packet: all but the stored checksum. *)
Definition logical (p : Packet.t) : Z * option string * PacketType :=
  (Packet.seq p, Packet.payload p, Packet.type p).

(** What [transmit] may do to the world when it is given [packet]: only
    the stored checksum of that one object may differ afterwards, and the
    timer threads that exist are left alone (a delayed delivery adds
    one). *)
Record channel_effect (packet : ref) (w w' : World) : Prop := {
  ce_length : length (heap w') = length (heap w);
  ce_others : ∀ r, r ≠ packet → heap w' !! r = heap w !! r;
  ce_content : logical (deref w' packet) = logical (deref w packet);
  ce_threads : threads w `prefix_of` threads w'
}.

(** All three probabilities of the channel are zero. *)
Definition lossless (ch : UnreliableChannel) : Prop :=
  (loss ch == 0)%Q ∧ (corruption ch == 0)%Q ∧ (delay ch == 0)%Q.

(** The result of a call raised no exception. *)
Definition no_raise {A} (m : Result A) : Prop := ∀ e, m ≠ Raise e.

(** Every successful call of [f] relates the states before and after. *)
Definition preserves {E} (R : relation (State E)) (f : State E → Result (State E)) : Prop :=
  ∀ s s', f s = Ok s' → R s s'.

(** Observation of the state a run ends in. *)
Definition observe {E A} (f : State E → A) (m : Result (State E)) : Result A :=
  match m with
  | Ok s => Ok (f s)
  | Raise e => Raise e
  | OutOfFuel => OutOfFuel
  end.

(** The payloads of a transfer of [n] data units, in the order sent. *)
Definition expected_payloads (n : Z) : list (option string) :=
  data_payload <$> seqZ 0 n.

(** First transmissions and verified acknowledgments in the output. *)
Definition is_sending (l : Line) : bool :=
  match l with SenderSending _ => true | _ => false end.

Definition is_verified (l : Line) : bool :=
  match l with SenderAckVerified _ => true | _ => false end.

Definition sent_units (w : World) : nat := length (filter is_sending (stdout w)).
Definition verified_acks (w : World) : nat := length (filter is_verified (stdout w)).

(** Nothing allocated, nothing printed, no timer; [g] gives the draws. *)
Definition empty_world (g : nat → Q) : World := mkWorld [] g 0 [] [].

(** ** Invariants of the engines *)

(** The state of Stop-and-Wait when [send] is entered for unit [k] of
    [N] on a lossless channel: [k] units sent, acknowledged and delivered
    in order. *)
Record sw_inv (N k : Z) (s : StopAndWaitRDT.St) : Prop := {
  swi_total : StopAndWaitRDT.total_packets (eng s) = N;
  swi_sent : StopAndWaitRDT.sent_count (eng s) = k;
  swi_received : StopAndWaitRDT.received_count (eng s) = k;
  swi_data : StopAndWaitRDT.get_data (eng s) = expected_payloads k;
  swi_keys : ∀ j, j ∈ dom (StopAndWaitRDT.buffer (eng s)) → j < k;
  swi_channel : lossless (StopAndWaitRDT.channel (eng s));
  swi_rng : ∀ n, (0 <= rng (world s) n)%Q;
  swi_nonneg : 0 ≤ k
}.

(** From [s] to [s'] the configuration of a Go-Back-N engine is kept and
    [seq_num] (for a window size that is not negative) and [sent_count]
    did not move backward. *)
Record gbn_mono (s s' : GoBackNRDT.St) : Prop := {
  gm_window : GoBackNRDT.window_size (eng s') = GoBackNRDT.window_size (eng s);
  gm_total : GoBackNRDT.total_packets (eng s') = GoBackNRDT.total_packets (eng s);
  gm_seq : 0 ≤ GoBackNRDT.window_size (eng s) →
           GoBackNRDT.seq_num (eng s) ≤ GoBackNRDT.seq_num (eng s');
  gm_sent : GoBackNRDT.sent_count (eng s) ≤ GoBackNRDT.sent_count (eng s')
}.

(** A quiescent Selective-Repeat state: every tracked unit is an object of
    the heap that carries the sequence number it is tracked under, and
    the keys of [pending_packets] and [self.timer] are sequence numbers
    already handed out. *)
Record sr_wf (s : SelectiveRepeatRDT.St) : Prop := {
  wf_window : 0 ≤ SelectiveRepeatRDT.window_size (eng s);
  wf_pending : ∀ k r, SelectiveRepeatRDT.pending_packets (eng s) !! k = Some r →
                 0 ≤ k < SelectiveRepeatRDT.seq_num (eng s)
                 ∧ (r < length (heap (world s)))%nat
                 ∧ Packet.seq (deref (world s) r) = k;
  wf_timer : ∀ k h, SelectiveRepeatRDT.timer (eng s) !! k = Some h →
               k < SelectiveRepeatRDT.seq_num (eng s)
}.

(** What a call made while the timeout of [sq] (tracked object [r]) is
    handled may have changed since the handler was entered in [s0]. *)
Record sr_frame (sq : Z) (r : ref) (s0 s : SelectiveRepeatRDT.St) : Prop := {
  sf_window : SelectiveRepeatRDT.window_size (eng s) = SelectiveRepeatRDT.window_size (eng s0);
  sf_seq : SelectiveRepeatRDT.seq_num (eng s0) ≤ SelectiveRepeatRDT.seq_num (eng s);
  sf_pending_old : ∀ k, k < SelectiveRepeatRDT.seq_num (eng s0) → k ≠ sq →
      SelectiveRepeatRDT.pending_packets (eng s) !! k
      = SelectiveRepeatRDT.pending_packets (eng s0) !! k;
  sf_timer_old : ∀ k, k < SelectiveRepeatRDT.seq_num (eng s0) → k ≠ sq →
      SelectiveRepeatRDT.timer (eng s) !! k = SelectiveRepeatRDT.timer (eng s0) !! k;
  sf_pending_nonneg : ∀ k, is_Some (SelectiveRepeatRDT.pending_packets (eng s) !! k) → 0 ≤ k;
  sf_timer_new : ∀ k h, SelectiveRepeatRDT.seq_num (eng s0) ≤ k →
      SelectiveRepeatRDT.timer (eng s) !! k = Some h →
      (length (threads (world s0)) ≤ h)%nat;
  sf_timer_sq : ∀ h, SelectiveRepeatRDT.timer (eng s) !! sq = Some h →
      (length (threads (world s0)) ≤ h)%nat
      ∨ SelectiveRepeatRDT.timer (eng s0) !! sq = Some h;
  sf_heap_len : (length (heap (world s0)) ≤ length (heap (world s)))%nat;
  sf_heap_old : ∀ x, (x < length (heap (world s0)))%nat → x ≠ r →
      heap (world s) !! x = heap (world s0) !! x;
  sf_unit : logical (deref (world s) r) = logical (deref (world s0) r);
  sf_threads_len : (length (threads (world s0)) ≤ length (threads (world s)))%nat;
  sf_threads_old : ∀ h, (h < length (threads (world s0)))%nat →
      SelectiveRepeatRDT.timer (eng s0) !! sq ≠ Some h →
      threads (world s) !! h = threads (world s0) !! h
}.

(** The sequence numbers a packet handled during the call may carry. *)
Definition sr_chain_seq (sq : Z) (s0 : SelectiveRepeatRDT.St) (q : Z) : Prop :=
  q = sq ∨ SelectiveRepeatRDT.seq_num (eng s0) ≤ q ∨ q < 0.

(** The objects that may be handed to the channel during the call. *)
Definition sr_chain_ref (r : ref) (s0 : SelectiveRepeatRDT.St) (p : ref) : Prop :=
  p = r ∨ (length (heap (world s0)) ≤ p)%nat.

(** What the handlers need of [self.receive]: called on an object of the
    call that carries a sequence number of the call, it keeps the
    frame. *)
Definition sr_keeps_frame (sq : Z) (r : ref) (s0 : SelectiveRepeatRDT.St)
    (self_receive : SelectiveRepeatRDT.Receive) : Prop :=
  ∀ p s s', sr_frame sq r s0 s → sr_chain_ref r s0 p →
            sr_chain_seq sq s0 (Packet.seq (deref (world s) p)) →
            self_receive p s = Ok s' → sr_frame sq r s0 s'.

(** The invariant of Selective Repeat along a run. [w] is the window
    size and [b] a lower bound of [seq_num]; inside the loop of [send]
    the keys may run ahead of [seq_num], by less than [c]; between two
    events [c] is zero. *)
Record sr_inv (w b c : Z) (s : SelectiveRepeatRDT.St) : Prop := {
  ji_window : SelectiveRepeatRDT.window_size (eng s) = w;
  ji_seq : b ≤ SelectiveRepeatRDT.seq_num (eng s);
  ji_pending : ∀ k r, SelectiveRepeatRDT.pending_packets (eng s) !! k = Some r →
                 0 ≤ k < SelectiveRepeatRDT.seq_num (eng s) + c
                 ∧ (r < length (heap (world s)))%nat
                 ∧ Packet.seq (deref (world s) r) = k;
  ji_timer : ∀ k h, SelectiveRepeatRDT.timer (eng s) !! k = Some h →
               k < SelectiveRepeatRDT.seq_num (eng s) + c
}.

(** [self.receive] keeps the invariant, whatever the slack. *)
Definition sr_keeps_inv (w b : Z) (self_receive : SelectiveRepeatRDT.Receive) : Prop :=
  ∀ c p s s', 0 ≤ c → sr_inv w b c s → self_receive p s = Ok s' → sr_inv w b c s'.

(** ** Runs *)

(** The states of a run: construction, then calls of [start], [send] and
    [receive] (on a packet object that exists) and timers that fire. *)
Inductive sr_reachable : SelectiveRepeatRDT.St → Prop :=
  | sr_reach_init ch total window tmo g :
      0 ≤ window →
      sr_reachable (mkState (SelectiveRepeatRDT.init ch total window tmo) (empty_world g))
  | sr_reach_start fuel s s' :
      sr_reachable s → SelectiveRepeatRDT.start fuel s = Ok s' → sr_reachable s'
  | sr_reach_send fuel s s' :
      sr_reachable s →
      SelectiveRepeatRDT.send (SelectiveRepeatRDT.receive fuel) s = Ok s' →
      sr_reachable s'
  | sr_reach_receive fuel packet s s' :
      sr_reachable s → SelectiveRepeatRDT.receive fuel packet s = Ok s' →
      sr_reachable s'
  | sr_reach_fire fuel h s s' :
      sr_reachable s → SelectiveRepeatRDT.fire fuel h s = Ok s' → sr_reachable s'.

(** ** Worlds, channels and states of the examples *)

(** The draws [l], then [d] for ever. *)
Definition draws (l : list Q) (d : Q) : nat → Q := λ n, nth n l d.

(** A channel that never loses, corrupts or delays. *)
Definition lossless_channel : UnreliableChannel := mkChannel 0 0 0 (1#2).

(** A channel that loses a unit when the draw is below one half, and
    neither corrupts nor delays. *)
Definition lossy_channel : UnreliableChannel := mkChannel (1#2) 0 0 (1#2).

(** A draw under which [lossy_channel] delivers, and one under which it
    drops. *)
Definition pass : Q := 3#4.
Definition drop : Q := 0.

Definition sw_lossless : StopAndWaitRDT.St :=
  mkState (StopAndWaitRDT.init lossless_channel 10 1) (empty_world (λ _, pass)).

(** The defaults of [main.py]: ten units, window of four, one second. *)
Definition gbn_lossless : GoBackNRDT.St :=
  mkState (GoBackNRDT.init lossless_channel 10 4 1) (empty_world (λ _, pass)).

Definition sr_lossless : SelectiveRepeatRDT.St :=
  mkState (SelectiveRepeatRDT.init lossless_channel 10 4 1) (empty_world (λ _, pass)).

(** Go-Back-N, ten units, window of four: the first window is lost, then
    one data unit and its acknowledgment get through, then all is lost. *)
Definition gbn_first_window_lost : GoBackNRDT.St :=
  mkState (GoBackNRDT.init lossy_channel 10 4 1)
          (empty_world (draws (replicate 4 drop ++ replicate 6 pass) drop)).

(** Go-Back-N, three units, window of four, everything is lost. *)
Definition gbn_short_all_lost : GoBackNRDT.St :=
  mkState (GoBackNRDT.init lossy_channel 3 4 1) (empty_world (λ _, drop)).

(** Go-Back-N, ten units, window of four, everything is lost. *)
Definition gbn_all_lost : GoBackNRDT.St :=
  mkState (GoBackNRDT.init lossy_channel 10 4 1) (empty_world (λ _, drop)).

(** Selective Repeat, ten units, window of four: the first data unit and
    its acknowledgment get through, then all is lost. *)
Definition sr_first_unit_through : SelectiveRepeatRDT.St :=
  mkState (SelectiveRepeatRDT.init lossy_channel 10 4 1)
          (empty_world (draws (replicate 6 pass) drop)).

(** A Stop-and-Wait engine waiting for the acknowledgment of unit 0
    (object 0 of the heap), with that acknowledgment as object 1. *)
Definition sw_awaiting_ack : StopAndWaitRDT.St :=
  mkState (StopAndWaitRDT.set_pending_packet (Some 0%nat)
             (StopAndWaitRDT.init lossy_channel 10 1))
          (mkWorld [Packet.new 0 (data_payload 0) DATA; Packet.new 0 None ACK]
                   (λ _, drop) 0 [] []).

(** A world that only holds an acknowledgment of sequence number 0. *)
Definition ack_only_world : World :=
  mkWorld [Packet.new 0 None ACK] (λ _, pass) 0 [] [].

(** The state [start] leaves in that run. *)
Definition sr_after_start : SelectiveRepeatRDT.St :=
  match SelectiveRepeatRDT.start 100 sr_first_unit_through with
  | Ok s => s
  | _ => sr_first_unit_through
  end.

(** Selective Repeat, ten units, window of four: the first data unit and
    its acknowledgment get through and the seven other units that [start]
    sends are lost; later one more data unit and its acknowledgment get
    through, then all is lost. *)
Definition sr_retransmission_through : SelectiveRepeatRDT.St :=
  mkState (SelectiveRepeatRDT.init lossy_channel 10 4 1)
          (empty_world (draws (replicate 6 pass ++ replicate 7 drop ++ replicate 6 pass)
                              drop)).

(** The state [start] leaves in that run. *)
Definition sr_before_timeout : SelectiveRepeatRDT.St :=
  match SelectiveRepeatRDT.start 100 sr_retransmission_through with
  | Ok s => s
  | _ => sr_retransmission_through
  end.

(** The state the timeout of sequence number 1 leaves after it. *)
Definition sr_after_timeout : SelectiveRepeatRDT.St :=
  match SelectiveRepeatRDT._on_timeout (SelectiveRepeatRDT.receive 100) 1
          sr_before_timeout with
  | Ok s => s
  | _ => sr_before_timeout
  end.

(** ** Vocabulary of the runs *)

(** From the current position of the generator on, no draw is below [q]:
    every test [random.random() < q] still to come fails. *)
Definition never_below (q : Q) (w : World) : Prop :=
  ∀ n, (rng_pos w ≤ n)%nat → Qltb (rng w n) q = false.

(** The lines the channel prints. *)
Definition is_channel_line (l : Line) : bool :=
  match l with
  | ChannelDropped _ | ChannelCorrupted _ | ChannelDelaying _ _ => true
  | _ => false
  end.

(** The lines that record a step of the protocol: a first transmission,
    an accepted unit, a verified acknowledgment. *)
Definition is_event_line (l : Line) : bool :=
  match l with
  | SenderSending _ | ReceiverAccepted _ | SenderAckVerified _ => true
  | _ => false
  end.

(** The sequence numbers the receiver accepted, in the order of the
    output. *)
Definition accepted_seq (l : Line) : option Z :=
  match l with
  | ReceiverAccepted sq => Some sq
  | _ => None
  end.

Definition accepted_seqs (w : World) : list Z := omap accepted_seq (stdout w).

(** All that one call of [transmit] on [packet] does to the world before
    it returns or hands over to the callback. *)
Record channel_step (ch : UnreliableChannel) (packet : ref) (w w' : World) : Prop := {
  cs_effect : channel_effect packet w w';
  cs_packet : deref w' packet = deref w packet
              ∨ deref w' packet = corrupt_packet (deref w packet);
  cs_rng : rng w' = rng w;
  cs_pos : (rng_pos w ≤ rng_pos w')%nat;
  cs_stdout : ∃ ls, stdout w' = stdout w ++ ls
                    ∧ Forall (λ l, is_channel_line l = true) ls;
  cs_threads : threads w' = threads w
               ∨ ∃ d, threads w' = threads w ++ [mkTimer d (Callback packet) Armed];
  cs_no_delay : never_below (delay ch) w → threads w' = threads w;
  cs_no_corrupt : never_below (corruption ch) w → heap w' = heap w
}.

(** ** The atomic updates of the engines

    Every handler is a sequence of updates of the state; each update is
    listed with what the code has tested before it makes it. *)

Inductive sw_atom (s : StopAndWaitRDT.St) : StopAndWaitRDT.St → Prop :=
  | sw_at_print l :
      is_event_line l = false → sw_atom s (with_world (print l) s)
  | sw_at_channel packet w' :
      channel_step (StopAndWaitRDT.channel (eng s)) packet (world s) w' →
      sw_atom s (mkState (eng s) w')
  | sw_at_start_timer : sw_atom s (StopAndWaitRDT._start_timer s)
  | sw_at_stop_timer : sw_atom s (StopAndWaitRDT._stop_timer s)
  | sw_at_fired h : sw_atom s (with_world (mark_fired h) s)
  | sw_at_running b : sw_atom s (with_eng (StopAndWaitRDT.set_running b) s)
  | sw_at_unit :
      StopAndWaitRDT.sent_count (eng s) < StopAndWaitRDT.total_packets (eng s) →
      sw_atom s
        (let '(r, w) :=
           alloc (Packet.new (StopAndWaitRDT.seq_num (eng s))
                             (data_payload (StopAndWaitRDT.sent_count (eng s))) DATA)
                 (world s) in
         mkState (StopAndWaitRDT.set_pending_packet (Some r) (eng s))
                 (print (SenderSending (deref w r)) w))
  | sw_at_nak packet :
      Packet.is_corrupt (deref (world s) packet) = true →
      sw_atom s
        (mkState (eng s)
           (alloc (Packet.new (1 - StopAndWaitRDT.seq_num (eng s)) None ACK)
                  (print ReceiverCorrupted (world s))).2)
  | sw_at_accept packet :
      Packet.is_corrupt (deref (world s) packet) = false →
      Packet.seq (deref (world s) packet) = StopAndWaitRDT.seq_num (eng s) →
      sw_atom s
        (let p := deref (world s) packet in
         let e1 := StopAndWaitRDT.set_buffer
                     (<[StopAndWaitRDT.received_count (eng s) := Packet.payload p]>
                        (StopAndWaitRDT.buffer (eng s))) (eng s) in
         let e2 := StopAndWaitRDT.set_received_count
                     (StopAndWaitRDT.received_count e1 + 1) e1 in
         let e3 := StopAndWaitRDT.set_seq_num (1 - StopAndWaitRDT.seq_num e2) e2 in
         mkState e3
           (alloc (Packet.new (Packet.seq p) None ACK)
                  (print (ReceiverAccepted (Packet.seq p)) (world s))).2)
  | sw_at_duplicate packet :
      Packet.is_corrupt (deref (world s) packet) = false →
      Packet.seq (deref (world s) packet) ≠ StopAndWaitRDT.seq_num (eng s) →
      sw_atom s
        (mkState (eng s)
           (alloc (Packet.new (Packet.seq (deref (world s) packet)) None ACK)
                  (print ReceiverDuplicate (world s))).2)
  | sw_at_ack ack r :
      Packet.is_corrupt (deref (world s) ack) = false →
      StopAndWaitRDT.pending_packet (eng s) = Some r →
      Packet.seq (deref (world s) ack) = Packet.seq (deref (world s) r) →
      sw_atom s
        (with_eng (λ e, StopAndWaitRDT.set_sent_count (StopAndWaitRDT.sent_count e + 1) e)
           (with_world (print (SenderAckVerified (Packet.seq (deref (world s) ack)))) s)).

Inductive gbn_atom (s : GoBackNRDT.St) : GoBackNRDT.St → Prop :=
  | gbn_at_print l :
      is_event_line l = false → gbn_atom s (with_world (print l) s)
  | gbn_at_channel packet w' :
      channel_step (GoBackNRDT.channel (eng s)) packet (world s) w' →
      gbn_atom s (mkState (eng s) w')
  | gbn_at_start_timer k : gbn_atom s (GoBackNRDT._start_timer k s)
  | gbn_at_stop_timer k : gbn_atom s (GoBackNRDT._stop_timer k s)
  | gbn_at_fired h : gbn_atom s (with_world (mark_fired h) s)
  | gbn_at_running b : gbn_atom s (with_eng (GoBackNRDT.set_running b) s)
  | gbn_at_unit i :
      0 ≤ i →
      GoBackNRDT.sent_count (eng s) + i < GoBackNRDT.total_packets (eng s) →
      gbn_atom s
        (let '(r, w) :=
           alloc (Packet.new (GoBackNRDT.seq_num (eng s) + i)
                             (data_payload (GoBackNRDT.sent_count (eng s) + i)) DATA)
                 (world s) in
         let e1 := GoBackNRDT.set_pending_packets
                     (GoBackNRDT.pending_packets (eng s) ++ [r])
                     (eng s) in
         mkState e1 (print (SenderSending (deref w r)) w))
  | gbn_at_advance :
      gbn_atom s
        (with_eng (λ e, GoBackNRDT.set_seq_num (GoBackNRDT.seq_num e + GoBackNRDT.window_size e) e) s)
  | gbn_at_nak packet :
      Packet.is_corrupt (deref (world s) packet) = true →
      gbn_atom s
        (mkState (eng s)
           (alloc (Packet.new (1 - GoBackNRDT.seq_num (eng s)) None ACK)
                  (print ReceiverCorrupted (world s))).2)
  | gbn_at_accept packet :
      Packet.is_corrupt (deref (world s) packet) = false →
      Packet.seq (deref (world s) packet) = GoBackNRDT.ack_received (eng s) →
      gbn_atom s
        (let p := deref (world s) packet in
         let e1 := GoBackNRDT.set_buffer
                     (<[GoBackNRDT.received_count (eng s) := Packet.payload p]>
                        (GoBackNRDT.buffer (eng s))) (eng s) in
         let e2 := GoBackNRDT.set_received_count (GoBackNRDT.received_count e1 + 1) e1 in
         let e3 := GoBackNRDT.set_ack_received (GoBackNRDT.ack_received e2 + 1) e2 in
         mkState e3
           (alloc (Packet.new (Packet.seq p) None ACK)
                  (print (ReceiverAccepted (Packet.seq p)) (world s))).2)
  | gbn_at_duplicate packet :
      Packet.is_corrupt (deref (world s) packet) = false →
      Packet.seq (deref (world s) packet) ≠ GoBackNRDT.ack_received (eng s) →
      gbn_atom s
        (mkState (eng s)
           (alloc (Packet.new (Packet.seq (deref (world s) packet)) None ACK)
                  (print ReceiverDuplicate (world s))).2)
  | gbn_at_ack ack :
      Packet.is_corrupt (deref (world s) ack) = false →
      GoBackNRDT.seq_num (eng s) - GoBackNRDT.window_size (eng s)
        ≤ Packet.seq (deref (world s) ack) < GoBackNRDT.seq_num (eng s) →
      gbn_atom s
        (with_eng (λ e, GoBackNRDT.set_sent_count (GoBackNRDT.sent_count e + 1) e)
           (with_world (print (SenderAckVerified (Packet.seq (deref (world s) ack)))) s)).

Inductive sr_atom (s : SelectiveRepeatRDT.St) : SelectiveRepeatRDT.St → Prop :=
  | sr_at_print l :
      is_event_line l = false → sr_atom s (with_world (print l) s)
  | sr_at_channel packet w' :
      channel_step (SelectiveRepeatRDT.channel (eng s)) packet (world s) w' →
      sr_atom s (mkState (eng s) w')
  | sr_at_start_timer k : sr_atom s (SelectiveRepeatRDT._start_timer k s)
  | sr_at_stop_timer k : sr_atom s (SelectiveRepeatRDT._stop_timer k s)
  | sr_at_fired h : sr_atom s (with_world (mark_fired h) s)
  | sr_at_running b : sr_atom s (with_eng (SelectiveRepeatRDT.set_running b) s)
  | sr_at_unit i :
      0 ≤ i →
      SelectiveRepeatRDT.sent_count (eng s) + i < SelectiveRepeatRDT.total_packets (eng s) →
      sr_atom s
        (let '(r, w) :=
           alloc (Packet.new (SelectiveRepeatRDT.seq_num (eng s) + i)
                             (data_payload (SelectiveRepeatRDT.sent_count (eng s) + i)) DATA)
                 (world s) in
         let e1 := SelectiveRepeatRDT.set_pending_packets
                     (<[SelectiveRepeatRDT.seq_num (eng s) + i := r]>
                        (SelectiveRepeatRDT.pending_packets (eng s)))
                     (eng s) in
         mkState e1 (print (SenderSending (deref w r)) w))
  | sr_at_advance :
      sr_atom s
        (with_eng (λ e, SelectiveRepeatRDT.set_seq_num (SelectiveRepeatRDT.seq_num e + SelectiveRepeatRDT.window_size e) e) s)
  | sr_at_nak packet :
      Packet.is_corrupt (deref (world s) packet) = true →
      sr_atom s
        (mkState (eng s)
           (alloc (Packet.new (1 - SelectiveRepeatRDT.seq_num (eng s)) None ACK)
                  (print ReceiverCorrupted (world s))).2)
  | sr_at_accept packet :
      Packet.is_corrupt (deref (world s) packet) = false →
      Packet.seq (deref (world s) packet) = SelectiveRepeatRDT.ack_received (eng s) →
      sr_atom s
        (let p := deref (world s) packet in
         let e1 := SelectiveRepeatRDT.set_buffer
                     (<[SelectiveRepeatRDT.received_count (eng s) := Packet.payload p]>
                        (SelectiveRepeatRDT.buffer (eng s))) (eng s) in
         let e2 := SelectiveRepeatRDT.set_received_count (SelectiveRepeatRDT.received_count e1 + 1) e1 in
         let e3 := SelectiveRepeatRDT.set_ack_received (SelectiveRepeatRDT.ack_received e2 + 1) e2 in
         mkState e3
           (alloc (Packet.new (Packet.seq p) None ACK)
                  (print (ReceiverAccepted (Packet.seq p)) (world s))).2)
  | sr_at_duplicate packet :
      Packet.is_corrupt (deref (world s) packet) = false →
      Packet.seq (deref (world s) packet) ≠ SelectiveRepeatRDT.ack_received (eng s) →
      sr_atom s
        (mkState (eng s)
           (alloc (Packet.new (Packet.seq (deref (world s) packet)) None ACK)
                  (print ReceiverDuplicate (world s))).2)
  | sr_at_ack ack :
      Packet.is_corrupt (deref (world s) ack) = false →
      is_Some (SelectiveRepeatRDT.pending_packets (eng s)
                 !! Packet.seq (deref (world s) ack)) →
      sr_atom s
        (with_eng (λ e, SelectiveRepeatRDT.set_sent_count (SelectiveRepeatRDT.sent_count e + 1) e)
           (with_world (print (SenderAckVerified (Packet.seq (deref (world s) ack)))) s)).

(** The states of a Stop-and-Wait engine: construction, then calls of
    [start], [send] and [receive] and timers that fire, in any order. *)
Inductive sw_reachable : StopAndWaitRDT.St → Prop :=
  | sw_reach_init ch total tmo g :
      sw_reachable (mkState (StopAndWaitRDT.init ch total tmo) (empty_world g))
  | sw_reach_start fuel s s' :
      sw_reachable s → StopAndWaitRDT.start fuel s = Ok s' → sw_reachable s'
  | sw_reach_send fuel s s' :
      sw_reachable s →
      StopAndWaitRDT.send (StopAndWaitRDT.receive fuel) s = Ok s' →
      sw_reachable s'
  | sw_reach_receive fuel packet s s' :
      sw_reachable s → StopAndWaitRDT.receive fuel packet s = Ok s' →
      sw_reachable s'
  | sw_reach_fire fuel h s s' :
      sw_reachable s → StopAndWaitRDT.fire fuel h s = Ok s' → sw_reachable s'.

(** The states of a transfer as [main] runs it: the engine is
    constructed, [start] is called once, and from then on only timers
    fire (retransmissions and delayed deliveries). *)
Inductive sw_run (ch : UnreliableChannel) (total : Z) (tmo : Q) (g : nat → Q)
    : StopAndWaitRDT.St → Prop :=
  | sw_run_start fuel s :
      StopAndWaitRDT.start fuel
        (mkState (StopAndWaitRDT.init ch total tmo) (empty_world g)) = Ok s →
      sw_run ch total tmo g s
  | sw_run_fire fuel h s s' :
      sw_run ch total tmo g s → StopAndWaitRDT.fire fuel h s = Ok s' →
      sw_run ch total tmo g s'.

(** The states of a Go-Back-N engine: construction, then calls of
    [start], [send] and [receive] and timers that fire, in any order. *)
Inductive gbn_reachable : GoBackNRDT.St → Prop :=
  | gbn_reach_init ch total window tmo g :
      gbn_reachable (mkState (GoBackNRDT.init ch total window tmo) (empty_world g))
  | gbn_reach_start fuel s s' :
      gbn_reachable s → GoBackNRDT.start fuel s = Ok s' → gbn_reachable s'
  | gbn_reach_send fuel s s' :
      gbn_reachable s →
      GoBackNRDT.send (GoBackNRDT.receive fuel) s = Ok s' →
      gbn_reachable s'
  | gbn_reach_receive fuel packet s s' :
      gbn_reachable s → GoBackNRDT.receive fuel packet s = Ok s' →
      gbn_reachable s'
  | gbn_reach_fire fuel h s s' :
      gbn_reachable s → GoBackNRDT.fire fuel h s = Ok s' → gbn_reachable s'.

(** ** Invariants of the runs *)

(** The receiving side of Stop-and-Wait: the expected bit is the parity
    of the number of units accepted, the sequence numbers accepted
    alternate from 0, and the buffer holds one entry for each of them,
    under the keys 0, 1, 2, ... *)
Record sw_alternating (s : StopAndWaitRDT.St) : Prop := {
  sa_count : 0 ≤ StopAndWaitRDT.received_count (eng s);
  sa_bit : StopAndWaitRDT.seq_num (eng s)
           = StopAndWaitRDT.received_count (eng s) `mod` 2;
  sa_accepted : accepted_seqs (world s)
                = (λ i, i `mod` 2) <$> seqZ 0 (StopAndWaitRDT.received_count (eng s));
  sa_keys : ∀ j, j ∈ dom (StopAndWaitRDT.buffer (eng s))
                 ↔ 0 ≤ j < StopAndWaitRDT.received_count (eng s)
}.

(** The receiving side of Go-Back-N: the units accepted carry the sequence
    numbers 0, 1, 2, ... in that order, [ack_received] counts them, and
    the buffer holds one entry for each, under the keys 0, 1, 2, ... *)
Record gbn_in_order (s : GoBackNRDT.St) : Prop := {
  gi_count : 0 ≤ GoBackNRDT.received_count (eng s);
  gi_ack : GoBackNRDT.ack_received (eng s) = GoBackNRDT.received_count (eng s);
  gi_accepted : accepted_seqs (world s) = seqZ 0 (GoBackNRDT.received_count (eng s));
  gi_keys : ∀ j, j ∈ dom (GoBackNRDT.buffer (eng s))
                 ↔ 0 ≤ j < GoBackNRDT.received_count (eng s)
}.

(** The receiving side of Selective Repeat: the units accepted carry the sequence
    numbers 0, 1, 2, ... in that order, [ack_received] counts them, and
    the buffer holds one entry for each, under the keys 0, 1, 2, ... *)
Record sr_in_order (s : SelectiveRepeatRDT.St) : Prop := {
  si_count : 0 ≤ SelectiveRepeatRDT.received_count (eng s);
  si_ack : SelectiveRepeatRDT.ack_received (eng s) = SelectiveRepeatRDT.received_count (eng s);
  si_accepted : accepted_seqs (world s) = seqZ 0 (SelectiveRepeatRDT.received_count (eng s));
  si_keys : ∀ j, j ∈ dom (SelectiveRepeatRDT.buffer (eng s))
                 ↔ 0 ≤ j < SelectiveRepeatRDT.received_count (eng s)
}.

(** From [s] to [s'] a Go-Back-N engine keeps its configuration, only
    appends to [pending_packets], only adds packet objects, keeps the
    sequence number, payload and type of those it has, and (for a window
    size that is not negative) does not move [seq_num] backward. *)
Record gbn_grows (s s' : GoBackNRDT.St) : Prop := {
  gg_window : GoBackNRDT.window_size (eng s') = GoBackNRDT.window_size (eng s);
  gg_total : GoBackNRDT.total_packets (eng s') = GoBackNRDT.total_packets (eng s);
  gg_seq : 0 ≤ GoBackNRDT.window_size (eng s) →
           GoBackNRDT.seq_num (eng s) ≤ GoBackNRDT.seq_num (eng s');
  gg_pending : GoBackNRDT.pending_packets (eng s)
               `prefix_of` GoBackNRDT.pending_packets (eng s');
  gg_heap_len : (length (heap (world s)) ≤ length (heap (world s')))%nat;
  gg_heap : ∀ r, (r < length (heap (world s)))%nat →
                 logical (deref (world s') r) = logical (deref (world s) r)
}.

(** No timer thread runs a timeout handler: all are delayed deliveries. *)
Definition only_callbacks (w : World) : Prop :=
  ∀ t, t ∈ threads w → ∃ packet, action t = Callback packet.

(** A Go-Back-N engine whose [send] has not sent a unit yet. *)
Record gbn_unsent (s : GoBackNRDT.St) : Prop := {
  gu_seq : GoBackNRDT.seq_num (eng s) = 0;
  gu_sent : GoBackNRDT.sent_count (eng s) = 0;
  gu_heap : ∀ r, 0 ≤ Packet.seq (deref (world s) r)
}.

(** What a call of [receive] keeps of such an engine. *)
Definition gbn_stays_unsent (s s' : GoBackNRDT.St) : Prop :=
  gbn_unsent s →
  gbn_unsent s'
  ∧ GoBackNRDT.pending_packets (eng s') = GoBackNRDT.pending_packets (eng s)
  ∧ (only_callbacks (world s) → only_callbacks (world s')).

(** Once [send] has sent its first batch: the first
    [min(window_size, total)] entries of [pending_packets] are the units
    0, 1, ... of that batch, and [seq_num] is past the first window. *)
Record gbn_first_window (s : GoBackNRDT.St) : Prop := {
  gf_units : ∀ k, 0 ≤ k < Z.min (GoBackNRDT.window_size (eng s))
                                (GoBackNRDT.total_packets (eng s)) →
      ∃ r, GoBackNRDT.pending_packets (eng s) !! Z.to_nat k = Some r
           ∧ (r < length (heap (world s)))%nat
           ∧ logical (deref (world s) r) = (k, data_payload k, DATA);
  gf_seq : 0 < GoBackNRDT.window_size (eng s) →
           GoBackNRDT.seq_num (eng s) < GoBackNRDT.total_packets (eng s) →
           GoBackNRDT.window_size (eng s) ≤ GoBackNRDT.seq_num (eng s)
}.

(** The states of a run of Go-Back-N: before the first unit is sent, or
    after the first batch. *)
Definition gbn_run_inv (s : GoBackNRDT.St) : Prop :=
  (gbn_unsent s ∧ GoBackNRDT.pending_packets (eng s) = []
   ∧ only_callbacks (world s))
  ∨ gbn_first_window s.

(** Every timer thread runs a timeout handler: no delivery is delayed. *)
Definition only_timeouts (w : World) : Prop :=
  ∀ t, t ∈ threads w → ∃ args, action t = OnTimeout args.

(** Stop-and-Wait on a channel that does not delay, whatever it loses
    or corrupts: what every state of a transfer satisfies. The buffer
    holds the payloads of the units 0 to [received_count - 1], each
    under its index. *)
Record sw_core (s : StopAndWaitRDT.St) : Prop := {
  sc_no_delay : never_below (delay (StopAndWaitRDT.channel (eng s))) (world s);
  sc_timers : only_timeouts (world s);
  sc_count : 0 ≤ StopAndWaitRDT.received_count (eng s);
  sc_buffer : ∀ i, 0 ≤ i < StopAndWaitRDT.received_count (eng s) →
                StopAndWaitRDT.buffer (eng s) !! i = Some (data_payload i);
  sc_keys : ∀ j, j ∈ dom (StopAndWaitRDT.buffer (eng s)) →
              0 ≤ j < StopAndWaitRDT.received_count (eng s)
}.

(** The object [r] is the data unit of index [k], sent with bit [q]. *)
Definition sw_holds (s : StopAndWaitRDT.St) (r : ref) (q k : Z) : Prop :=
  (r < length (heap (world s)))%nat
  ∧ logical (deref (world s) r) = (q, data_payload k, DATA).

(** The pending unit has been accepted by the receiver and is not
    acknowledged yet (or the transfer is complete). *)
Definition sw_is_delivered (s : StopAndWaitRDT.St) : Prop :=
  ∃ r, StopAndWaitRDT.pending_packet (eng s) = Some r
       ∧ sw_holds s r (1 - StopAndWaitRDT.seq_num (eng s))
                      (StopAndWaitRDT.received_count (eng s) - 1)
       ∧ 0 < StopAndWaitRDT.received_count (eng s) ≤ StopAndWaitRDT.total_packets (eng s)
       ∧ (StopAndWaitRDT.sent_count (eng s) = StopAndWaitRDT.received_count (eng s) - 1
          ∨ (StopAndWaitRDT.total_packets (eng s) ≤ StopAndWaitRDT.sent_count (eng s)
             ∧ StopAndWaitRDT.received_count (eng s) = StopAndWaitRDT.total_packets (eng s))).

(** Where sender and receiver stand between two calls: nothing sent
    yet; the pending unit is the next one the receiver waits for; or
    the pending unit has been accepted. *)
Inductive sw_phase (s : StopAndWaitRDT.St) : Prop :=
  | sw_idle :
      StopAndWaitRDT.pending_packet (eng s) = None →
      StopAndWaitRDT.received_count (eng s) = 0 →
      StopAndWaitRDT.sent_count (eng s) = 0 →
      sw_phase s
  | sw_waiting r :
      StopAndWaitRDT.pending_packet (eng s) = Some r →
      sw_holds s r (StopAndWaitRDT.seq_num (eng s)) (StopAndWaitRDT.received_count (eng s)) →
      StopAndWaitRDT.sent_count (eng s) = StopAndWaitRDT.received_count (eng s) →
      StopAndWaitRDT.sent_count (eng s) < StopAndWaitRDT.total_packets (eng s) →
      sw_phase s
  | sw_delivered : sw_is_delivered s → sw_phase s.

(** Where they stand when [send] is entered: at the start, or after the
    acknowledgment of the pending unit was counted. *)
Definition sw_ready (s : StopAndWaitRDT.St) : Prop :=
  (StopAndWaitRDT.pending_packet (eng s) = None
   ∧ StopAndWaitRDT.received_count (eng s) = 0
   ∧ StopAndWaitRDT.sent_count (eng s) = 0)
  ∨ ∃ r, StopAndWaitRDT.pending_packet (eng s) = Some r
         ∧ sw_holds s r (1 - StopAndWaitRDT.seq_num (eng s))
                        (StopAndWaitRDT.received_count (eng s) - 1)
         ∧ 0 < StopAndWaitRDT.received_count (eng s) ≤ StopAndWaitRDT.total_packets (eng s)
         ∧ (StopAndWaitRDT.sent_count (eng s) = StopAndWaitRDT.received_count (eng s)
            ∨ (StopAndWaitRDT.total_packets (eng s) ≤ StopAndWaitRDT.sent_count (eng s)
               ∧ StopAndWaitRDT.received_count (eng s)
                 = StopAndWaitRDT.total_packets (eng s))).

Definition sw_safe (s : StopAndWaitRDT.St) : Prop := sw_core s ∧ sw_phase s.

(** The packets the channel hands to [receive] in such a transfer: the
    pending data unit, or an acknowledgment that was made after the
    pending unit was accepted or carries the complement of the expected
    bit. *)
Definition sw_deliverable (s : StopAndWaitRDT.St) (p : ref) : Prop :=
  (p < length (heap (world s)))%nat
  ∧ match Packet.type (deref (world s) p) with
    | DATA => StopAndWaitRDT.pending_packet (eng s) = Some p
    | ACK => sw_is_delivered s
             ∨ Packet.seq (deref (world s) p) = 1 - StopAndWaitRDT.seq_num (eng s)
    end.

Definition sw_keeps_safe (self_receive : StopAndWaitRDT.Receive) : Prop :=
  ∀ p s s', sw_safe s → sw_deliverable s p → self_receive p s = Ok s' → sw_safe s'.

(** From [s] to [s'] nothing moved in the protocol: the counters, the
    expected bit, the buffer and the pending unit are the same, packet
    objects were only added (or had their stored checksum changed), and
    the timer threads are timeouts if they were. *)
Record sw_quiet (s s' : StopAndWaitRDT.St) : Prop := {
  sq_pending : StopAndWaitRDT.pending_packet (eng s') = StopAndWaitRDT.pending_packet (eng s);
  sq_received : StopAndWaitRDT.received_count (eng s')
                = StopAndWaitRDT.received_count (eng s);
  sq_sent : StopAndWaitRDT.sent_count (eng s') = StopAndWaitRDT.sent_count (eng s);
  sq_seq : StopAndWaitRDT.seq_num (eng s') = StopAndWaitRDT.seq_num (eng s);
  sq_total : StopAndWaitRDT.total_packets (eng s') = StopAndWaitRDT.total_packets (eng s);
  sq_buffer : StopAndWaitRDT.buffer (eng s') = StopAndWaitRDT.buffer (eng s);
  sq_channel : StopAndWaitRDT.channel (eng s') = StopAndWaitRDT.channel (eng s);
  sq_len : (length (heap (world s)) ≤ length (heap (world s')))%nat;
  sq_logical : ∀ r, (r < length (heap (world s)))%nat →
                    logical (deref (world s') r) = logical (deref (world s) r);
  sq_draws : ∀ q, never_below q (world s) → never_below q (world s');
  sq_timers : never_below (delay (StopAndWaitRDT.channel (eng s))) (world s) →
              only_timeouts (world s) → only_timeouts (world s')
}.

(** The pending unit [r] of a Stop-and-Wait engine waits for its first
    acceptance and its object is corrupt; from now on the channel
    neither corrupts nor delays. *)
Record sw_stalled (r : ref) (s : StopAndWaitRDT.St) : Prop := {
  st_pending : StopAndWaitRDT.pending_packet (eng s) = Some r;
  st_object : (r < length (heap (world s)))%nat;
  st_type : Packet.type (deref (world s) r) = DATA;
  st_seq : Packet.seq (deref (world s) r) = StopAndWaitRDT.seq_num (eng s);
  st_corrupt : Packet.is_corrupt (deref (world s) r) = true;
  st_timers : only_timeouts (world s);
  st_no_corruption :
    never_below (corruption (StopAndWaitRDT.channel (eng s))) (world s);
  st_no_delay : never_below (delay (StopAndWaitRDT.channel (eng s))) (world s)
}.

(** From [s] to [t] nothing moved in the protocol and every packet
    object of [s] is as it was, stored checksum included. *)
Definition sw_still (s t : StopAndWaitRDT.St) : Prop :=
  sw_quiet s t ∧ ∃ ps, heap (world t) = heap (world s) ++ ps.

(** The bookkeeping of the Go-Back-N sender against the output. *)
Definition gbn_books (s : GoBackNRDT.St) : Prop :=
  length (GoBackNRDT.pending_packets (eng s)) = sent_units (world s)
  ∧ GoBackNRDT.sent_count (eng s) = Z.of_nat (verified_acks (world s)).

(** Selective Repeat on a lossless channel, inside [start]: the state
    in which the acknowledgment handler goes on after it has counted
    [k] acknowledgments. Every unit so far was sent with sequence
    number 0, from inside the loop of the [send] before it; no timer is
    armed yet. *)
Record sr_descent (N W : Z) (tmo : Q) (k : Z) (s : SelectiveRepeatRDT.St) : Prop := {
  sd_total : SelectiveRepeatRDT.total_packets (eng s) = N;
  sd_window : SelectiveRepeatRDT.window_size (eng s) = W;
  sd_timeout : SelectiveRepeatRDT.timeout (eng s) = tmo;
  sd_sent : SelectiveRepeatRDT.sent_count (eng s) = k;
  sd_seq : SelectiveRepeatRDT.seq_num (eng s) = 0;
  sd_ack : SelectiveRepeatRDT.ack_received (eng s) = 1;
  sd_pending : dom (SelectiveRepeatRDT.pending_packets (eng s)) = {[0]};
  sd_timer : SelectiveRepeatRDT.timer (eng s) = ∅;
  sd_threads : threads (world s) = [];
  sd_channel : lossless (SelectiveRepeatRDT.channel (eng s));
  sd_rng : ∀ n, (0 <= rng (world s) n)%Q
}.

(** The timers armed when the nested calls of [send] return, innermost
    first: the [j]-th under the key [j * W]. *)
Definition sr_unwound_timers (W : Z) (tmo : Q) (n : Z) : list Timer :=
  (λ j, mkTimer tmo (OnTimeout [j * W]) Armed) <$> seqZ 0 n.

(** The state in which that continuation returns. *)
Record sr_unwound (N W : Z) (tmo : Q) (k : Z) (s s' : SelectiveRepeatRDT.St) : Prop := {
  su_total : SelectiveRepeatRDT.total_packets (eng s') = N;
  su_window : SelectiveRepeatRDT.window_size (eng s') = W;
  su_timeout : SelectiveRepeatRDT.timeout (eng s') = tmo;
  su_sent : SelectiveRepeatRDT.sent_count (eng s') = N;
  su_seq : SelectiveRepeatRDT.seq_num (eng s') = (N - k) * W;
  su_pending : dom (SelectiveRepeatRDT.pending_packets (eng s')) = {[0]};
  su_threads : threads (world s') = sr_unwound_timers W tmo (N - k);
  su_buffer : SelectiveRepeatRDT.buffer (eng s') = SelectiveRepeatRDT.buffer (eng s);
  su_channel : lossless (SelectiveRepeatRDT.channel (eng s'));
  su_rng : ∀ n, (0 <= rng (world s') n)%Q
}.

(** Go-Back-N on a lossless channel, inside the loop of the first
    [send], before pass [i]: the units before [i] were delivered, and no
    acknowledgment was counted. *)
Record gbn_first_pass (N W i : Z) (s : GoBackNRDT.St) : Prop := {
  gp_total : GoBackNRDT.total_packets (eng s) = N;
  gp_window : GoBackNRDT.window_size (eng s) = W;
  gp_sent : GoBackNRDT.sent_count (eng s) = 0;
  gp_seq : GoBackNRDT.seq_num (eng s) = 0;
  gp_ack : GoBackNRDT.ack_received (eng s) = Z.min i N;
  gp_received : GoBackNRDT.received_count (eng s) = Z.min i N;
  gp_data : GoBackNRDT.get_data (eng s) = expected_payloads (Z.min i N);
  gp_keys : ∀ j, j ∈ dom (GoBackNRDT.buffer (eng s)) → j < Z.min i N;
  gp_pending : length (GoBackNRDT.pending_packets (eng s)) = Z.to_nat (Z.min i N);
  gp_verified : verified_acks (world s) = 0%nat;
  gp_running : GoBackNRDT.running (eng s) = true;
  gp_channel : lossless (GoBackNRDT.channel (eng s));
  gp_rng : ∀ n, (0 <= rng (world s) n)%Q
}.

(** The state [start] leaves on the lossless channel. *)
Definition sw_after_start : StopAndWaitRDT.St :=
  match StopAndWaitRDT.start 100 sw_lossless with
  | Ok s => s
  | _ => sw_lossless
  end.

(** Go-Back-N on the lossless channel after [start] and the timeout of
    the first timer. *)
Definition gbn_after_timeout : GoBackNRDT.St :=
  match s ← GoBackNRDT.start 100 gbn_lossless; GoBackNRDT.fire 100 0 s with
  | Ok s => s
  | _ => gbn_lossless
  end.

(** Go-Back-N, ten units, window of four, after a [start] in which every
    unit was lost. *)
Definition gbn_all_lost_started : GoBackNRDT.St :=
  match GoBackNRDT.start 100 gbn_all_lost with
  | Ok s => s
  | _ => gbn_all_lost
  end.

(** Stop-and-Wait on a channel that loses the first transmission and
    delivers all the others, after [start] and the first timeout. *)
Definition sw_first_lost : StopAndWaitRDT.St :=
  mkState (StopAndWaitRDT.init lossy_channel 10 1) (empty_world (draws [drop] pass)).

Definition sw_first_lost_recovered : StopAndWaitRDT.St :=
  match s ← StopAndWaitRDT.start 100 sw_first_lost; StopAndWaitRDT.fire 100 0 s with
  | Ok s => s
  | _ => sw_first_lost
  end.

(** A channel that corrupts a unit when the draw is below one half, and
    neither loses nor delays. *)
Definition corrupting_channel : UnreliableChannel := mkChannel 0 (1#2) 0 (1#2).

(** Stop-and-Wait after a [start] in which the channel corrupted the
    first unit; all later draws are above one half. *)
Definition sw_first_corrupted : StopAndWaitRDT.St :=
  mkState (StopAndWaitRDT.init corrupting_channel 10 1)
          (empty_world (draws [pass; drop] pass)).

Definition sw_corrupted_started : StopAndWaitRDT.St :=
  match StopAndWaitRDT.start 100 sw_first_corrupted with
  | Ok s => s
  | _ => sw_first_corrupted
  end.

(** Go-Back-N after a [start] in which every unit was lost, when the
    acknowledgment of sequence number 0 arrives (object 4 of the heap),
    and the state its handling leaves. *)
Definition gbn_ack_arrives : GoBackNRDT.St :=
  mkState (eng gbn_all_lost_started)
          (alloc (Packet.new 0 None ACK) (world gbn_all_lost_started)).2.

Definition gbn_ack_handled : GoBackNRDT.St :=
  match GoBackNRDT._ack_handler (GoBackNRDT.receive 100) 4 gbn_ack_arrives with
  | Ok s => s
  | _ => gbn_ack_arrives
  end.

(** A channel that delays every unit, by at most half a second. *)
Definition delaying_channel : UnreliableChannel := mkChannel 0 0 1 (1#2).

(** * Properties *)

(** ** Results and loops *)

Lemma bind_Ok {A B} (m : Result A) (k : A → Result B) b :
  m ≫= k = Ok b → ∃ a, m = Ok a ∧ k a = Ok b.
Proof. destruct m; simpl; [eauto | done | done]. Qed.

Lemma no_raise_bind {A B} (m : Result A) (k : A → Result B) :
  no_raise m → (∀ a, no_raise (k a)) → no_raise (m ≫= k).
Proof.
  intros Hm Hk e. destruct m as [a | e' |]; simpl.
  - apply Hk.
  - by destruct (Hm e').
  - done.
Qed.

Lemma for_each_preserves {A E} (R : relation (State E)) `{!Reflexive R, !Transitive R}
    (xs : list A) (body : A → State E → Result (State E)) :
  (∀ x, preserves R (body x)) → preserves R (for_each xs body).
Proof.
  intros Hb. induction xs as [| x xs IH]; intros s s' Hs; simpl in Hs.
  - by injection Hs as ->.
  - apply bind_Ok in Hs as (s1 & H1 & H2). etrans; [by eapply Hb | by apply IH].
Qed.

Lemma for_each_invariant {A E} (I : State E → Prop) (xs : list A)
    (body : A → State E → Result (State E)) :
  (∀ x (t t' : State E), x ∈ xs → I t → body x t = Ok t' → I t') →
  ∀ t t' : State E, I t → for_each xs body t = Ok t' → I t'.
Proof.
  induction xs as [| x xs IH]; intros Hb s s' Hs Hf; simpl in Hf.
  - by injection Hf as <-.
  - apply bind_Ok in Hf as (s1 & H1 & H2).
    eapply IH; [| | exact H2].
    + intros y t t' Hy. apply Hb. by right.
    + eapply Hb; [by left | exact Hs | exact H1].
Qed.

(** ** The world: heap, timers, output *)

Lemma deref_lookup w r p : heap w !! r = Some p → deref w r = p.
Proof. intros H. unfold deref. by rewrite list_lookup_total_alt, H. Qed.

Lemma deref_print l w r : deref (print l w) r = deref w r.
Proof. reflexivity. Qed.

Lemma deref_set_heap_snoc h p w : deref (set_heap (h ++ [p]) w) (length h) = p.
Proof.
  unfold deref. simpl.
  rewrite list_lookup_total_alt, lookup_app_r by done.
  by rewrite Nat.sub_diag.
Qed.

Lemma deref_alter_eq f w r :
  deref (set_heap (alter f r (heap w)) w) r
  = if decide (r < length (heap w))%nat then f (deref w r) else deref w r.
Proof.
  unfold deref. simpl. case_decide as Hr.
  - destruct (lookup_lt_is_Some_2 (heap w) r Hr) as [p Hp].
    rewrite !list_lookup_total_alt, list_lookup_alter_eq, Hp. done.
  - rewrite !list_lookup_total_alt, list_lookup_alter_eq.
    rewrite (lookup_ge_None_2 (heap w) r) by lia. done.
Qed.

Lemma heap_cancel h w : heap (cancel h w) = heap w.
Proof. unfold cancel. by destruct (threads w !! h) as [[? ? []] |]. Qed.

Lemma rng_cancel h w : rng (cancel h w) = rng w.
Proof. unfold cancel. by destruct (threads w !! h) as [[? ? []] |]. Qed.

Lemma rng_pos_cancel h w : rng_pos (cancel h w) = rng_pos w.
Proof. unfold cancel. by destruct (threads w !! h) as [[? ? []] |]. Qed.

Lemma stdout_cancel h w : stdout (cancel h w) = stdout w.
Proof. unfold cancel. by destruct (threads w !! h) as [[? ? []] |]. Qed.

Lemma threads_cancel_print h l w : threads (cancel h (print l w)) = threads (cancel h w).
Proof. unfold cancel. simpl. by destruct (threads w !! h) as [[? ? []] |]. Qed.

Lemma length_threads_cancel h w : length (threads (cancel h w)) = length (threads w).
Proof.
  unfold cancel. destruct (threads w !! h) as [[? ? []] |]; simpl; try done.
  by rewrite length_insert.
Qed.

Lemma threads_cancel_ne h h' w : h ≠ h' → threads (cancel h w) !! h' = threads w !! h'.
Proof.
  intros Hne. unfold cancel.
  destruct (threads w !! h) as [[? ? []] |]; simpl; try done.
  by rewrite list_lookup_insert_ne.
Qed.

Lemma cancel_not_armed h w t : threads (cancel h w) !! h = Some t → status t ≠ Armed.
Proof.
  unfold cancel. destruct (threads w !! h) as [[i act st] |] eqn:Hh; simpl.
  - destruct st; simpl; rewrite ?Hh; try (by intros [= <-]).
    rewrite list_lookup_insert_eq by (by eapply lookup_lt_Some).
    by intros [= <-].
  - by rewrite Hh.
Qed.

Lemma sent_units_print l w : is_sending l = false → sent_units (print l w) = sent_units w.
Proof.
  intros Hl. unfold sent_units. simpl. rewrite filter_app, length_app.
  rewrite filter_cons_False by (rewrite Hl; intros []). simpl. lia.
Qed.

Lemma sent_units_cancel h w : sent_units (cancel h w) = sent_units w.
Proof. unfold sent_units. by rewrite stdout_cancel. Qed.

(** ** Packets and their checksum *)

Section PacketFacts.

Lemma checksum_of_bounds sq pl ty : 0 ≤ Packet.checksum_of sq pl ty < 256.
Proof. unfold Packet.checksum_of. apply Z.mod_pos_bound. lia. Qed.

Lemma is_corrupt_false_iff p :
  Packet.is_corrupt p = false ↔ Packet.checksum p = Packet._compute_checksum p.
Proof.
  unfold Packet.is_corrupt. rewrite bool_decide_eq_false.
  split; [apply dec_stable | intros -> Hne; by apply Hne].
Qed.

Lemma is_corrupt_true_iff p :
  Packet.is_corrupt p = true ↔ Packet.checksum p ≠ Packet._compute_checksum p.
Proof. unfold Packet.is_corrupt. by rewrite bool_decide_eq_true. Qed.

Lemma new_not_corrupt sq pl ty : Packet.is_corrupt (Packet.new sq pl ty) = false.
Proof. by apply is_corrupt_false_iff. Qed.

Lemma compute_checksum_set_checksum c p :
  Packet._compute_checksum (Packet.set_checksum c p) = Packet._compute_checksum p.
Proof. reflexivity. Qed.

(** One corruption step of the channel on an intact packet is detected. *)
Lemma corrupt_packet_detected p :
  Packet.is_corrupt p = false → Packet.is_corrupt (corrupt_packet p) = true.
Proof.
  rewrite is_corrupt_false_iff, is_corrupt_true_iff. intros Hc.
  unfold corrupt_packet. rewrite compute_checksum_set_checksum. simpl.
  rewrite Hc. unfold Packet._compute_checksum.
  pose proof (checksum_of_bounds (Packet.seq p) (Packet.payload p) (Packet.type p)) as Hb.
  set (c := Packet.checksum_of _ _ _) in *.
  destruct (decide (c = 255)) as [-> | Hne]; [done |].
  rewrite Z.mod_small; lia.
Qed.

Lemma corrupt_packet_fields p :
  Packet.seq (corrupt_packet p) = Packet.seq p
  ∧ Packet.payload (corrupt_packet p) = Packet.payload p
  ∧ Packet.type (corrupt_packet p) = Packet.type p.
Proof. done. Qed.

Lemma corrupt_packet_iter_checksum k p :
  0 ≤ Packet.checksum p < 256 →
  Packet.checksum (Nat.iter k corrupt_packet p) = (Packet.checksum p + Z.of_nat k) `mod` 256.
Proof.
  intros Hb. induction k as [| k IH].
  - simpl. rewrite Z.add_0_r, Z.mod_small; lia.
  - rewrite Nat.iter_succ. unfold corrupt_packet at 1. simpl Packet.checksum.
    rewrite IH, Zplus_mod_idemp_l. f_equal. lia.
Qed.

Lemma corrupt_packet_iter_logical k p :
  logical (Nat.iter k corrupt_packet p) = logical p.
Proof. induction k as [| k IH]; [done |]. by rewrite Nat.iter_succ. Qed.

(** X15. The channel corrupts the object in place, so a unit that is
    retransmitted may be corrupted again: after [k] corruptions of a
    packet as constructed, [is_corrupt] reports it unless [k] is a
    multiple of 256. *)
Lemma corrupt_packet_iter_detected k sq pl ty :
  Packet.is_corrupt (Nat.iter k corrupt_packet (Packet.new sq pl ty))
  = negb (bool_decide (Z.of_nat k `mod` 256 = 0)).
Proof.
  pose proof (checksum_of_bounds sq pl ty) as Hb.
  pose proof (corrupt_packet_iter_logical k (Packet.new sq pl ty)) as Hl.
  unfold logical in Hl. injection Hl as Hs Hp Ht.
  unfold Packet.is_corrupt, Packet._compute_checksum. rewrite Hs, Hp, Ht.
  rewrite corrupt_packet_iter_checksum by done. simpl.
  set (c := Packet.checksum_of sq pl ty) in *.
  pose proof (Z.mod_pos_bound (Z.of_nat k) 256 ltac:(lia)) as Hk.
  rewrite <- (Zplus_mod_idemp_r (Z.of_nat k) c).
  set (m := Z.of_nat k `mod` 256) in *.
  destruct (decide (m = 0)) as [-> | Hne].
  - rewrite Z.add_0_r, Z.mod_small by lia.
    rewrite bool_decide_eq_false_2 by (intros H; by apply H).
    by rewrite bool_decide_eq_true_2.
  - rewrite (bool_decide_eq_false_2 (m = 0)) by done. simpl.
    apply bool_decide_eq_true_2.
    destruct (decide (c + m < 256)).
    + rewrite Z.mod_small; lia.
    + replace (c + m) with ((c + m - 256) + 1 * 256) by lia.
      rewrite Z_mod_plus_full, Z.mod_small; lia.
Qed.

End PacketFacts.

(** ** The channel *)

Section ChannelFacts.

Context {E : Type}.
Implicit Types (s : State E) (ch : UnreliableChannel).

Lemma Qltb_zero x y : (y == 0)%Q → (0 <= x)%Q → Qltb x y = false.
Proof.
  intros Hy Hx. unfold Qltb. apply negb_false_iff, Qle_bool_iff.
  by rewrite Hy.
Qed.

Lemma channel_effect_refl r w : channel_effect r w w.
Proof. by split. Qed.

Lemma channel_effect_corrupt r w :
  channel_effect r w (set_heap (alter corrupt_packet r (heap w)) w).
Proof.
  split.
  - simpl. by rewrite length_alter.
  - intros r' Hne. simpl. by rewrite list_lookup_alter_ne.
  - rewrite deref_alter_eq. by case_decide.
  - done.
Qed.

(** Drawing, printing and starting a thread do not touch the heap. *)
Lemma channel_effect_heap_eq r w w' w'' :
  channel_effect r w w' → heap w'' = heap w' → threads w' `prefix_of` threads w'' →
  channel_effect r w w''.
Proof.
  intros [H1 H2 H3 H4] Hh Ht. split.
  - by rewrite Hh.
  - intros r' Hne. rewrite Hh. by apply H2.
  - unfold deref in *. by rewrite Hh.
  - by etrans.
Qed.

(** The three outcomes of [transmit], with the world it leaves. *)
Lemma transmit_outcome ch r (recv : ref → State E → Result (State E)) s :
  ∃ w', channel_effect r (world s) w'
        ∧ (transmit ch r recv s = Ok (mkState (eng s) w')
           ∨ transmit ch r recv s = recv r (mkState (eng s) w')).
Proof.
  unfold transmit. simpl.
  destruct (Qltb _ (loss ch)).
  { eexists; split; [| left; reflexivity]. by split. }
  destruct (Qltb _ (corruption ch)); simpl;
    (destruct (Qltb _ (delay ch)); simpl;
     [ eexists; split; [| left; reflexivity]
     | eexists; split; [| right; reflexivity] ]).
  - eapply channel_effect_heap_eq; [apply (channel_effect_corrupt r (world s)) | done |].
    simpl. by apply prefix_app_r.
  - eapply channel_effect_heap_eq; [apply (channel_effect_corrupt r (world s)) | done | done].
  - eapply channel_effect_heap_eq; [apply channel_effect_refl | done |].
    simpl. by apply prefix_app_r.
  - eapply channel_effect_heap_eq; [apply channel_effect_refl | done | done].
Qed.

(** A channel with all probabilities at zero hands the packet to the
    callback at once, and touches nothing but the random generator. *)
Lemma transmit_lossless ch r (recv : ref → State E → Result (State E)) s :
  (loss ch == 0)%Q → (corruption ch == 0)%Q → (delay ch == 0)%Q →
  (∀ n, 0 <= rng (world s) n)%Q →
  transmit ch r recv s
  = recv r (mkState (eng s)
              (mkWorld (heap (world s)) (rng (world s)) (3 + rng_pos (world s))%nat
                       (threads (world s)) (stdout (world s)))).
Proof.
  intros Hl Hc Hd Hr. unfold transmit. simpl.
  rewrite (Qltb_zero _ _ Hl (Hr _)). simpl.
  rewrite (Qltb_zero _ _ Hc (Hr _)). simpl.
  rewrite (Qltb_zero _ _ Hd (Hr _)). reflexivity.
Qed.

End ChannelFacts.

(** Reasoning on a call of [transmit]: either the callback does not run
    and the call returns, or the result is the one of the callback. *)
Lemma transmit_elim {E} ch r (recv : ref → State E → Result (State E)) (s : State E)
    (Q : Result (State E) → Prop) :
  (∀ w', channel_effect r (world s) w' → Q (Ok (mkState (eng s) w'))) →
  (∀ w', channel_effect r (world s) w' → Q (recv r (mkState (eng s) w'))) →
  Q (transmit ch r recv s).
Proof.
  intros H1 H2.
  destruct (transmit_outcome ch r recv s) as (w' & Hce & [-> | ->]); auto.
Qed.

Lemma transmit_lossless_frame {E} ch r (recv : ref → State E → Result (State E)) s :
  lossless ch → (∀ n, 0 <= rng (world s) n)%Q →
  ∃ w', transmit ch r recv s = recv r (mkState (eng s) w')
        ∧ heap w' = heap (world s) ∧ rng w' = rng (world s)
        ∧ threads w' = threads (world s).
Proof.
  intros (Hl & Hc & Hd) Hr. rewrite transmit_lossless by done.
  eexists. split; [reflexivity |]. done.
Qed.

Lemma channel_effect_after_print r l w w' :
  channel_effect r (print l w) w' → channel_effect r w w'.
Proof. intros [H1 H2 H3 H4]. by split. Qed.

(** ** Integrity detection *)

(** C5. A packet as constructed is never reported corrupt; once its
    stored checksum differs from the one it was constructed with, and in
    particular after the corruption step of the channel (checksum + 1
    modulo 256), [is_corrupt] reports it. *)
Theorem integrity_detection sq pl ty c :
  c ≠ Packet.checksum (Packet.new sq pl ty) →
  Packet.is_corrupt (Packet.new sq pl ty) = false
  ∧ Packet.is_corrupt (Packet.set_checksum c (Packet.new sq pl ty)) = true
  ∧ Packet.is_corrupt (corrupt_packet (Packet.new sq pl ty)) = true.
Proof.
  intros Hc. split_and!.
  - apply new_not_corrupt.
  - apply is_corrupt_true_iff. by rewrite compute_checksum_set_checksum.
  - apply corrupt_packet_detected, new_not_corrupt.
Qed.

Lemma integrity_detection_witness :
  Packet.is_corrupt (Packet.new 0 (data_payload 0) DATA) = false
  ∧ Packet.is_corrupt (Packet.set_checksum 7 (Packet.new 0 (data_payload 0) DATA)) = true
  ∧ Packet.is_corrupt (corrupt_packet (Packet.new 0 (data_payload 0) DATA)) = true.
Proof. apply (integrity_detection 0 (data_payload 0) DATA 7). vm_compute. discriminate. Defined.

(** What the receiving side sees: when the channel corrupts an intact
    packet and delivers it at once, the callback runs on a heap in which
    the packet is reported corrupt. *)
Lemma transmit_corrupted_delivery {E} ch r (recv : ref → State E → Result (State E)) s p :
  heap (world s) !! r = Some p →
  Packet.is_corrupt p = false →
  Qltb (rng (world s) (rng_pos (world s))) (loss ch) = false →
  Qltb (rng (world s) (S (rng_pos (world s)))) (corruption ch) = true →
  Qltb (rng (world s) (S (S (rng_pos (world s))))) (delay ch) = false →
  ∃ w', transmit ch r recv s = recv r (mkState (eng s) w')
        ∧ deref w' r = corrupt_packet p
        ∧ Packet.is_corrupt (deref w' r) = true.
Proof.
  intros Hp Hint Hl Hc Hd. unfold transmit. simpl.
  rewrite Hl. simpl. rewrite Hc. simpl. rewrite Hd.
  eexists. split; [reflexivity |].
  match goal with |- ?d = _ ∧ _ => assert (d = corrupt_packet p) as -> end.
  { unfold deref. cbn [heap set_heap print].
    rewrite list_lookup_total_alt, list_lookup_alter_eq.
    cbn [heap]. by rewrite Hp. }
  split; [done | by apply corrupt_packet_detected].
Qed.

(** ** Frame of the channel *)

(** C9. Whatever the channel decides (drop, corrupt, delay, deliver), the
    heap it leaves has the same objects; all objects but the transmitted
    one are untouched, and the transmitted one keeps its sequence number,
    payload and type: only its stored checksum may differ. The engine
    fields are not touched, and the callback, if it runs, receives the
    very reference that was transmitted. *)
Theorem transmit_mutates_checksum_only {E} ch packet
    (receiver_callback : ref → State E → Result (State E)) (s : State E) :
  ∃ w',
    (transmit ch packet receiver_callback s = Ok (mkState (eng s) w')
     ∨ transmit ch packet receiver_callback s
       = receiver_callback packet (mkState (eng s) w'))
    ∧ length (heap w') = length (heap (world s))
    ∧ (∀ r, r ≠ packet → heap w' !! r = heap (world s) !! r)
    ∧ Packet.seq (deref w' packet) = Packet.seq (deref (world s) packet)
    ∧ Packet.payload (deref w' packet) = Packet.payload (deref (world s) packet)
    ∧ Packet.type (deref w' packet) = Packet.type (deref (world s) packet).
Proof.
  destruct (transmit_outcome ch packet receiver_callback s) as (w' & [H1 H2 H3] & Ho).
  exists w'. unfold logical in H3. split_and!; try done; congruence.
Qed.

(** ** The delivered buffer read in key order *)

Section SortedValues.

Implicit Types (m : gmap Z (option string)) (k : Z) (v : option string).

Lemma sorted_values_empty : sorted_values ∅ = [].
Proof. reflexivity. Qed.

Lemma sorted_keys_insert_max m k v :
  (∀ j, j ∈ dom m → j < k) →
  merge_sort Z.le (elements (dom (<[k := v]> m)))
  = merge_sort Z.le (elements (dom m)) ++ [k].
Proof.
  intros Hmax.
  assert (k ∉ dom m) as Hk by (intros Hin; apply Hmax in Hin; lia).
  apply (StronglySorted_unique Z.le).
  - apply StronglySorted_merge_sort; apply _.
  - apply StronglySorted_app_2.
    + intros x1 x2 Hx1 Hx2. apply list_elem_of_singleton in Hx2 as ->.
      rewrite merge_sort_Permutation, elem_of_elements in Hx1.
      apply Hmax in Hx1. lia.
    + apply StronglySorted_merge_sort; apply _.
    + repeat constructor.
  - rewrite !merge_sort_Permutation, dom_insert_L.
    rewrite elements_union_singleton by done.
    by rewrite Permutation_cons_append.
Qed.

(** Writing at a key above all keys appends to what [get_data] returns. *)
Lemma sorted_values_insert_max m k v :
  (∀ j, j ∈ dom m → j < k) →
  sorted_values (<[k := v]> m) = sorted_values m ++ [v].
Proof.
  intros Hmax. unfold sorted_values.
  rewrite sorted_keys_insert_max, fmap_app by done. simpl.
  rewrite lookup_total_insert_eq. f_equal.
  apply list_fmap_ext. intros i j Hj.
  apply lookup_total_insert_ne.
  apply list_elem_of_lookup_2 in Hj.
  rewrite merge_sort_Permutation, elem_of_elements in Hj.
  apply Hmax in Hj. lia.
Qed.

Lemma expected_payloads_succ k : 0 ≤ k →
  expected_payloads (k + 1) = expected_payloads k ++ [data_payload k].
Proof.
  intros Hk. unfold expected_payloads.
  rewrite seqZ_app by lia. rewrite fmap_app. simpl. f_equal.
Qed.

End SortedValues.

(** ** Stop-and-Wait: the handlers *)

Section StopAndWaitHandlers.

Import StopAndWaitRDT.
Implicit Types (s : St) (self_receive : Receive).

(** C6. The receiver of Stop-and-Wait on a DATA packet: in each of the
    three cases exactly one new ACK object is created and handed to the
    channel. Corrupt packet: the ACK carries the complement of the
    expected bit and the engine is unchanged. Expected sequence number:
    the payload is stored at key [received_count] (appended to what
    [get_data] returns when the keys are the earlier counts), the count is
    incremented, the expected bit is flipped and the ACK carries the
    accepted sequence number. Any other sequence number: the ACK carries
    the packet's own sequence number and the engine is unchanged. *)
Theorem sw_receiver_three_way self_receive packet s :
  let p := deref (world s) packet in
  let e := eng s in
  ∃ (e' : Engine) (w' : World),
    let ack := length (heap (world s)) in
    _receiver self_receive packet s
      = transmit (channel e) ack self_receive (mkState e' w')
    ∧ heap w' = heap (world s) ++ [deref w' ack]
    ∧ threads w' = threads (world s)
    ∧ if Packet.is_corrupt p then
        deref w' ack = Packet.new (1 - seq_num e) None ACK
        ∧ e' = e
      else if bool_decide (Packet.seq p = seq_num e) then
        deref w' ack = Packet.new (Packet.seq p) None ACK
        ∧ e' = set_seq_num (1 - seq_num e)
                 (set_received_count (received_count e + 1)
                    (set_buffer (<[received_count e := Packet.payload p]> (buffer e)) e))
        ∧ ((∀ j, j ∈ dom (buffer e) → j < received_count e) →
           get_data e' = get_data e ++ [Packet.payload p])
      else
        deref w' ack = Packet.new (Packet.seq p) None ACK
        ∧ e' = e.
Proof.
  intros p e. subst p e. unfold _receiver, with_world. cbn [eng world].
  change (deref (print (ReceiverReceived (deref (world s) packet)) (world s)) packet)
    with (deref (world s) packet).
  destruct (Packet.is_corrupt (deref (world s) packet)) eqn:Hc.
  - eexists _, _. split; [reflexivity |].
    simpl. rewrite !deref_set_heap_snoc. by destruct s as [[] ?].
  - case_bool_decide as Hseq.
    + eexists _, _. split; [reflexivity |].
      simpl. rewrite !deref_set_heap_snoc. split_and!; try done.
      intros Hmax. unfold get_data. simpl.
      by apply sorted_values_insert_max.
    + eexists _, _. split; [reflexivity |].
      simpl. rewrite !deref_set_heap_snoc. by destruct s as [[] ?].
Qed.

(** C7. The ACK handler of Stop-and-Wait with a pending unit. A corrupt
    ACK and an ACK for another sequence number leave the engine and the
    timers as they are (only output is printed); an ACK for the pending
    sequence number cancels the retransmission timer, clears
    [self.timer], increments [sent_count] and calls [send]. *)
Theorem sw_ack_handler_cases self_receive ack s r :
  pending_packet (eng s) = Some r →
  let a := deref (world s) ack in
  if Packet.is_corrupt a then
    ∃ out, _ack_handler self_receive ack s
           = Ok (mkState (eng s)
                   (mkWorld (heap (world s)) (rng (world s)) (rng_pos (world s))
                            (threads (world s)) (stdout (world s) ++ out)))
  else if bool_decide (Packet.seq a = Packet.seq (deref (world s) r)) then
    ∃ s', _ack_handler self_receive ack s = send self_receive s'
      ∧ eng s' = set_sent_count (sent_count (eng s) + 1) (set_timer None (eng s))
      ∧ heap (world s') = heap (world s)
      ∧ rng_pos (world s') = rng_pos (world s)
      ∧ threads (world s')
        = match timer (eng s) with
          | Some h => threads (cancel h (world s))
          | None => threads (world s)
          end
      ∧ (∀ h t, timer (eng s) = Some h →
                threads (world s') !! h = Some t → status t ≠ Armed)
  else
    ∃ out, _ack_handler self_receive ack s
           = Ok (mkState (eng s)
                   (mkWorld (heap (world s)) (rng (world s)) (rng_pos (world s))
                            (threads (world s)) (stdout (world s) ++ out))).
Proof.
  intros Hp a. subst a. unfold _ack_handler, with_world. cbn [eng world].
  change (deref (print (SenderAckReceived (deref (world s) ack)) (world s)) ack)
    with (deref (world s) ack).
  destruct (Packet.is_corrupt (deref (world s) ack)) eqn:Hc.
  - exists [SenderAckReceived (deref (world s) ack); SenderAckCorrupt].
    unfold print. simpl. by rewrite <- app_assoc.
  - rewrite Hp.
    change (deref (print (SenderAckReceived (deref (world s) ack)) (world s)) r)
      with (deref (world s) r).
    case_bool_decide as Hseq.
    + eexists. split; [reflexivity |].
      unfold _stop_timer. cbn [eng world].
      destruct (timer (eng s)) as [h |] eqn:Ht; cbn [eng world].
      * split_and!.
        -- done.
        -- simpl. by rewrite heap_cancel.
        -- simpl. by rewrite rng_pos_cancel.
        -- simpl. by rewrite threads_cancel_print.
        -- intros h' t [= <-]. simpl. rewrite threads_cancel_print.
           apply cancel_not_armed.
      * split_and!; try done.
        destruct s as [[] ?]. simpl in *. by subst.
    + exists [SenderAckReceived (deref (world s) ack)]. done.
Qed.

(** The theorem at an engine that waits for the acknowledgment of unit
    0 and receives it intact. *)
Lemma sw_ack_handler_cases_witness :
  pending_packet (eng sw_awaiting_ack) = Some 0%nat
  ∧ ∃ s', _ack_handler (receive 0) 1 sw_awaiting_ack = send (receive 0) s'
          ∧ eng s' = set_sent_count 1 (set_timer None (eng sw_awaiting_ack)).
Proof.
  split; [reflexivity |].
  pose proof (sw_ack_handler_cases (receive 0) 1 sw_awaiting_ack 0%nat eq_refl) as H.
  cbv zeta in H.
  assert (Packet.is_corrupt (deref (world sw_awaiting_ack) 1) = false) as Hc
    by reflexivity.
  rewrite Hc in H.
  rewrite bool_decide_eq_true_2 in H by reflexivity.
  destruct H as (s' & H1 & H2 & _).
  exists s'. split; [exact H1 | exact H2].
Defined.

End StopAndWaitHandlers.

(** ** Stop-and-Wait: an ACK before the first send *)

Section StopAndWaitAckBeforeSend.

Import StopAndWaitRDT.
Implicit Types (s : St) (self_receive : Receive).

Lemma sw_send_no_raise self_receive s :
  (∀ r s', pending_packet (eng s') ≠ None → no_raise (self_receive r s')) →
  no_raise (send self_receive s).
Proof.
  intros Hrecv. unfold send. case_bool_decide; [done |].
  simpl. apply no_raise_bind; [| done].
  apply transmit_elim; intros w' _; [done |].
  by apply Hrecv.
Qed.

Lemma sw_receive_no_raise fuel packet s :
  pending_packet (eng s) ≠ None → no_raise (receive fuel packet s).
Proof.
  revert packet s. induction fuel as [| fuel IH]; intros packet s Hp; [done |].
  simpl. destruct (Packet.type (deref (world s) packet)).
  - unfold _receiver, with_world. cbn [eng world].
    destruct (Packet.is_corrupt _); [| case_bool_decide]; cbn [alloc];
      (apply transmit_elim; intros w' _; [done | by apply IH]).
  - unfold _ack_handler, with_world. cbn [eng world].
    destruct (Packet.is_corrupt _); [done |].
    destruct (pending_packet (eng s)) as [r |] eqn:Hr; [| done].
    case_bool_decide; [| done].
    apply sw_send_no_raise. intros. by apply IH.
Qed.

(** C10. A freshly constructed Stop-and-Wait engine that is handed an
    intact ACK through [receive] fails with [AttributeError]: the handler
    reads [self.pending_packet.seq] while [pending_packet] is [None].
    Once [pending_packet] is set, which only the body of [send] does, no
    call of [receive] raises. *)
Theorem sw_ack_before_send ch total tmo w fuel ack p :
  heap w !! ack = Some p →
  Packet.type p = ACK →
  Packet.is_corrupt p = false →
  receive (S fuel) ack (mkState (init ch total tmo) w) = Raise AttributeError
  ∧ (∀ s fuel' packet e,
       pending_packet (eng s) ≠ None → receive fuel' packet s ≠ Raise e).
Proof.
  intros Hp Hty Hc. split.
  - assert (deref w ack = p) as Hd.
    { unfold deref. by rewrite list_lookup_total_alt, Hp. }
    simpl. rewrite Hd, Hty. unfold _ack_handler, with_world. cbn [eng world].
    change (deref (print (SenderAckReceived (deref w ack)) w) ack) with (deref w ack).
    by rewrite Hd, Hc.
  - intros s fuel' packet e Hs. by apply sw_receive_no_raise.
Qed.

(** The theorem at a fresh engine and an intact acknowledgment. *)
Lemma sw_ack_before_send_witness :
  heap ack_only_world !! 0%nat = Some (Packet.new 0 None ACK)
  ∧ Packet.type (Packet.new 0 None ACK) = ACK
  ∧ Packet.is_corrupt (Packet.new 0 None ACK) = false
  ∧ receive 1 0 (mkState (init lossless_channel 10 1) ack_only_world)
    = Raise AttributeError.
Proof.
  split_and!; [reflexivity | reflexivity | reflexivity |].
  exact (proj1 (sw_ack_before_send lossless_channel 10 1 ack_only_world 0 0%nat
                  (Packet.new 0 None ACK) eq_refl eq_refl eq_refl)).
Defined.

(** Calling [send] is not enough when there is nothing to send: with a
    total of zero, [start] returns without setting [pending_packet], and
    the acknowledgment still fails. *)
Lemma sw_ack_after_empty_start :
  (s ← start 1 (mkState (init lossless_channel 0 1) ack_only_world); receive 1 0 s)
  = Raise AttributeError.
Proof. reflexivity. Qed.

End StopAndWaitAckBeforeSend.

(** ** The windowed engines on concrete runs *)

(** C1. On a channel that never loses, corrupts or delays, with the
    defaults of [main.py] (ten units, window of four): Stop-and-Wait
    delivers the ten payloads in order. Go-Back-N delivers the first four
    during [start] while ignoring their acknowledgments (they arrive
    before [seq_num] is advanced), and the first timeout then makes it
    send sequence numbers 4 to 7 with the payloads 1 to 4 again, which the
    receiver accepts: duplicates in the delivered data; the forty timers
    that fire next change nothing, the sender stays at one
    acknowledgment. Selective Repeat
    reuses sequence number 0 for every unit, the receiver accepts only
    the first, and the sender counts ten acknowledgments: one payload
    delivered when the transfer is complete. *)
Theorem lossless_delivery_by_engine :
  observe (λ s, (StopAndWaitRDT.get_data (eng s), StopAndWaitRDT.sent_count (eng s)))
          (StopAndWaitRDT.start 100 sw_lossless)
  = Ok (expected_payloads 10, 10)
  ∧ observe (λ s, (GoBackNRDT.get_data (eng s), GoBackNRDT.sent_count (eng s)))
            (GoBackNRDT.start 100 gbn_lossless)
    = Ok (expected_payloads 4, 0)
  ∧ observe (λ s, (GoBackNRDT.get_data (eng s), GoBackNRDT.sent_count (eng s)))
            (s ← GoBackNRDT.start 100 gbn_lossless; GoBackNRDT.fire 100 0 s)
    = Ok (data_payload <$> [0; 1; 2; 3; 1; 2; 3; 4], 1)
  ∧ observe (λ s, (GoBackNRDT.get_data (eng s), GoBackNRDT.sent_count (eng s)))
            (s ← GoBackNRDT.start 100 gbn_lossless;
             for_each (seq 0 40) (GoBackNRDT.fire 100) s)
    = Ok (data_payload <$> [0; 1; 2; 3; 1; 2; 3; 4], 1)
  ∧ observe (λ s, (SelectiveRepeatRDT.get_data (eng s),
                   SelectiveRepeatRDT.sent_count (eng s),
                   SelectiveRepeatRDT.total_packets (eng s)))
            (SelectiveRepeatRDT.start 100 sr_lossless)
    = Ok (expected_payloads 1, 10, 10)
  ∧ observe (λ s, bool_decide (GoBackNRDT.get_data (eng s) = expected_payloads 10))
            (s ← GoBackNRDT.start 100 gbn_lossless;
             for_each (seq 0 40) (GoBackNRDT.fire 100) s)
    = Ok false
  ∧ observe (λ s, bool_decide (SelectiveRepeatRDT.get_data (eng s) = expected_payloads 10))
            (SelectiveRepeatRDT.start 100 sr_lossless)
    = Ok false.
Proof. split_and!; vm_compute; reflexivity. Qed.

(** C2. Units sent and not acknowledged exceed the window of four.
    Go-Back-N: the first window is lost; the timeout retransmits unit 0,
    its acknowledgment is accepted and [send] pushes four new units while
    units 1 to 3 are still waiting: eight units sent, one acknowledged,
    seven timers in [self.timer], eight entries in [pending_packets].
    Selective Repeat: during [start] the first acknowledgment makes
    [send] push a full batch inside the running batch: eight units sent,
    one acknowledged. *)
Theorem window_bound_exceeded :
  observe (λ s, (GoBackNRDT.window_size (eng s),
                 sent_units (world s), verified_acks (world s),
                 size (GoBackNRDT.timer (eng s)),
                 length (GoBackNRDT.pending_packets (eng s))))
          (s ← GoBackNRDT.start 100 gbn_first_window_lost; GoBackNRDT.fire 100 0 s)
  = Ok (4, 8%nat, 1%nat, 7%nat, 8%nat)
  ∧ observe (λ s, (SelectiveRepeatRDT.window_size (eng s),
                   sent_units (world s), verified_acks (world s),
                   size (SelectiveRepeatRDT.timer (eng s)),
                   size (SelectiveRepeatRDT.pending_packets (eng s))))
            (SelectiveRepeatRDT.start 100 sr_first_unit_through)
    = Ok (4, 8%nat, 1%nat, 8%nat, 7%nat).
Proof. split_and!; vm_compute; reflexivity. Qed.

(** C3. Selective Repeat and a duplicate acknowledgment. After [start]
    the acknowledgment of sequence number 0 (object 1 of the heap) has
    been accepted and the sender is at sequence number 8. Delivering the
    same acknowledgment again is accepted again: [sent_count] goes from 1
    to 2, [send] runs, four more units are sent and [seq_num] moves to
    12. *)
Theorem sr_duplicate_ack_triggers_send :
  observe (λ s, (deref (world s) 1,
                 filter is_verified (stdout (world s)),
                 SelectiveRepeatRDT.seq_num (eng s),
                 SelectiveRepeatRDT.sent_count (eng s),
                 sent_units (world s)))
          (SelectiveRepeatRDT.start 100 sr_first_unit_through)
  = Ok (Packet.new 0 None ACK, [SenderAckVerified 0], 8, 1, 8%nat)
  ∧ observe (λ s, (filter is_verified (stdout (world s)),
                   SelectiveRepeatRDT.seq_num (eng s),
                   SelectiveRepeatRDT.sent_count (eng s),
                   sent_units (world s)))
            (s ← SelectiveRepeatRDT.start 100 sr_first_unit_through;
             SelectiveRepeatRDT.receive 100 1 s)
    = Ok ([SenderAckVerified 0; SenderAckVerified 0], 12, 2, 12%nat).
Proof. split_and!; vm_compute; reflexivity. Qed.

(** C4. Go-Back-N, three units in a window of four, all lost. After
    [start] three units wait for their acknowledgment. The timeout of
    unit 0 loops over [range(4, min(8, 3))], which is empty: the handler
    prints its line and returns, nothing is retransmitted and no timer is
    armed. With ten units the loop runs over 4 to 7: the first four
    units are retransmitted, and the timers are armed under the keys 4 to
    7, which no unit has. *)
Theorem gbn_timeout_misses_window :
  (∃ s1, GoBackNRDT.start 100 gbn_short_all_lost = Ok s1
         ∧ length (GoBackNRDT.pending_packets (eng s1)) = 3%nat
         ∧ verified_acks (world s1) = 0%nat
         ∧ GoBackNRDT.fire 100 0 s1
           = Ok (mkState (eng s1) (print (SenderTimeout 0) (mark_fired 0 (world s1)))))
  ∧ observe (λ s, (sent_units (world s),
                   merge_sort Z.le (elements (dom (GoBackNRDT.timer (eng s))))))
            (s ← GoBackNRDT.start 100 gbn_all_lost; GoBackNRDT.fire 100 0 s)
    = Ok (4%nat, [0; 1; 2; 3; 4; 5; 6; 7]).
Proof.
  split.
  - eexists. split; [vm_compute; reflexivity |].
    split_and!; vm_compute; reflexivity.
  - vm_compute; reflexivity.
Qed.

(** ** Stop-and-Wait on a lossless channel *)

Section StopAndWaitLossless.

Import StopAndWaitRDT.

Lemma sw_send_step self_receive s :
  sent_count (eng s) < total_packets (eng s) →
  lossless (channel (eng s)) → (∀ n, 0 <= rng (world s) n)%Q →
  ∃ w1, send self_receive s
        = (s2 ← self_receive (length (heap (world s)))
                 (mkState (set_pending_packet (Some (length (heap (world s)))) (eng s)) w1);
           Ok (_start_timer s2))
        ∧ heap w1 = heap (world s)
                    ++ [Packet.new (seq_num (eng s)) (data_payload (sent_count (eng s))) DATA]
        ∧ rng w1 = rng (world s).
Proof.
  intros Hlt Hch Hr. unfold send. rewrite bool_decide_eq_false_2 by lia.
  cbn [alloc].
  match goal with |- context [transmit ?c ?r ?f ?st] =>
    destruct (transmit_lossless_frame c r f st) as (w' & -> & Hh & Hg & _); [done.. |]
  end.
  exists w'. done.
Qed.

Lemma sw_receive_data fuel packet s p :
  lossless (channel (eng s)) → (∀ n, 0 <= rng (world s) n)%Q →
  heap (world s) !! packet = Some p →
  Packet.type p = DATA → Packet.is_corrupt p = false →
  Packet.seq p = seq_num (eng s) →
  ∃ w2, receive (S fuel) packet s
        = receive fuel (length (heap (world s)))
            (mkState
               (set_seq_num (1 - seq_num (eng s))
                  (set_received_count (received_count (eng s) + 1)
                     (set_buffer (<[received_count (eng s) := Packet.payload p]>
                                    (buffer (eng s))) (eng s))))
               w2)
        ∧ heap w2 = heap (world s) ++ [Packet.new (Packet.seq p) None ACK]
        ∧ rng w2 = rng (world s).
Proof.
  intros Hch Hr Hp Hty Hc Hseq. cbn [receive].
  rewrite (deref_lookup _ _ _ Hp), Hty.
  unfold _receiver, with_world. cbn [eng world].
  rewrite !deref_print, (deref_lookup _ _ _ Hp), Hc.
  rewrite bool_decide_eq_true_2 by done. cbn [alloc].
  match goal with |- context [transmit ?c ?r ?f ?st] =>
    destruct (transmit_lossless_frame c r f st) as (w' & -> & Hh & Hg & _); [done.. |]
  end.
  exists w'. done.
Qed.

Lemma sw_receive_ack fuel ack s a r p :
  heap (world s) !! ack = Some a →
  Packet.type a = ACK → Packet.is_corrupt a = false →
  pending_packet (eng s) = Some r →
  heap (world s) !! r = Some p →
  Packet.seq a = Packet.seq p →
  ∃ w3, receive (S fuel) ack s
        = send (receive fuel)
            (mkState (set_sent_count (sent_count (eng s) + 1) (set_timer None (eng s))) w3)
        ∧ heap w3 = heap (world s)
        ∧ rng w3 = rng (world s).
Proof.
  intros Ha Hty Hc Hpend Hp Hseq. cbn [receive].
  rewrite (deref_lookup _ _ _ Ha), Hty.
  unfold _ack_handler, with_world. cbn [eng world].
  rewrite !deref_print, (deref_lookup _ _ _ Ha), Hc, Hpend.
  rewrite !deref_print, (deref_lookup _ _ _ Hp).
  rewrite bool_decide_eq_true_2 by done.
  unfold _stop_timer. cbn [eng world].
  destruct (timer (eng s)) as [h |] eqn:Ht; cbn [eng world].
  - eexists. split; [reflexivity |]. simpl. by rewrite heap_cancel, rng_cancel.
  - destruct s as [[] w]. simpl in *. subst. eexists. split; [reflexivity | done].
Qed.

Lemma sw_start_timer_eng s :
  get_data (eng (_start_timer s)) = get_data (eng s)
  ∧ running (eng (_start_timer s)) = running (eng s)
  ∧ sent_count (eng (_start_timer s)) = sent_count (eng s).
Proof. done. Qed.

Lemma sw_send_lossless N n : ∀ k s fuel,
  sw_inv N k s → Z.of_nat n = Z.max 0 (N - k) → (2 * n ≤ fuel)%nat →
  ∃ s', send (receive fuel) s = Ok s'
        ∧ get_data (eng s') = expected_payloads (Z.max N k)
        ∧ sent_count (eng s') = Z.max N k
        ∧ running (eng s') = false.
Proof.
  induction n as [| n IH]; intros k s fuel [Ht Hs Hr Hd Hk Hch Hg H0] Hn Hf.
  - unfold send. rewrite bool_decide_eq_true_2 by lia.
    eexists. split; [reflexivity |]. simpl. split_and!; [| lia | done].
    replace (N `max` k) with k by lia. by rewrite <- Hd.
  - destruct (sw_send_step (receive fuel) s) as (w1 & -> & Hh1 & Hg1); [lia | done.. |].
    destruct fuel as [| fuel]; [lia |].
    set (r := length (heap (world s))) in *.
    set (P := Packet.new (seq_num (eng s)) (data_payload (sent_count (eng s))) DATA) in *.
    set (e1 := set_pending_packet (Some r) (eng s)).
    assert (heap w1 !! r = Some P) as Hr1.
    { rewrite Hh1. by rewrite lookup_app_r, Nat.sub_diag by done. }
    assert (∀ m, (0 <= rng w1 m)%Q) as Hg1' by (intros m; by rewrite Hg1).
    destruct (sw_receive_data fuel r (mkState e1 w1) P Hch Hg1' Hr1 eq_refl
                (new_not_corrupt _ _ _) eq_refl)
      as (w2 & -> & Hh2 & Hg2).
    cbn [eng world] in *.
    destruct fuel as [| fuel]; [lia |].
    set (e2 := set_seq_num _ _).
    set (A := Packet.new (Packet.seq P) None ACK) in *.
    assert (heap w2 !! length (heap w1) = Some A) as Ha2.
    { rewrite Hh2. by rewrite lookup_app_r, Nat.sub_diag by done. }
    assert (heap w2 !! r = Some P) as Hr2.
    { rewrite Hh2. rewrite lookup_app_l; [done |]. by eapply lookup_lt_Some. }
    destruct (sw_receive_ack fuel (length (heap w1)) (mkState e2 w2) A r P
                Ha2 eq_refl (new_not_corrupt _ _ _) eq_refl Hr2 eq_refl)
      as (w3 & -> & Hh3 & Hg3).
    cbn [eng world] in *.
    set (e3 := set_sent_count _ _).
    destruct (IH (k + 1) (mkState e3 w3) fuel) as (s' & Hs' & Hd' & Hsc' & Hrun').
    { split; cbn [eng world]; simpl; try done; try lia.
      - unfold get_data in *. simpl.
        rewrite sorted_values_insert_max by (by rewrite Hr).
        rewrite Hd. by rewrite expected_payloads_succ, Hs.
      - intros j. rewrite dom_insert_L, elem_of_union, elem_of_singleton.
        intros [-> | Hj]; [lia |]. apply Hk in Hj. lia.
      - intros m. by rewrite Hg3, Hg2, Hg1. }
    { lia. }
    { lia. }
    rewrite Hs'. eexists. split; [reflexivity |].
    destruct (sw_start_timer_eng s') as (-> & -> & ->).
    rewrite Hd'. split_and!; [f_equal; lia | lia | done].
Qed.

(** X1. Stop-and-Wait on a channel that never loses, corrupts or delays:
    for every number of units, [start] returns (with fuel for two calls of
    [receive] per unit: the calls nest, and the fuel is the only bound on
    the nesting here), the delivered data are the payloads sent, in
    order, [sent_count] has reached the total and the engine has
    stopped. *)
Theorem sw_lossless_delivery ch N tmo g fuel :
  lossless ch → (∀ n, 0 <= g n)%Q → 0 ≤ N → (2 * Z.to_nat N ≤ fuel)%nat →
  ∃ s', start fuel (mkState (init ch N tmo) (empty_world g)) = Ok s'
        ∧ get_data (eng s') = expected_payloads N
        ∧ sent_count (eng s') = N
        ∧ running (eng s') = false.
Proof.
  intros Hch Hg HN Hf. unfold start.
  destruct (sw_send_lossless N (Z.to_nat N) 0
              (with_eng (set_running true) (mkState (init ch N tmo) (empty_world g))) fuel)
    as (s' & Hs' & Hd' & Hsc' & Hrun'); [| lia | lia |].
  { by split. }
  exists s'. rewrite Z.max_l in * by lia. done.
Qed.

End StopAndWaitLossless.

(** ** Selective Repeat: the timeout handler *)

Section SelectiveRepeatTimeout.

Import SelectiveRepeatRDT.
Implicit Types (s : St) (self_receive : Receive).

(** What arming the timer of [sq] touches: the entry of [sq] in
    [self.timer] and one new thread. *)
Lemma sr_start_timer_frame sq s :
  eng (_start_timer sq s)
  = set_timer (<[sq := length (threads (world s))]> (timer (eng s))) (eng s)
  ∧ threads (world (_start_timer sq s))
    = threads (world s) ++ [mkTimer (timeout (eng s)) (OnTimeout [sq]) Armed]
  ∧ heap (world (_start_timer sq s)) = heap (world s)
  ∧ rng_pos (world (_start_timer sq s)) = rng_pos (world s)
  ∧ stdout (world (_start_timer sq s)) = stdout (world s).
Proof. done. Qed.

(** The timeout handler, step by step, for any [self.receive]: it hands
    the object tracked under [sq], and nothing else, to the channel,
    which may change the stored checksum of that object only; then it
    arms one new timer for [sq]. When the channel loses or delays the
    unit the handler is done after that; when the channel delivers at
    once, it goes on from the state in which [self.receive] returns. *)
Lemma sr_on_timeout_steps self_receive sq s r :
  pending_packets (eng s) !! sq = Some r →
  ∃ w1,
    channel_effect r (world s) w1
    ∧ (_on_timeout self_receive sq s = Ok (_start_timer sq (mkState (eng s) w1))
       ∨ _on_timeout self_receive sq s
         = (s1 ← self_receive r (mkState (eng s) w1); Ok (_start_timer sq s1))).
Proof.
  intros Hr. unfold _on_timeout, with_world. cbn [eng world]. rewrite Hr.
  destruct (transmit_outcome (channel (eng s)) r self_receive
              (mkState (eng s) (print (SenderTimeout sq) (world s))))
    as (w1 & Hce & Ho).
  exists w1. split.
  - by eapply channel_effect_after_print.
  - destruct Ho as [-> | ->]; [by left | by right].
Qed.

End SelectiveRepeatTimeout.

(** ** Go-Back-N: a duplicate acknowledgment *)

Section GoBackNDuplicateAck.
Import GoBackNRDT.
Implicit Types (s : St) (self_receive : Receive).

#[local] Ltac solve_mono := split; simpl; intros; first [done | lia].

#[local] Instance gbn_mono_refl : Reflexive gbn_mono.
Proof. intros s. by split. Qed.

#[local] Instance gbn_mono_trans : Transitive gbn_mono.
Proof. intros s1 s2 s3 [H1 H2 H3 H4] [H5 H6 H7 H8]. split; try congruence; [| lia].
  intros HW. rewrite H1 in H7. specialize (H3 HW). specialize (H7 HW). lia. Qed.

Lemma gbn_mono_eng s s' : eng s' = eng s → gbn_mono s s'.
Proof. intros H. split; rewrite H; done. Qed.

Lemma gbn_transmit_mono ch r self_receive :
  (∀ r', preserves gbn_mono (self_receive r')) →
  preserves gbn_mono (transmit ch r self_receive).
Proof.
  intros Hrecv s. apply transmit_elim.
  - intros w' _ s' [= <-]. by apply gbn_mono_eng.
  - intros w' _ s' Hs'. apply Hrecv in Hs'. etrans; [| exact Hs']. by apply gbn_mono_eng.
Qed.

Lemma gbn_start_timer_mono sq s : gbn_mono s (_start_timer sq s).
Proof. solve_mono. Qed.

Lemma gbn_stop_timer_mono sq s : gbn_mono s (_stop_timer sq s).
Proof. unfold _stop_timer. destruct (timer (eng s) !! sq); solve_mono. Qed.

Lemma gbn_send_loop_mono self_receive (xs : list Z) :
  (∀ r', preserves gbn_mono (self_receive r')) →
  preserves gbn_mono
    (for_each xs
       (λ i s,
          if bool_decide (sent_count (eng s) + i < total_packets (eng s)) then
            let '(r, w) :=
              alloc (Packet.new (seq_num (eng s) + i)
                                (data_payload (sent_count (eng s) + i)) DATA)
                    (world s) in
            let e1 := set_pending_packets (pending_packets (eng s) ++ [r]) (eng s) in
            let s1 := mkState e1 (print (SenderSending (deref w r)) w) in
            s2 ← transmit (channel e1) r self_receive s1;
            Ok (_start_timer (seq_num (eng s2) + i) s2)
          else Ok s)).
Proof.
  intros Hrecv. apply for_each_preserves; try apply _.
  intros i s s'. case_bool_decide; [| by intros [= <-]].
  cbn [alloc]. intros Hs. apply bind_Ok in Hs as (s2 & H2 & [= <-]).
  apply gbn_transmit_mono in H2; [| done].
  etrans; [| apply gbn_start_timer_mono]. etrans; [| exact H2]. solve_mono.
Qed.

Lemma gbn_send_mono self_receive :
  (∀ r', preserves gbn_mono (self_receive r')) →
  preserves gbn_mono (send self_receive).
Proof.
  intros Hrecv s s'. unfold send. case_bool_decide.
  - intros [= <-]. solve_mono.
  - intros Hs. apply bind_Ok in Hs as (s1 & H1 & [= <-]).
    apply gbn_send_loop_mono in H1 as [H1 H2 H3 H4]; [| done].
    split; simpl; try done. intros HW. specialize (H3 HW). lia.
Qed.

(** A call of [send] that has units left to send moves [seq_num] forward
    by a whole window at least. *)
Lemma gbn_send_advances self_receive s s' :
  (∀ r', preserves gbn_mono (self_receive r')) →
  send self_receive s = Ok s' →
  sent_count (eng s) < total_packets (eng s) →
  0 ≤ window_size (eng s) →
  seq_num (eng s) + window_size (eng s) ≤ seq_num (eng s').
Proof.
  intros Hrecv Hs Hlt HW. unfold send in Hs.
  rewrite bool_decide_eq_false_2 in Hs by lia.
  apply bind_Ok in Hs as (s1 & H1 & [= <-]).
  apply gbn_send_loop_mono in H1 as [H1 H2 H3 H4]; [| done].
  simpl. specialize (H3 HW). lia.
Qed.

Lemma gbn_receiver_mono self_receive packet :
  (∀ r', preserves gbn_mono (self_receive r')) →
  preserves gbn_mono (_receiver self_receive packet).
Proof.
  intros Hrecv s s'. unfold _receiver, with_world. cbn [eng world].
  destruct (Packet.is_corrupt _); [| case_bool_decide]; cbn [alloc];
    intros Hs; apply gbn_transmit_mono in Hs; try done;
    (etrans; [| exact Hs]); solve_mono.
Qed.

Lemma gbn_ack_handler_mono self_receive ack :
  (∀ r', preserves gbn_mono (self_receive r')) →
  preserves gbn_mono (_ack_handler self_receive ack).
Proof.
  intros Hrecv s s'. unfold _ack_handler, with_world. cbn [eng world].
  destruct (Packet.is_corrupt _); [by intros [= <-] |].
  destruct (_ && _); [| by intros [= <-]].
  set (s3 := with_eng _ _).
  assert (gbn_mono s s3) as H3.
  { subst s3. unfold _stop_timer. cbn [eng world].
    destruct (timer (eng s) !! _); solve_mono. }
  case_bool_decide.
  - intros Hs. apply gbn_send_mono in Hs; [| done]. by etrans.
  - by intros [= <-].
Qed.

Lemma gbn_receive_mono fuel packet : preserves gbn_mono (receive fuel packet).
Proof.
  revert packet. induction fuel as [| fuel IH]; intros packet s s' Hs; [done |].
  simpl in Hs. destruct (Packet.type _).
  - by eapply gbn_receiver_mono.
  - by eapply gbn_ack_handler_mono.
Qed.

Lemma gbn_on_timeout_mono self_receive sq :
  (∀ r', preserves gbn_mono (self_receive r')) →
  preserves gbn_mono (_on_timeout self_receive sq).
Proof.
  intros Hrecv s s'. unfold _on_timeout, with_world. cbn [eng world].
  intros Hs. etrans; [| eapply (for_each_preserves gbn_mono); [| exact Hs]].
  - solve_mono.
  - intros i s1 s2 H. apply bind_Ok in H as (r & _ & H).
    apply bind_Ok in H as (s3 & H3 & [= <-]).
    apply gbn_transmit_mono in H3; [| done].
    etrans; [exact H3 | apply gbn_start_timer_mono].
Qed.

(** Every event of a run (a timer that fires, a delivery) keeps the
    configuration and never moves [seq_num] or [sent_count] backward. *)
Lemma gbn_fire_mono fuel h : preserves gbn_mono (fire fuel h).
Proof.
  intros s s'. unfold fire.
  destruct (threads (world s) !! h) as [[i a []] |]; try (by intros [= <-]).
  destruct a as [[| sq []] | packet]; try (by intros [= <-]).
  - intros Hs. apply gbn_on_timeout_mono in Hs; [| intros r'; apply gbn_receive_mono].
    etrans; [| exact Hs]. solve_mono.
  - intros Hs. apply gbn_receive_mono in Hs. etrans; [| exact Hs]. solve_mono.
Qed.

(** X9. Go-Back-N ignores a duplicate acknowledgment. Let a valid ACK for a
    sequence number of the window be handled in state [s], leaving [s'],
    and let [t] be [s'] or any later state of the run. In [t] a valid ACK
    for the same sequence number does not move [seq_num] and does not
    call [send]: no packet object is created, no unit is sent and no
    timer thread is started, whatever [self.receive] would do. *)
Theorem gbn_duplicate_ack_ignored fuel ack s s' t ack2 self_receive :
  0 ≤ window_size (eng s) →
  Packet.is_corrupt (deref (world s) ack) = false →
  seq_num (eng s) - window_size (eng s) ≤ Packet.seq (deref (world s) ack)
    < seq_num (eng s) →
  _ack_handler (receive fuel) ack s = Ok s' →
  gbn_mono s' t →
  Packet.is_corrupt (deref (world t) ack2) = false →
  Packet.seq (deref (world t) ack2) = Packet.seq (deref (world s) ack) →
  ∃ t', _ack_handler self_receive ack2 t = Ok t'
        ∧ seq_num (eng t') = seq_num (eng t)
        ∧ heap (world t') = heap (world t)
        ∧ length (threads (world t')) = length (threads (world t))
        ∧ sent_units (world t') = sent_units (world t).
Proof.
  intros HW Hc Hwin Hs [Ht1 Ht2 Ht3 Ht4] Hc2 Hseq2.
  assert (gbn_mono s s') as [Hm1 Hm2 Hm3 Hm4].
  { eapply gbn_ack_handler_mono; [| exact Hs]. intros r'. apply gbn_receive_mono. }
  (* what the first acknowledgment did *)
  unfold _ack_handler, with_world in Hs. cbn [eng world] in Hs.
  rewrite !deref_print, Hc in Hs.
  rewrite !bool_decide_eq_true_2 in Hs by lia. cbn [andb] in Hs.
  set (s3 := with_eng _ _) in Hs.
  assert (sent_count (eng s3) = sent_count (eng s) + 1
          ∧ total_packets (eng s3) = total_packets (eng s)
          ∧ seq_num (eng s3) = seq_num (eng s)
          ∧ window_size (eng s3) = window_size (eng s)) as (Hs3 & Ht3' & Hq3 & Hw3).
  { subst s3. unfold _stop_timer. cbn [eng world].
    by destruct (timer (eng s) !! _). }
  clearbody s3.
  (* the second one *)
  unfold _ack_handler, with_world. cbn [eng world].
  rewrite !deref_print, Hc2.
  case_bool_decide as Hlt.
  - (* [send] ran: the window is past the sequence number *)
    apply gbn_send_advances in Hs; [| intros r'; apply gbn_receive_mono | done | lia].
    rewrite bool_decide_eq_false_2 by lia. cbn [andb].
    eexists. split; [reflexivity |]. unfold with_eng. cbn [eng world].
    by rewrite sent_units_print.
  - (* all units were acknowledged: no [send] any more *)
    injection Hs as <-.
    destruct (bool_decide _ && bool_decide _) eqn:Hin; cbn [andb].
    + rewrite bool_decide_eq_false_2.
      2:{ unfold _stop_timer. cbn [eng world].
          destruct (timer (eng t) !! _); simpl; lia. }
      eexists. split; [reflexivity |].
      unfold _stop_timer, with_eng. cbn [eng world].
      destruct (timer (eng t) !! _); cbn [eng world].
      * rewrite !sent_units_print, sent_units_cancel, !sent_units_print by done.
        split_and!; try done; simpl.
        -- by rewrite heap_cancel.
        -- by rewrite length_threads_cancel.
      * by rewrite !sent_units_print.
    + eexists. split; [reflexivity |]. unfold with_eng. cbn [eng world].
      by rewrite sent_units_print.
Qed.

End GoBackNDuplicateAck.

(** ** Selective Repeat: what the timeout handler leaves alone *)

Section SelectiveRepeatFrame.
Import SelectiveRepeatRDT.

Variables (sq : Z) (r : ref) (s0 : St).
Hypothesis Hwf : sr_wf s0.
Hypothesis Htracked : pending_packets (eng s0) !! sq = Some r.

Implicit Types (s : St) (self_receive : Receive).

Let F := sr_frame sq r s0.
Let chain_seq := sr_chain_seq sq s0.
Let chain_ref := sr_chain_ref r s0.
Let keeps_frame := sr_keeps_frame sq r s0.

Lemma sq_bounds : 0 ≤ sq < seq_num (eng s0) ∧ (r < length (heap (world s0)))%nat
                  ∧ Packet.seq (deref (world s0) r) = sq.
Proof. by apply (wf_pending _ Hwf). Qed.

Lemma sr_frame_refl : F s0.
Proof.
  pose proof sq_bounds as (Hb & Hr & Hs).
  split; try done.
  - intros k [r' Hk]. by apply (wf_pending _ Hwf) in Hk as [[? ?] _].
  - intros k h Hk Hh. apply (wf_timer _ Hwf) in Hh. lia.
  - intros h Hh. by right.
Qed.

(** Fields the frame does not speak about. *)
Lemma sr_frame_ext s s' :
  F s →
  window_size (eng s') = window_size (eng s) →
  seq_num (eng s') = seq_num (eng s) →
  pending_packets (eng s') = pending_packets (eng s) →
  timer (eng s') = timer (eng s) →
  heap (world s') = heap (world s) →
  threads (world s') = threads (world s) →
  F s'.
Proof.
  intros [] Hw Hq Hp Ht Hh Hth.
  split; unfold deref in *; rewrite ?Hw, ?Hq, ?Hp, ?Ht, ?Hh, ?Hth; done.
Qed.

(** A new packet object. *)
Lemma sr_frame_alloc s s' p :
  F s →
  heap (world s') = heap (world s) ++ [p] →
  window_size (eng s') = window_size (eng s) →
  seq_num (eng s') = seq_num (eng s) →
  pending_packets (eng s') = pending_packets (eng s) →
  timer (eng s') = timer (eng s) →
  threads (world s') = threads (world s) →
  F s'.
Proof.
  pose proof sq_bounds as (Hb & Hr & Hs).
  intros [] Hh Hw Hq Hp Ht Hth.
  split; unfold deref in *; rewrite ?Hw, ?Hq, ?Hp, ?Ht, ?Hh, ?Hth; try done.
  - rewrite length_app. lia.
  - intros x Hx Hne. rewrite lookup_app_l by lia. auto.
  - rewrite list_lookup_total_alt, lookup_app_l by lia.
    by rewrite <- list_lookup_total_alt.
Qed.

(** A unit tracked under a sequence number handed out during the call. *)
Lemma sr_frame_track s s' k x :
  F s →
  seq_num (eng s0) ≤ k →
  pending_packets (eng s') = <[k := x]> (pending_packets (eng s)) →
  window_size (eng s') = window_size (eng s) →
  seq_num (eng s') = seq_num (eng s) →
  timer (eng s') = timer (eng s) →
  heap (world s') = heap (world s) →
  threads (world s') = threads (world s) →
  F s'.
Proof.
  pose proof sq_bounds as (Hb & Hr & Hs).
  intros [] Hk Hp Hw Hq Ht Hh Hth.
  split; unfold deref in *; rewrite ?Hw, ?Hq, ?Hp, ?Ht, ?Hh, ?Hth; try done.
  - intros k' Hk' Hne. rewrite lookup_insert_ne by lia. auto.
  - intros k'. rewrite lookup_insert. case_decide; [lia | auto].
Qed.

(** The channel, given an object of the call. *)
Lemma sr_frame_channel s p w' :
  F s → chain_ref p → channel_effect p (world s) w' → F (mkState (eng s) w').
Proof.
  pose proof sq_bounds as (Hb & Hr & Hs).
  intros [? ? ? ? ? ? ? Hlen Hold Hunit Hthl Htho] Hp [Hl Ho Hc Ht].
  split; cbn [eng world]; try done.
  - lia.
  - intros x Hx Hne. rewrite Ho; [auto |]. destruct Hp as [-> | Hp]; [done | lia].
  - destruct (decide (p = r)) as [-> | Hne]; [congruence |].
    unfold deref in *. by rewrite !list_lookup_total_alt, Ho, <- !list_lookup_total_alt.
  - apply prefix_length in Ht. lia.
  - intros h Hh Hne. rewrite <- Htho by done.
    destruct Ht as [new ->]. rewrite lookup_app_l; [done | lia].
Qed.

(** Arming a timer for the sequence number of the call or a new one. *)
Lemma sr_frame_start_timer q s :
  F s → q = sq ∨ seq_num (eng s0) ≤ q → F (_start_timer q s).
Proof.
  pose proof sq_bounds as (Hb & Hr & Hs).
  intros [] Hq. split; cbn; try done.
  - intros k Hk Hne. rewrite lookup_insert_ne by lia. auto.
  - intros k h Hk. rewrite lookup_insert. case_decide; [intros [= <-]; lia | eauto].
  - intros h. rewrite lookup_insert. case_decide; [intros [= <-]; left; lia | eauto].
  - rewrite length_app. lia.
  - intros h Hh Hne. rewrite lookup_app_l by lia. auto.
Qed.

(** Stopping the timer of the sequence number of the call or of a new
    one. *)
Lemma sr_frame_stop_timer q s :
  F s → q = sq ∨ seq_num (eng s0) ≤ q → F (_stop_timer q s).
Proof.
  pose proof sq_bounds as (Hb & Hr & Hs).
  intros HF Hq. unfold _stop_timer.
  destruct (timer (eng s) !! q) as [h |] eqn:Hh; [| done].
  destruct HF as [? ? ? ? ? Hnew Hsq ? ? ? ? ?].
  split; cbn [eng world set_timer seq_num window_size pending_packets timer];
    rewrite ?heap_cancel, ?length_threads_cancel; try done.
  - intros k Hk Hne. rewrite lookup_delete_ne by lia. auto.
  - intros k h'. rewrite lookup_delete. case_decide; [done | eauto].
  - intros h'. rewrite lookup_delete. case_decide; [done | eauto].
  - unfold deref in *. by rewrite heap_cancel.
  - intros h' Hh' Hne. rewrite threads_cancel_ne; [auto |].
    intros ->. destruct Hq as [-> | Hq].
    + apply Hsq in Hh as [? | ?]; [lia | done].
    + apply Hnew in Hh; [lia | done].
Qed.

(** The window slides forward. *)
Lemma sr_frame_advance s s' :
  F s →
  seq_num (eng s') = seq_num (eng s) + window_size (eng s) →
  window_size (eng s') = window_size (eng s) →
  pending_packets (eng s') = pending_packets (eng s) →
  timer (eng s') = timer (eng s) →
  heap (world s') = heap (world s) →
  threads (world s') = threads (world s) →
  F s'.
Proof.
  pose proof (wf_window _ Hwf) as HW.
  intros [] Hq Hw Hp Ht Hh Hth.
  split; unfold deref in *; rewrite ?Hw, ?Hq, ?Hp, ?Ht, ?Hh, ?Hth; try done.
  lia.
Qed.

Lemma sr_transmit_frame self_receive ch p s s' :
  keeps_frame self_receive →
  F s → chain_ref p → chain_seq (Packet.seq (deref (world s) p)) →
  transmit ch p self_receive s = Ok s' → F s'.
Proof.
  intros Hrecv HF Hp Hq. revert s'. apply transmit_elim.
  - intros w' Hce s' [= <-]. by apply (sr_frame_channel s p).
  - intros w' Hce s' Hs'. eapply Hrecv; [| exact Hp | | exact Hs'].
    + by apply (sr_frame_channel s p).
    + cbn [world]. destruct Hce as [_ _ Hc _]. unfold logical in Hc.
      by injection Hc as -> _ _.
Qed.

Lemma sr_send_frame self_receive s s' :
  keeps_frame self_receive → F s → send self_receive s = Ok s' → F s'.
Proof.
  intros Hrecv HF. unfold send. case_bool_decide.
  { intros [= <-]. by eapply sr_frame_ext. }
  intros Hs. apply bind_Ok in Hs as (s1 & H1 & [= <-]).
  eapply sr_frame_advance; [| reflexivity..].
  revert H1. apply for_each_invariant; [| exact HF].
  intros i t t2 Hi Ht.
  apply elem_of_seqZ in Hi.
  case_bool_decide; [| by intros [= <-]].
  cbn [alloc]. intros Hs. apply bind_Ok in Hs as (t3 & H3 & [= <-]).
  set (P := Packet.new _ _ _) in H3.
  set (t1 := mkState _ _) in H3.
  assert (F t1) as Ht1.
  { eapply (sr_frame_track (mkState (eng t) (set_heap (heap (world t) ++ [P]) (world t))));
      [| | reflexivity..].
    - by eapply (sr_frame_alloc t); [| reflexivity..].
    - destruct Ht. lia. }
  assert (F t3) as Ht3.
  { revert H3. apply sr_transmit_frame; [done | done | |].
    - right. by destruct Ht.
    - subst t1. cbn [eng world]. rewrite deref_print, deref_set_heap_snoc.
      right; left. subst P. cbn. destruct Ht. lia. }
  apply sr_frame_start_timer; [done |].
  right. destruct Ht3. lia.
Qed.

Lemma sr_receiver_frame self_receive p s s' :
  keeps_frame self_receive →
  F s → chain_seq (Packet.seq (deref (world s) p)) →
  _receiver self_receive p s = Ok s' → F s'.
Proof.
  pose proof sq_bounds as (Hb & Hr & Hs).
  intros Hrecv HF Hq. unfold _receiver, with_world. cbn [eng world].
  rewrite !deref_print.
  assert (chain_seq (1 - seq_num (eng s))) as Hcompl.
  { destruct HF as [_ Hseq _ _ _ _ _ _ _ _ _ _]. unfold chain_seq, sr_chain_seq. lia. }
  assert (chain_ref (length (heap (world s)))) as Hnew.
  { right. by destruct HF. }
  destruct (Packet.is_corrupt _); [| case_bool_decide]; cbn [alloc];
    apply sr_transmit_frame; try done;
    try (eapply (sr_frame_alloc s); [done | reflexivity ..]);
    cbn [eng world]; by rewrite deref_set_heap_snoc.
Qed.

Lemma sr_ack_handler_frame self_receive a s s' :
  keeps_frame self_receive →
  F s → chain_seq (Packet.seq (deref (world s) a)) →
  _ack_handler self_receive a s = Ok s' → F s'.
Proof.
  pose proof sq_bounds as (Hb & Hr & Hs).
  intros Hrecv HF Hq. unfold _ack_handler, with_world. cbn [eng world].
  rewrite !deref_print.
  destruct (Packet.is_corrupt _).
  { intros [= <-]. by eapply sr_frame_ext. }
  case_bool_decide as Hin; [| intros [= <-]; by eapply sr_frame_ext].
  set (q := Packet.seq (deref (world s) a)) in *.
  assert (q = sq ∨ seq_num (eng s0) ≤ q) as Hq'.
  { destruct HF as [_ _ _ _ Hnn _ _ _ _ _ _ _]. apply Hnn in Hin.
    destruct Hq as [? | [? | ?]]; [by left | by right | lia]. }
  set (s3 := with_eng _ _).
  assert (F s3) as H3.
  { subst s3.
    eapply (sr_frame_ext (_stop_timer q (mkState (eng s) (print (SenderAckReceived (deref (world s) a)) (world s)))));
      [| reflexivity..].
    apply sr_frame_stop_timer; [| done]. by eapply sr_frame_ext. }
  case_bool_decide.
  - by apply sr_send_frame.
  - by intros [= <-].
Qed.

Lemma sr_receive_frame fuel : keeps_frame (receive fuel).
Proof.
  induction fuel as [| fuel IH]; intros p s s' HF Hp Hq Hs; [done |].
  simpl in Hs. destruct (Packet.type _).
  - by eapply sr_receiver_frame.
  - by eapply sr_ack_handler_frame.
Qed.

(** The timeout handler with the real [self.receive], also when the
    channel delivers the retransmission at once and the acknowledgment
    comes back inside the call. *)
Lemma sr_on_timeout_frame fuel s' :
  _on_timeout (receive fuel) sq s0 = Ok s' → F s'.
Proof.
  pose proof sq_bounds as (Hb & Hr & Hs).
  unfold _on_timeout, with_world. cbn [eng world]. rewrite Htracked.
  intros H. apply bind_Ok in H as (s1 & H1 & [= <-]).
  apply sr_frame_start_timer; [| by left].
  revert H1. apply sr_transmit_frame.
  - apply sr_receive_frame.
  - eapply sr_frame_ext; [apply sr_frame_refl | reflexivity..].
  - by left.
  - cbn [world]. rewrite deref_print. by left.
Qed.

End SelectiveRepeatFrame.

(** With the real receive path: in a quiescent state that tracks
    sequence number [sq], the timeout handler for [sq] leaves every other
    tracked unit, every other entry of [self.timer], every other packet
    object and every timer thread but the one registered for [sq] as
    they were, and the retransmitted unit keeps its sequence number,
    payload and type. *)
Theorem sr_timeout_leaves_others fuel sq r s s' :
  sr_wf s →
  SelectiveRepeatRDT.pending_packets (eng s) !! sq = Some r →
  SelectiveRepeatRDT._on_timeout (SelectiveRepeatRDT.receive fuel) sq s = Ok s' →
  (∀ k, k ≠ sq → is_Some (SelectiveRepeatRDT.pending_packets (eng s) !! k) →
        SelectiveRepeatRDT.pending_packets (eng s') !! k
        = SelectiveRepeatRDT.pending_packets (eng s) !! k)
  ∧ (∀ k, k ≠ sq → is_Some (SelectiveRepeatRDT.timer (eng s) !! k) →
          SelectiveRepeatRDT.timer (eng s') !! k = SelectiveRepeatRDT.timer (eng s) !! k)
  ∧ (∀ x, x ≠ r → is_Some (heap (world s) !! x) →
          heap (world s') !! x = heap (world s) !! x)
  ∧ (∀ h, SelectiveRepeatRDT.timer (eng s) !! sq ≠ Some h →
          is_Some (threads (world s) !! h) →
          threads (world s') !! h = threads (world s) !! h)
  ∧ logical (deref (world s') r) = logical (deref (world s) r).
Proof.
  intros Hwf Hr Hs'.
  destruct (sr_on_timeout_frame sq r s Hwf Hr fuel s' Hs')
    as [_ _ Hp Ht _ _ _ _ Hh Hu _ Hth].
  split_and!; try done.
  - intros k Hne [x Hk]. apply Hp; [| done].
    by apply (wf_pending _ Hwf) in Hk as [[? ?] _].
  - intros k Hne [h Hk]. apply Ht; [| done]. by apply (wf_timer _ Hwf) in Hk.
  - intros x Hne Hx. apply Hh; [| done]. by apply lookup_lt_is_Some.
  - intros h Hne Hh'. apply Hth; [| done]. by apply lookup_lt_is_Some.
Qed.

(** ** Selective Repeat: the invariant of a run *)

Section SelectiveRepeatInvariant.
Import SelectiveRepeatRDT.
Implicit Types (s : St) (self_receive : Receive).

Variables w b : Z.
Hypothesis Hw : 0 ≤ w.
Hypothesis Hb : 0 ≤ b.

Lemma sr_inv_mono c c' s : c ≤ c' → sr_inv w b c s → sr_inv w b c' s.
Proof.
  intros Hc [H1 H2 H3 H4]. split; try done.
  - intros k r Hk. apply H3 in Hk. lia.
  - intros k h Hk. apply H4 in Hk. lia.
Qed.

Lemma sr_inv_ext c s s' :
  sr_inv w b c s →
  window_size (eng s') = window_size (eng s) →
  seq_num (eng s') = seq_num (eng s) →
  pending_packets (eng s') = pending_packets (eng s) →
  timer (eng s') = timer (eng s) →
  heap (world s') = heap (world s) →
  sr_inv w b c s'.
Proof.
  intros [] Hwi Hq Hp Ht Hh.
  split; unfold deref in *; rewrite ?Hwi, ?Hq, ?Hp, ?Ht, ?Hh; done.
Qed.

(** A new packet object, tracked or not. *)
Lemma sr_inv_alloc c s s' p :
  sr_inv w b c s →
  heap (world s') = heap (world s) ++ [p] →
  window_size (eng s') = window_size (eng s) →
  seq_num (eng s') = seq_num (eng s) →
  pending_packets (eng s') = pending_packets (eng s) →
  timer (eng s') = timer (eng s) →
  sr_inv w b c s'.
Proof.
  intros [H1 H2 H3 H4] Hh Hwi Hq Hp Ht.
  split; rewrite ?Hwi, ?Hq, ?Hp, ?Ht; try done.
  intros k r Hk. apply H3 in Hk as (? & ? & Hs). split; [lia | split].
  - rewrite Hh, length_app. lia.
  - unfold deref in *. rewrite Hh.
    by rewrite list_lookup_total_alt, lookup_app_l, <- list_lookup_total_alt.
Qed.

Lemma sr_inv_track c s s' k x :
  sr_inv w b c s →
  0 ≤ k < seq_num (eng s) + c →
  (x < length (heap (world s)))%nat →
  Packet.seq (deref (world s) x) = k →
  pending_packets (eng s') = <[k := x]> (pending_packets (eng s)) →
  window_size (eng s') = window_size (eng s) →
  seq_num (eng s') = seq_num (eng s) →
  timer (eng s') = timer (eng s) →
  heap (world s') = heap (world s) →
  sr_inv w b c s'.
Proof.
  intros [H1 H2 H3 H4] Hk Hx Hs Hp Hwi Hq Ht Hh.
  split; unfold deref in *; rewrite ?Hwi, ?Hq, ?Hp, ?Ht, ?Hh; try done.
  intros k' r. rewrite lookup_insert. case_decide; [| by apply H3].
  intros [= <-]. by subst.
Qed.

Lemma sr_inv_channel c s p w' :
  sr_inv w b c s → channel_effect p (world s) w' → sr_inv w b c (mkState (eng s) w').
Proof.
  intros [H1 H2 H3 H4] [Hl Ho Hc Ht]. split; cbn [eng world]; try done.
  intros k r Hk. apply H3 in Hk as (? & ? & Hs). split; [lia | split; [lia |]].
  destruct (decide (r = p)) as [-> | Hne].
  - unfold logical in Hc. injection Hc as -> _ _. done.
  - unfold deref in *. by rewrite list_lookup_total_alt, Ho, <- list_lookup_total_alt.
Qed.

Lemma sr_inv_start_timer c q s :
  sr_inv w b c s → q < seq_num (eng s) + c → sr_inv w b c (_start_timer q s).
Proof.
  intros [H1 H2 H3 H4] Hq. split; cbn; try done.
  intros k h. rewrite lookup_insert. case_decide; [intros _; lia | by apply H4].
Qed.

Lemma sr_inv_stop_timer c q s : sr_inv w b c s → sr_inv w b c (_stop_timer q s).
Proof.
  intros [H1 H2 H3 H4]. unfold _stop_timer.
  destruct (timer (eng s) !! q) as [h |]; [| done].
  split; cbn [eng world set_timer seq_num window_size pending_packets timer];
    rewrite ?heap_cancel; try done.
  - intros k r Hk. apply H3 in Hk. unfold deref in *. by rewrite heap_cancel.
  - intros k h'. rewrite lookup_delete. case_decide; [done | by apply H4].
Qed.

Lemma sr_inv_advance c s s' :
  sr_inv w b c s →
  seq_num (eng s') = seq_num (eng s) + window_size (eng s) →
  window_size (eng s') = window_size (eng s) →
  pending_packets (eng s') = pending_packets (eng s) →
  timer (eng s') = timer (eng s) →
  heap (world s') = heap (world s) →
  sr_inv w b (Z.max 0 (c - w)) s'.
Proof.
  intros [H1 H2 H3 H4] Hq Hwi Hp Ht Hh.
  split; unfold deref in *; rewrite ?Hwi, ?Hq, ?Hp, ?Ht, ?Hh, ?H1; try done.
  - lia.
  - intros k r Hk. apply H3 in Hk. lia.
  - intros k h Hk. apply H4 in Hk. lia.
Qed.

Lemma sr_transmit_inv self_receive ch c p s s' :
  sr_keeps_inv w b self_receive → 0 ≤ c →
  sr_inv w b c s → transmit ch p self_receive s = Ok s' → sr_inv w b c s'.
Proof.
  intros Hrecv Hc HI. revert s'. apply transmit_elim.
  - intros w' Hce s' [= <-]. by apply (sr_inv_channel c s p).
  - intros w' Hce s' Hs'. eapply Hrecv; [done | | exact Hs'].
    by apply (sr_inv_channel c s p).
Qed.

Lemma sr_send_inv self_receive c s s' :
  sr_keeps_inv w b self_receive → 0 ≤ c →
  sr_inv w b c s → send self_receive s = Ok s' →
  ∃ c', 0 ≤ c' ≤ c ∧ sr_inv w b c' s'.
Proof.
  intros Hrecv Hc HI. unfold send. case_bool_decide.
  { intros [= <-]. exists c. split; [lia |]. by eapply sr_inv_ext. }
  intros Hs. apply bind_Ok in Hs as (s1 & H1 & [= <-]).
  exists (Z.max 0 (Z.max c w - w)). split; [lia |].
  eapply sr_inv_advance; [| reflexivity..].
  revert H1. apply for_each_invariant; [| by eapply sr_inv_mono; [| exact HI]; lia].
  intros i t t2 Hi Ht.
  apply elem_of_seqZ in Hi. rewrite (ji_window _ _ _ _ HI) in Hi.
  case_bool_decide; [| by intros [= <-]].
  cbn [alloc]. intros Hs. apply bind_Ok in Hs as (t3 & H3 & [= <-]).
  set (P := Packet.new _ _ _) in H3.
  set (t1 := mkState _ _) in H3.
  assert (sr_inv w b (Z.max c w) t1) as Ht1.
  { eapply (sr_inv_track _ (mkState (eng t) (set_heap (heap (world t) ++ [P]) (world t)))
              _ (seq_num (eng t) + i) (length (heap (world t))));
      [| | | | reflexivity..].
    - by eapply (sr_inv_alloc _ t); [| reflexivity..].
    - cbn. destruct Ht. lia.
    - cbn. rewrite length_app. simpl. lia.
    - cbn [world]. by rewrite deref_set_heap_snoc. }
  assert (sr_inv w b (Z.max c w) t3) as Ht3.
  { revert H3. apply sr_transmit_inv; [done | lia | done]. }
  apply sr_inv_start_timer; [done | lia].
Qed.

Lemma sr_receiver_inv self_receive c p s s' :
  sr_keeps_inv w b self_receive → 0 ≤ c →
  sr_inv w b c s → _receiver self_receive p s = Ok s' → sr_inv w b c s'.
Proof.
  intros Hrecv Hc HI. unfold _receiver, with_world. cbn [eng world].
  destruct (Packet.is_corrupt _); [| case_bool_decide]; cbn [alloc];
    apply sr_transmit_inv; try done.
  all: eapply (sr_inv_alloc c s); [done | reflexivity ..].
Qed.

Lemma sr_ack_handler_inv self_receive c a s s' :
  sr_keeps_inv w b self_receive → 0 ≤ c →
  sr_inv w b c s → _ack_handler self_receive a s = Ok s' → sr_inv w b c s'.
Proof.
  intros Hrecv Hc HI. unfold _ack_handler, with_world. cbn [eng world].
  rewrite !deref_print.
  destruct (Packet.is_corrupt _).
  { intros [= <-]. by eapply sr_inv_ext. }
  case_bool_decide as Hin; [| intros [= <-]; by eapply sr_inv_ext].
  set (q := Packet.seq (deref (world s) a)) in *.
  set (sp := mkState (eng s) (print (SenderAckReceived (deref (world s) a)) (world s))).
  set (s3 := with_eng _ _).
  assert (sr_inv w b c s3) as H3.
  { subst s3.
    eapply (sr_inv_ext c (_stop_timer q sp)); [| reflexivity..].
    apply sr_inv_stop_timer. by eapply sr_inv_ext. }
  case_bool_decide.
  - intros Hs. eapply sr_send_inv in Hs as (c' & Hc' & Hs); [| done | exact Hc | done].
    eapply sr_inv_mono; [| exact Hs]. lia.
  - by intros [= <-].
Qed.

Lemma sr_receive_inv fuel : sr_keeps_inv w b (receive fuel).
Proof.
  induction fuel as [| fuel IH]; intros c p s s' Hc HI Hs; [done |].
  simpl in Hs. destruct (Packet.type _).
  - by eapply sr_receiver_inv.
  - by eapply sr_ack_handler_inv.
Qed.

End SelectiveRepeatInvariant.

Section SelectiveRepeatReachable.
Import SelectiveRepeatRDT.
Implicit Types (s : St).

Lemma sr_inv_lower w b b' c s : b' ≤ b → sr_inv w b c s → sr_inv w b' c s.
Proof. intros Hb [H1 H2 H3 H4]. split; try done. lia. Qed.

Lemma sr_on_timeout_inv w fuel q s s' :
  0 ≤ w →
  sr_inv w 0 0 s → _on_timeout (receive fuel) q s = Ok s' → sr_inv w 0 0 s'.
Proof.
  intros Hw HI. unfold _on_timeout, with_world. cbn [eng world].
  destruct (pending_packets (eng s) !! q) as [r |] eqn:Hq; [| done].
  intros H. apply bind_Ok in H as (s1 & H1 & [= <-]).
  pose proof (ji_seq _ _ _ _ HI) as Hseq.
  assert (sr_inv w (seq_num (eng s)) 0 s1) as HI1.
  { revert H1. apply sr_transmit_inv; [by apply sr_receive_inv | done |].
    destruct HI as [H1 H2 H3 H4]. by split. }
  apply sr_inv_start_timer.
  - by apply (sr_inv_lower w (seq_num (eng s))).
  - apply (ji_pending _ _ _ _ HI) in Hq as [[? ?] _].
    pose proof (ji_seq _ _ _ _ HI1). lia.
Qed.

Lemma sr_inv_wf w s : 0 ≤ w → sr_inv w 0 0 s → sr_wf s.
Proof.
  intros Hw [H1 H2 H3 H4]. split.
  - by rewrite H1.
  - intros k r Hk. apply H3 in Hk. by rewrite Z.add_0_r in Hk.
  - intros k h Hk. apply H4 in Hk. by rewrite Z.add_0_r in Hk.
Qed.

Lemma sr_send_inv_quiescent w fuel s s' :
  0 ≤ w → sr_inv w 0 0 s → send (receive fuel) s = Ok s' → sr_inv w 0 0 s'.
Proof.
  intros Hw HI Hs.
  eapply (sr_send_inv w 0) in Hs as (c' & Hc' & Hs);
    [| done | done | by apply sr_receive_inv | | exact HI]; [| done].
  by replace c' with 0 in Hs by lia.
Qed.

(** Every state of a run satisfies the invariant with no slack. *)
Lemma sr_reachable_inv s :
  sr_reachable s → ∃ w, 0 ≤ w ∧ sr_inv w 0 0 s.
Proof.
  induction 1 as [ch total window tmo g Hwin
                 | fuel s s' _ (w & Hw & HI) Hs
                 | fuel s s' _ (w & Hw & HI) Hs
                 | fuel packet s s' _ (w & Hw & HI) Hs
                 | fuel h s s' _ (w & Hw & HI) Hs].
  - exists window. split; [done |]. by split.
  - exists w. split; [done |]. unfold start in Hs.
    eapply sr_send_inv_quiescent; [done | | exact Hs]. by eapply sr_inv_ext.
  - exists w. split; [done |]. by eapply sr_send_inv_quiescent.
  - exists w. split; [done |]. by eapply (sr_receive_inv w 0 Hw (Z.le_refl 0)).
  - exists w. split; [done |]. unfold fire in Hs.
    destruct (threads (world s) !! h) as [[i a []] |]; try (by injection Hs as <-).
    destruct a as [[| q []] | packet]; try (injection Hs as <-; by eapply sr_inv_ext).
    + eapply sr_on_timeout_inv; [done | | exact Hs]. by eapply sr_inv_ext.
    + eapply (sr_receive_inv w 0 Hw (Z.le_refl 0)); [| | exact Hs]; [done |].
      by eapply sr_inv_ext.
Qed.

(** Between two events of a run the state is quiescent. *)
Theorem sr_reachable_wf s : sr_reachable s → sr_wf s.
Proof. intros (w & Hw & HI)%sr_reachable_inv. by eapply sr_inv_wf. Qed.

(** In every state of a run: the timeout of a tracked sequence number
    leaves the other tracked units, the other timers and the other
    packet objects untouched, also when the retransmission is delivered
    and acknowledged inside the call. *)
Theorem sr_timeout_selective_in_runs fuel sq r s s' :
  sr_reachable s →
  pending_packets (eng s) !! sq = Some r →
  _on_timeout (receive fuel) sq s = Ok s' →
  Packet.seq (deref (world s) r) = sq
  ∧ (∀ k, k ≠ sq → is_Some (pending_packets (eng s) !! k) →
          pending_packets (eng s') !! k = pending_packets (eng s) !! k)
  ∧ (∀ k, k ≠ sq → is_Some (timer (eng s) !! k) →
          timer (eng s') !! k = timer (eng s) !! k)
  ∧ (∀ x, x ≠ r → is_Some (heap (world s) !! x) →
          heap (world s') !! x = heap (world s) !! x)
  ∧ (∀ h, timer (eng s) !! sq ≠ Some h → is_Some (threads (world s) !! h) →
          threads (world s') !! h = threads (world s) !! h)
  ∧ logical (deref (world s') r) = logical (deref (world s) r).
Proof.
  intros Hreach Hr Hs'. apply sr_reachable_wf in Hreach as Hwf. split.
  - by apply (wf_pending _ Hwf) in Hr as (_ & _ & ?).
  - by eapply sr_timeout_leaves_others.
Qed.

End SelectiveRepeatReachable.

(** ** Selective Repeat: the timeout retransmits one unit *)

Section SelectiveRepeatTimeoutClaim.

Import SelectiveRepeatRDT.

(** C8. The timeout handler of Selective Repeat for a tracked sequence
    number [sq]. First, for any [self.receive]: the handler is the
    transmission of the object tracked under [sq], with [self.receive]
    as callback, through the channel of the engine, after the line that
    reports the timeout, followed by [_start_timer] for [sq]; it makes no
    other call. Second, whatever the channel decides, it may change the
    stored checksum of that object only, and the result is the one of
    [_start_timer] on the state the channel leaves or on the state the
    callback returns. Third, [_start_timer] only writes the entry of [sq]
    in [self.timer] and starts one timer thread. Fourth, in every state
    of a run and with the real receive path, also when the retransmission
    is delivered and acknowledged inside the call: the retransmitted
    object carries sequence number [sq] and keeps its sequence number,
    payload and type; every other tracked unit, every other entry of
    [self.timer], every other packet object and every timer thread but
    the one registered for [sq] are as before. *)
Theorem sr_timeout_retransmits_one self_receive fuel sq s r :
  pending_packets (eng s) !! sq = Some r →
  _on_timeout self_receive sq s
  = (s1 ← transmit (channel (eng s)) r self_receive
            (with_world (print (SenderTimeout sq)) s);
     Ok (_start_timer sq s1))
  ∧ (∃ w1,
       channel_effect r (world s) w1
       ∧ (_on_timeout self_receive sq s = Ok (_start_timer sq (mkState (eng s) w1))
          ∨ _on_timeout self_receive sq s
            = (s1 ← self_receive r (mkState (eng s) w1); Ok (_start_timer sq s1))))
  ∧ (∀ s1,
       eng (_start_timer sq s1)
       = set_timer (<[sq := length (threads (world s1))]> (timer (eng s1))) (eng s1)
       ∧ threads (world (_start_timer sq s1))
         = threads (world s1) ++ [mkTimer (timeout (eng s1)) (OnTimeout [sq]) Armed]
       ∧ heap (world (_start_timer sq s1)) = heap (world s1))
  ∧ (sr_reachable s →
     ∀ s', _on_timeout (receive fuel) sq s = Ok s' →
       Packet.seq (deref (world s) r) = sq
       ∧ (∀ k, k ≠ sq → is_Some (pending_packets (eng s) !! k) →
               pending_packets (eng s') !! k = pending_packets (eng s) !! k)
       ∧ (∀ k, k ≠ sq → is_Some (timer (eng s) !! k) →
               timer (eng s') !! k = timer (eng s) !! k)
       ∧ (∀ x, x ≠ r → is_Some (heap (world s) !! x) →
               heap (world s') !! x = heap (world s) !! x)
       ∧ (∀ h, timer (eng s) !! sq ≠ Some h → is_Some (threads (world s) !! h) →
               threads (world s') !! h = threads (world s) !! h)
       ∧ logical (deref (world s') r) = logical (deref (world s) r)).
Proof.
  intros Hr. split_and!.
  - unfold _on_timeout, with_world. cbn [eng world]. by rewrite Hr.
  - by apply sr_on_timeout_steps.
  - intros s1. by destruct (sr_start_timer_frame sq s1) as (? & ? & ? & _).
  - intros Hreach s' Hs'. by eapply sr_timeout_selective_in_runs.
Qed.

(** The theorem in two states that [start] leaves when only the first
    unit and its acknowledgment got through; sequence number 1 is tracked
    (object 3). In the first the retransmission is lost: the unit tracked
    under 2 and its timer are as they were. In the second the
    retransmission is delivered and acknowledged inside the call: the
    receiver has accepted the retransmitted object and delivers its
    payload after the one it had, while the unit tracked under 2 and its
    timer are as they were. *)
Lemma sr_timeout_retransmits_one_witness :
  (pending_packets (eng sr_after_start) !! 1 = Some 3%nat
   ∧ ∃ s', _on_timeout (receive 100) 1 sr_after_start = Ok s'
           ∧ pending_packets (eng s') !! 2 = pending_packets (eng sr_after_start) !! 2
           ∧ timer (eng s') !! 2 = timer (eng sr_after_start) !! 2)
  ∧ (pending_packets (eng sr_before_timeout) !! 1 = Some 3%nat
     ∧ ∃ s', _on_timeout (receive 100) 1 sr_before_timeout = Ok s'
             ∧ received_count (eng s') = received_count (eng sr_before_timeout) + 1
             ∧ get_data (eng s')
               = get_data (eng sr_before_timeout)
                 ++ [Packet.payload (deref (world sr_before_timeout) 3%nat)]
             ∧ pending_packets (eng s') !! 2
               = pending_packets (eng sr_before_timeout) !! 2
             ∧ timer (eng s') !! 2 = timer (eng sr_before_timeout) !! 2).
Proof.
  split.
  - assert (pending_packets (eng sr_after_start) !! 1 = Some 3%nat) as Hr
      by (vm_compute; reflexivity).
    split; [exact Hr |].
    assert (sr_reachable sr_after_start) as Hreach.
    { apply (sr_reach_start 100 sr_first_unit_through); [by apply sr_reach_init |].
      vm_compute; reflexivity. }
    destruct (_on_timeout (receive 100) 1 sr_after_start) as [s' | |] eqn:Hs';
      [| by vm_compute in Hs' | by vm_compute in Hs'].
    destruct (sr_timeout_retransmits_one (receive 100) 100 1 sr_after_start 3%nat Hr)
      as (_ & _ & _ & Hrun).
    destruct (Hrun Hreach s' Hs') as (_ & Hp & Ht & _).
    exists s'. split_and!.
    + reflexivity.
    + apply Hp; [done |]. vm_compute. eauto.
    + apply Ht; [done |]. vm_compute. eauto.
  - assert (pending_packets (eng sr_before_timeout) !! 1 = Some 3%nat) as Hr
      by (vm_compute; reflexivity).
    split; [exact Hr |].
    assert (sr_reachable sr_before_timeout) as Hreach.
    { apply (sr_reach_start 100 sr_retransmission_through); [by apply sr_reach_init |].
      vm_compute; reflexivity. }
    assert (_on_timeout (receive 100) 1 sr_before_timeout = Ok sr_after_timeout) as Hs'
      by (vm_compute; reflexivity).
    destruct (sr_timeout_retransmits_one (receive 100) 100 1 sr_before_timeout 3%nat Hr)
      as (_ & _ & _ & Hrun).
    destruct (Hrun Hreach sr_after_timeout Hs') as (_ & Hp & Ht & _).
    exists sr_after_timeout. split_and!.
    + exact Hs'.
    + vm_compute; reflexivity.
    + vm_compute; reflexivity.
    + apply Hp; [done |]. vm_compute. eauto.
    + apply Ht; [done |]. vm_compute. eauto.
Defined.

End SelectiveRepeatTimeoutClaim.

(** The state in which Selective Repeat exceeds its window is a state of
    a run: it is the one [start] leaves. *)
Lemma sr_run_exceeds_window :
  ∃ s, sr_reachable s
       ∧ SelectiveRepeatRDT.window_size (eng s) = 4
       ∧ sent_units (world s) = 8%nat
       ∧ verified_acks (world s) = 1%nat.
Proof.
  destruct (SelectiveRepeatRDT.start 100 sr_first_unit_through) as [s | |] eqn:Hs;
    [| by vm_compute in Hs | by vm_compute in Hs].
  exists s. split.
  - eapply sr_reach_start; [| exact Hs]. by apply sr_reach_init.
  - pose proof (f_equal (observe (λ s, (SelectiveRepeatRDT.window_size (eng s),
                                        sent_units (world s),
                                        verified_acks (world s)))) Hs) as Ho.
    vm_compute in Ho. injection Ho as H1 H2 H3.
    split_and!; [exact (eq_sym H1) | exact (eq_sym H2) | exact (eq_sym H3)].
Qed.

(** * Further properties of the code *)

(** ** Loops *)

Lemma for_each_preserves_in {A E} (R : relation (State E)) `{!Reflexive R, !Transitive R}
    (xs : list A) (body : A → State E → Result (State E)) :
  (∀ x, x ∈ xs → preserves R (body x)) → preserves R (for_each xs body).
Proof.
  induction xs as [| x xs IH]; intros Hb s s' Hs; simpl in Hs.
  - by injection Hs as ->.
  - apply bind_Ok in Hs as (s1 & H1 & H2). etrans.
    + eapply Hb; [by left | exact H1].
    + eapply IH; [| exact H2]. intros y Hy. apply Hb. by right.
Qed.

Lemma for_each_no_raise {A S} (I : S → Prop) (xs : list A) (body : A → S → Result S) :
  (∀ x t, x ∈ xs → I t → no_raise (body x t) ∧ ∀ t', body x t = Ok t' → I t') →
  ∀ t, I t → no_raise (for_each xs body t).
Proof.
  induction xs as [| x xs IH]; intros Hb t Ht; simpl; [done |].
  destruct (Hb x t ltac:(by left) Ht) as [Hn Hk].
  intros e. destruct (body x t) as [t1 | e1 |] eqn:Hx; simpl; [| by destruct (Hn e1) | done].
  apply IH; [| by apply Hk]. intros y u Hy. apply Hb. by right.
Qed.

(** A loop over [range]: an invariant indexed by the loop variable. *)
Lemma for_each_seqZ_invariant {S} (I : Z → S → Prop) a n
    (body : Z → S → Result S) s s' :
  0 ≤ n → I a s →
  (∀ i t t', a ≤ i < a + n → I i t → body i t = Ok t' → I (i + 1) t') →
  for_each (seqZ a n) body s = Ok s' → I (a + n) s'.
Proof.
  intros Hn. remember (Z.to_nat n) as k eqn:Hk. revert a n s Hn Hk.
  induction k as [| k IH]; intros a n s Hn Hk Hs Hb Hf.
  - assert (n = 0) as -> by lia. rewrite seqZ_nil in Hf by lia.
    injection Hf as <-. by rewrite Z.add_0_r.
  - rewrite seqZ_cons in Hf by lia. simpl in Hf.
    apply bind_Ok in Hf as (s1 & H1 & Hf).
    replace (a + n) with (Z.succ a + Z.pred n) by lia.
    eapply (IH (Z.succ a) (Z.pred n) s1); [lia | lia | | | exact Hf].
    + replace (Z.succ a) with (a + 1) by lia. eapply Hb; [| exact Hs | exact H1]. lia.
    + intros i t t' Hi. apply Hb. lia.
Qed.

(** ** The channel, step by step *)

Lemma never_below_zero q w :
  (q == 0)%Q → (∀ n, 0 <= rng w n)%Q → never_below q w.
Proof. intros Hq Hr n _. by apply Qltb_zero. Qed.

Lemma never_below_step ch r q w w' :
  channel_step ch r w w' → never_below q w → never_below q w'.
Proof.
  intros Hs Hq n Hn. rewrite (cs_rng _ _ _ _ Hs). apply Hq.
  pose proof (cs_pos _ _ _ _ Hs). lia.
Qed.

Lemma never_below_print q l w : never_below q (print l w) ↔ never_below q w.
Proof. done. Qed.

Lemma channel_step_refl ch r w : channel_step ch r w w.
Proof.
  split; try done; [by left | | by left].
  exists []. by rewrite app_nil_r.
Qed.

Lemma transmit_step {E} ch r (recv : ref → State E → Result (State E)) (s : State E) :
  ∃ w', channel_step ch r (world s) w'
        ∧ (transmit ch r recv s = Ok (mkState (eng s) w')
           ∨ (threads w' = threads (world s)
              ∧ transmit ch r recv s = recv r (mkState (eng s) w'))).
Proof.
  unfold transmit. cbn [random].
  destruct (Qltb _ (loss ch)) eqn:Hl.
  { eexists. split; [| left; reflexivity].
    split; cbn; try done; [by left | lia | | by left].
    eexists [_]. split; [reflexivity |]. by repeat constructor. }
  destruct (Qltb _ (corruption ch)) eqn:Hc; cbn in Hc;
    (destruct (Qltb _ (delay ch)) eqn:Hd; cbn in Hd;
     cbn [start_thread snd random];
     [ eexists; split; [| left; reflexivity]
     | eexists; split; [| right; split; [| reflexivity]; reflexivity] ]).
  all: split.
  all: try (intros Hn;
            first [ rewrite Hn in Hc by (simpl; lia) | rewrite Hn in Hd by (simpl; lia) ];
            discriminate).
  all: try (cbn; first [done | lia]).
  all: try (eexists; split; [cbn; rewrite <- ?app_assoc; reflexivity | by repeat constructor]).
  all: try (exists []; split; [by rewrite app_nil_r | done]).
  all: try (eapply channel_effect_heap_eq;
            [apply (channel_effect_corrupt r (world s)) | done
            | first [done | by apply prefix_app_r]]).
  all: try (eapply channel_effect_heap_eq;
            [apply channel_effect_refl | done | first [done | by apply prefix_app_r]]).
  all: try (by left).
  all: try (right; eexists; reflexivity).
  all: try (intros _; reflexivity).
  all: unfold deref; cbn.
  all: pose proof (deref_alter_eq corrupt_packet (world s) r) as Ha;
    unfold deref in Ha; cbn in Ha; rewrite Ha; case_decide; [by right | by left].
Qed.

Lemma transmit_step_elim {E} ch r (recv : ref → State E → Result (State E)) (s : State E)
    (Q : Result (State E) → Prop) :
  (∀ w', channel_step ch r (world s) w' → Q (Ok (mkState (eng s) w'))) →
  (∀ w', channel_step ch r (world s) w' → threads w' = threads (world s) →
         Q (recv r (mkState (eng s) w'))) →
  Q (transmit ch r recv s).
Proof.
  intros H1 H2.
  destruct (transmit_step ch r recv s) as (w' & Hcs & [-> | [Ht ->]]); auto.
Qed.
Section StopAndWaitAtoms.
Import StopAndWaitRDT.
Implicit Types (s : St) (self_receive : Receive).

#[local] Abbreviation steps := (rtc sw_atom).

Lemma sw_transmit_atoms r self_receive :
  (∀ r', preserves steps (self_receive r')) →
  ∀ s s', transmit (channel (eng s)) r self_receive s = Ok s' → steps s s'.
Proof.
  intros Hrecv s s'. apply transmit_step_elim.
  - intros w' Hcs [= <-]. apply rtc_once. by eapply sw_at_channel.
  - intros w' Hcs _ Hs'. eapply rtc_l; [by eapply sw_at_channel |]. by eapply Hrecv.
Qed.

Lemma sw_send_atoms self_receive :
  (∀ r', preserves steps (self_receive r')) → preserves steps (send self_receive).
Proof.
  intros Hrecv s s'. unfold send. case_bool_decide as Hlt.
  - intros [= <-].
    eapply rtc_l; [by apply (sw_at_print s SenderAllSent) |].
    apply rtc_once. apply sw_at_running.
  - cbn [alloc]. intros Hs. apply bind_Ok in Hs as (s2 & H2 & [= <-]).
    eapply rtc_l; [apply sw_at_unit; lia |]. cbn [alloc].
    eapply rtc_r; [| apply sw_at_start_timer].
    by eapply sw_transmit_atoms.
Qed.

Lemma sw_receiver_atoms self_receive packet :
  (∀ r', preserves steps (self_receive r')) →
  preserves steps (_receiver self_receive packet).
Proof.
  intros Hrecv s s'. unfold _receiver.
  set (s0 := with_world _ s).
  assert (steps s s0) as H0 by (apply rtc_once; by apply sw_at_print).
  intros Hs. etrans; [exact H0 |]. clear H0. revert Hs.
  destruct (Packet.is_corrupt _) eqn:Hc; [| case_bool_decide as Hseq]; cbn [alloc].
  - intros Hs. eapply rtc_l; [by apply (sw_at_nak s0 packet) |].
    by eapply (sw_transmit_atoms _ _ Hrecv (mkState _ _)).
  - intros Hs. eapply rtc_l; [by apply (sw_at_accept s0 packet) |].
    by eapply (sw_transmit_atoms _ _ Hrecv (mkState _ _)).
  - intros Hs. eapply rtc_l; [by apply (sw_at_duplicate s0 packet) |].
    by eapply (sw_transmit_atoms _ _ Hrecv (mkState _ _)).
Qed.

Lemma sw_ack_handler_atoms self_receive ack :
  (∀ r', preserves steps (self_receive r')) →
  preserves steps (_ack_handler self_receive ack).
Proof.
  intros Hrecv s s'. unfold _ack_handler.
  set (s0 := with_world _ s).
  assert (steps s s0) as H0 by (apply rtc_once; by apply sw_at_print).
  intros Hs. etrans; [exact H0 |]. clear H0. revert Hs.
  destruct (Packet.is_corrupt _) eqn:Hc.
  { intros [= <-]. apply rtc_once. by apply sw_at_print. }
  destruct (pending_packet (eng s0)) as [r |] eqn:Hr; [| done].
  case_bool_decide as Hseq; [| by intros [= <-]].
  intros Hs. apply sw_send_atoms in Hs; [| done].
  etrans; [| exact Hs].
  eapply rtc_l; [apply sw_at_stop_timer |].
  apply rtc_once.
  assert (∀ x, deref (world (_stop_timer s0)) x = deref (world s0) x) as Hd.
  { intros x. unfold deref, _stop_timer.
    destruct (timer _); cbn [world]; by rewrite ?heap_cancel. }
  pose proof (sw_at_ack (_stop_timer s0) ack r) as Ha. rewrite !Hd in Ha.
  apply Ha; [done | | done].
  unfold _stop_timer. by destruct (timer _).
Qed.

Lemma sw_receive_atoms fuel packet : preserves steps (receive fuel packet).
Proof.
  revert packet. induction fuel as [| fuel IH]; intros packet s s' Hs; [done |].
  simpl in Hs. destruct (Packet.type _).
  - by eapply sw_receiver_atoms.
  - by eapply sw_ack_handler_atoms.
Qed.

Lemma sw_on_timeout_atoms self_receive :
  (∀ r', preserves steps (self_receive r')) →
  preserves steps (_on_timeout self_receive).
Proof.
  intros Hrecv s s'. unfold _on_timeout.
  destruct (pending_packet (eng s)) as [r |]; [| done].
  intros Hs. apply bind_Ok in Hs as (s2 & H2 & [= <-]).
  eapply rtc_l;
    [by apply (sw_at_print s (SenderTimeout (Packet.seq (deref (world s) r)))) |].
  eapply rtc_r; [| apply sw_at_start_timer].
  by eapply sw_transmit_atoms.
Qed.

Lemma sw_fire_atoms fuel h : preserves steps (fire fuel h).
Proof.
  intros s s'. unfold fire.
  destruct (threads (world s) !! h) as [[i a []] |]; try (by intros [= <-]).
  destruct a as [args | packet]; intros Hs.
  - apply sw_on_timeout_atoms in Hs; [| intros r'; apply sw_receive_atoms].
    eapply rtc_l; [apply (sw_at_fired s h) | exact Hs].
  - apply sw_receive_atoms in Hs.
    eapply rtc_l; [apply (sw_at_fired s h) | exact Hs].
Qed.

Lemma sw_start_atoms fuel : preserves steps (start fuel).
Proof.
  intros s s' Hs. unfold start in Hs.
  apply sw_send_atoms in Hs; [| intros r'; apply sw_receive_atoms].
  eapply rtc_l; [apply (sw_at_running s true) | exact Hs].
Qed.

(** An invariant of the atomic updates holds in every state of a run. *)
Lemma sw_reachable_ind_atoms (I : St → Prop) :
  (∀ ch total tmo g, I (mkState (init ch total tmo) (empty_world g))) →
  (∀ s s', I s → sw_atom s s' → I s') →
  ∀ s, sw_reachable s → I s.
Proof.
  intros Hinit Hstep.
  assert (∀ s s', steps s s' → I s → I s') as Hsteps.
  { induction 1; eauto. }
  induction 1 as [| fuel s s' _ IH Hs | fuel s s' _ IH Hs
                  | fuel packet s s' _ IH Hs | fuel h s s' _ IH Hs].
  - apply Hinit.
  - eapply Hsteps; [by eapply sw_start_atoms | done].
  - eapply Hsteps; [eapply sw_send_atoms; [| exact Hs] | done].
    intros r'; apply sw_receive_atoms.
  - eapply Hsteps; [by eapply sw_receive_atoms | done].
  - eapply Hsteps; [by eapply sw_fire_atoms | done].
Qed.

End StopAndWaitAtoms.
(** ** The delivered buffer with contiguous keys *)

Lemma seqZ_sorted m n : StronglySorted Z.le (seqZ m n).
Proof.
  remember (Z.to_nat n) as k eqn:Hk. revert m n Hk.
  induction k as [| k IH]; intros m n Hk.
  - rewrite seqZ_nil by lia. constructor.
  - rewrite seqZ_cons by lia. constructor.
    + apply IH. lia.
    + apply Forall_seqZ. lia.
Qed.

(** When the keys of the buffer are 0 to [n - 1], [get_data] returns the
    entries in that order. *)
Lemma sorted_values_contiguous (m : gmap Z (option string)) n :
  (∀ j, j ∈ dom m ↔ 0 ≤ j < n) →
  sorted_values m = (λ i, m !!! i) <$> seqZ 0 n.
Proof.
  intros Hdom. unfold sorted_values. f_equal.
  apply (StronglySorted_unique Z.le).
  - apply StronglySorted_merge_sort; apply _.
  - apply seqZ_sorted.
  - rewrite merge_sort_Permutation. apply NoDup_Permutation.
    + apply NoDup_elements.
    + apply NoDup_seqZ.
    + intros x. rewrite elem_of_elements, elem_of_seqZ, Hdom. lia.
Qed.

Lemma accepted_seqs_print l w :
  accepted_seqs (print l w)
  = accepted_seqs w ++ match accepted_seq l with Some q => [q] | None => [] end.
Proof.
  unfold accepted_seqs. simpl. rewrite omap_app. simpl.
  by destruct (accepted_seq l).
Qed.

Lemma accepted_seqs_stdout w w' :
  stdout w' = stdout w → accepted_seqs w' = accepted_seqs w.
Proof. unfold accepted_seqs. by intros ->. Qed.

Lemma accepted_seqs_channel ch r w w' :
  channel_step ch r w w' → accepted_seqs w' = accepted_seqs w.
Proof.
  intros Hcs. destruct (cs_stdout _ _ _ _ Hcs) as (ls & Hls & Hall).
  unfold accepted_seqs. rewrite Hls, omap_app.
  assert (omap accepted_seq ls = []) as ->; [| by rewrite app_nil_r].
  clear Hls. induction Hall as [| l ls Hl _ IH]; [done |].
  destruct l; try discriminate; exact IH.
Qed.

(** ** Stop-and-Wait: the alternating bit *)

Section StopAndWaitAlternating.
Import StopAndWaitRDT.
Implicit Types (s : St).

Lemma sw_alternating_ext s s' :
  sw_alternating s →
  seq_num (eng s') = seq_num (eng s) →
  received_count (eng s') = received_count (eng s) →
  buffer (eng s') = buffer (eng s) →
  accepted_seqs (world s') = accepted_seqs (world s) →
  sw_alternating s'.
Proof. intros [] Hq Hr Hb Ha. split; rewrite ?Hq, ?Hr, ?Hb, ?Ha; done. Qed.

Lemma sw_atom_alternating s s' : sw_alternating s → sw_atom s s' → sw_alternating s'.
Proof.
  intros HI Hat. destruct Hat.
  all: try (eapply sw_alternating_ext; [exact HI | reflexivity ..]).
  - eapply sw_alternating_ext; [exact HI | reflexivity .. |].
    cbn [world with_world]. rewrite accepted_seqs_print.
    destruct l; try discriminate; by rewrite app_nil_r.
  - eapply sw_alternating_ext; [exact HI | reflexivity .. |].
    by eapply accepted_seqs_channel.
  - unfold _stop_timer. destruct (timer (eng s)); [| done].
    eapply sw_alternating_ext; [exact HI | reflexivity .. |].
    apply accepted_seqs_stdout, stdout_cancel.
  - cbn [alloc]. eapply sw_alternating_ext; [exact HI | reflexivity .. |].
    cbn [world]. by rewrite accepted_seqs_print, app_nil_r.
  - eapply sw_alternating_ext; [exact HI | reflexivity .. |].
    unfold accepted_seqs. cbn. by rewrite omap_app, app_nil_r.
  - destruct HI as [Hc Hb Ha Hk]. cbn zeta. split; cbn [eng world alloc snd].
    + simpl. lia.
    + simpl. rewrite Hb. Z.div_mod_to_equations. lia.
    + simpl. unfold accepted_seqs in *. cbn. rewrite omap_app, Ha. cbn.
      rewrite seqZ_app, fmap_app by lia. cbn. by rewrite H0, Hb.
    + intros j. simpl. rewrite dom_insert, elem_of_union, elem_of_singleton, Hk. lia.
  - eapply sw_alternating_ext; [exact HI | reflexivity .. |].
    unfold accepted_seqs. cbn. by rewrite omap_app, app_nil_r.
  - eapply sw_alternating_ext; [exact HI | reflexivity .. |].
    cbn [world with_world with_eng]. by rewrite accepted_seqs_print, app_nil_r.
Qed.

Lemma sw_reachable_alternating s : sw_reachable s → sw_alternating s.
Proof.
  revert s. apply sw_reachable_ind_atoms.
  - intros. split; try done. intros j. simpl. rewrite dom_empty, elem_of_empty. lia.
  - intros s s'. apply sw_atom_alternating.
Qed.



End StopAndWaitAlternating.

Section GoBackNAtoms.
Import GoBackNRDT.
Implicit Types (s : St) (self_receive : Receive).

#[local] Abbreviation steps := (rtc gbn_atom).

Lemma gbn_transmit_atoms r self_receive :
  (∀ r', preserves steps (self_receive r')) →
  ∀ s s', transmit (channel (eng s)) r self_receive s = Ok s' → steps s s'.
Proof.
  intros Hrecv s s'. apply transmit_step_elim.
  - intros w' Hcs [= <-]. apply rtc_once. by eapply gbn_at_channel.
  - intros w' Hcs _ Hs'. eapply rtc_l; [by eapply gbn_at_channel |]. by eapply Hrecv.
Qed.

Lemma gbn_send_atoms self_receive :
  (∀ r', preserves steps (self_receive r')) → preserves steps (send self_receive).
Proof.
  intros Hrecv s s'. unfold send. case_bool_decide as Hlt.
  - intros [= <-].
    eapply rtc_l; [by apply (gbn_at_print s SenderAllSent) |].
    apply rtc_once. apply gbn_at_running.
  - intros Hs. apply bind_Ok in Hs as (s1 & H1 & [= <-]).
    eapply rtc_r; [| apply gbn_at_advance].
    eapply (for_each_preserves_in steps); [| exact H1].
    intros i Hi t t'. apply elem_of_seqZ in Hi.
    case_bool_decide as Hlt'; [| by intros [= <-]].
    cbn [alloc]. intros Hb. apply bind_Ok in Hb as (t2 & H2 & [= <-]).
    eapply rtc_r; [| apply gbn_at_start_timer].
    eapply rtc_l; [apply (gbn_at_unit t i); lia |].
    cbn [alloc]. by eapply (gbn_transmit_atoms _ _ Hrecv (mkState _ _)).
Qed.

Lemma gbn_stop_timer_deref k s x : deref (world (_stop_timer k s)) x = deref (world s) x.
Proof.
  unfold deref, _stop_timer. destruct (timer (eng s) !! k); cbn [world]; by rewrite ?heap_cancel.
Qed.

Lemma gbn_receiver_atoms self_receive packet :
  (∀ r', preserves steps (self_receive r')) →
  preserves steps (_receiver self_receive packet).
Proof.
  intros Hrecv s s'. unfold _receiver.
  set (s0 := with_world _ s).
  assert (steps s s0) as H0 by (apply rtc_once; by apply gbn_at_print).
  intros Hs. etrans; [exact H0 |]. clear H0. revert Hs.
  destruct (Packet.is_corrupt _) eqn:Hc; [| case_bool_decide as Hseq]; cbn [alloc].
  - intros Hs. eapply rtc_l; [by apply (gbn_at_nak s0 packet) |].
    by eapply (gbn_transmit_atoms _ _ Hrecv (mkState _ _)).
  - intros Hs. eapply rtc_l; [by apply (gbn_at_accept s0 packet) |].
    by eapply (gbn_transmit_atoms _ _ Hrecv (mkState _ _)).
  - intros Hs. eapply rtc_l; [by apply (gbn_at_duplicate s0 packet) |].
    by eapply (gbn_transmit_atoms _ _ Hrecv (mkState _ _)).
Qed.

Lemma gbn_ack_handler_atoms self_receive ack :
  (∀ r', preserves steps (self_receive r')) →
  preserves steps (_ack_handler self_receive ack).
Proof.
  intros Hrecv s s'. unfold _ack_handler.
  set (s0 := with_world _ s).
  assert (steps s s0) as H0 by (apply rtc_once; by apply gbn_at_print).
  intros Hs. etrans; [exact H0 |]. clear H0. revert Hs.
  destruct (Packet.is_corrupt _) eqn:Hc.
  { intros [= <-]. apply rtc_once. by apply gbn_at_print. }
  destruct (bool_decide _ && bool_decide _) eqn:Hin; [| by intros [= <-]].
  apply andb_true_iff in Hin as [Hlo%bool_decide_eq_true Hhi%bool_decide_eq_true].
  set (s1 := _stop_timer _ s0).
  assert (steps s0 (with_eng (λ e, set_sent_count (sent_count e + 1) e)
                      (with_world (print (SenderAckVerified
                                            (Packet.seq (deref (world s0) ack)))) s1)))
    as H3.
  { eapply rtc_l; [apply gbn_at_stop_timer |]. apply rtc_once.
    pose proof (gbn_at_ack s1 ack) as Ha. subst s1.
    rewrite !gbn_stop_timer_deref in Ha. apply Ha; [done |].
    unfold _stop_timer. destruct (timer (eng s0) !! _); cbn [eng]; split; done. }
  case_bool_decide.
  - intros Hs. apply gbn_send_atoms in Hs; [| done]. by etrans.
  - by intros [= <-].
Qed.

Lemma gbn_receive_atoms fuel packet : preserves steps (receive fuel packet).
Proof.
  revert packet. induction fuel as [| fuel IH]; intros packet s s' Hs; [done |].
  simpl in Hs. destruct (Packet.type _).
  - by eapply gbn_receiver_atoms.
  - by eapply gbn_ack_handler_atoms.
Qed.

Lemma gbn_on_timeout_atoms self_receive sq :
  (∀ r', preserves steps (self_receive r')) →
  preserves steps (_on_timeout self_receive sq).
Proof.
  intros Hrecv s s'. unfold _on_timeout.
  set (s0 := with_world _ s).
  assert (steps s s0) as H0 by (apply rtc_once; by apply gbn_at_print).
  intros Hs. etrans; [exact H0 |].
  eapply (for_each_preserves steps); [| exact Hs].
  intros i t t' H. apply bind_Ok in H as (r & _ & H).
  apply bind_Ok in H as (t2 & H2 & [= <-]).
  eapply rtc_r; [| apply gbn_at_start_timer].
  by eapply gbn_transmit_atoms.
Qed.

Lemma gbn_fire_atoms fuel h : preserves steps (fire fuel h).
Proof.
  intros s s'. unfold fire.
  destruct (threads (world s) !! h) as [[i a []] |]; try (by intros [= <-]).
  destruct a as [[| sq []] | packet]; intros Hs.
  - injection Hs as <-. apply rtc_once, gbn_at_fired.
  - apply gbn_on_timeout_atoms in Hs; [| intros r'; apply gbn_receive_atoms].
    eapply rtc_l; [apply (gbn_at_fired s h) | exact Hs].
  - injection Hs as <-. apply rtc_once, gbn_at_fired.
  - apply gbn_receive_atoms in Hs.
    eapply rtc_l; [apply (gbn_at_fired s h) | exact Hs].
Qed.

Lemma gbn_start_atoms fuel : preserves steps (start fuel).
Proof.
  intros s s' Hs. unfold start in Hs.
  apply gbn_send_atoms in Hs; [| intros r'; apply gbn_receive_atoms].
  eapply rtc_l; [apply (gbn_at_running s true) | exact Hs].
Qed.

Lemma gbn_steps_invariant (I : St → Prop) :
  (∀ s s', I s → gbn_atom s s' → I s') → ∀ s s', steps s s' → I s → I s'.
Proof. intros Hstep s s'. induction 1; eauto. Qed.

(** An invariant of the atomic updates holds in every state of a run. *)
Lemma gbn_reachable_ind_atoms (I : St → Prop) :
  (∀ ch total window tmo g, I (mkState (init ch total window tmo) (empty_world g))) →
  (∀ s s', I s → gbn_atom s s' → I s') →
  ∀ s, gbn_reachable s → I s.
Proof.
  intros Hinit Hstep.
  pose proof (gbn_steps_invariant I Hstep) as Hsteps.
  induction 1 as [| fuel s s' _ IH Hs | fuel s s' _ IH Hs
                  | fuel packet s s' _ IH Hs | fuel h s s' _ IH Hs].
  - by apply Hinit.
  - eapply Hsteps; [by eapply gbn_start_atoms | done].
  - eapply Hsteps; [eapply gbn_send_atoms; [| exact Hs] | done].
    intros r'; apply gbn_receive_atoms.
  - eapply Hsteps; [by eapply gbn_receive_atoms | done].
  - eapply Hsteps; [by eapply gbn_fire_atoms | done].
Qed.

End GoBackNAtoms.

Section SelectiveRepeatAtoms.
Import SelectiveRepeatRDT.
Implicit Types (s : St) (self_receive : Receive).

#[local] Abbreviation steps := (rtc sr_atom).

Lemma sr_transmit_atoms r self_receive :
  (∀ r', preserves steps (self_receive r')) →
  ∀ s s', transmit (channel (eng s)) r self_receive s = Ok s' → steps s s'.
Proof.
  intros Hrecv s s'. apply transmit_step_elim.
  - intros w' Hcs [= <-]. apply rtc_once. by eapply sr_at_channel.
  - intros w' Hcs _ Hs'. eapply rtc_l; [by eapply sr_at_channel |]. by eapply Hrecv.
Qed.

Lemma sr_send_atoms self_receive :
  (∀ r', preserves steps (self_receive r')) → preserves steps (send self_receive).
Proof.
  intros Hrecv s s'. unfold send. case_bool_decide as Hlt.
  - intros [= <-].
    eapply rtc_l; [by apply (sr_at_print s SenderAllSent) |].
    apply rtc_once. apply sr_at_running.
  - intros Hs. apply bind_Ok in Hs as (s1 & H1 & [= <-]).
    eapply rtc_r; [| apply sr_at_advance].
    eapply (for_each_preserves_in steps); [| exact H1].
    intros i Hi t t'. apply elem_of_seqZ in Hi.
    case_bool_decide as Hlt'; [| by intros [= <-]].
    cbn [alloc]. intros Hb. apply bind_Ok in Hb as (t2 & H2 & [= <-]).
    eapply rtc_r; [| apply sr_at_start_timer].
    eapply rtc_l; [apply (sr_at_unit t i); lia |].
    cbn [alloc]. by eapply (sr_transmit_atoms _ _ Hrecv (mkState _ _)).
Qed.

Lemma sr_stop_timer_deref k s x : deref (world (_stop_timer k s)) x = deref (world s) x.
Proof.
  unfold deref, _stop_timer. destruct (timer (eng s) !! k); cbn [world]; by rewrite ?heap_cancel.
Qed.

Lemma sr_receiver_atoms self_receive packet :
  (∀ r', preserves steps (self_receive r')) →
  preserves steps (_receiver self_receive packet).
Proof.
  intros Hrecv s s'. unfold _receiver.
  set (s0 := with_world _ s).
  assert (steps s s0) as H0 by (apply rtc_once; by apply sr_at_print).
  intros Hs. etrans; [exact H0 |]. clear H0. revert Hs.
  destruct (Packet.is_corrupt _) eqn:Hc; [| case_bool_decide as Hseq]; cbn [alloc].
  - intros Hs. eapply rtc_l; [by apply (sr_at_nak s0 packet) |].
    by eapply (sr_transmit_atoms _ _ Hrecv (mkState _ _)).
  - intros Hs. eapply rtc_l; [by apply (sr_at_accept s0 packet) |].
    by eapply (sr_transmit_atoms _ _ Hrecv (mkState _ _)).
  - intros Hs. eapply rtc_l; [by apply (sr_at_duplicate s0 packet) |].
    by eapply (sr_transmit_atoms _ _ Hrecv (mkState _ _)).
Qed.

Lemma sr_ack_handler_atoms self_receive ack :
  (∀ r', preserves steps (self_receive r')) →
  preserves steps (_ack_handler self_receive ack).
Proof.
  intros Hrecv s s'. unfold _ack_handler.
  set (s0 := with_world _ s).
  assert (steps s s0) as H0 by (apply rtc_once; by apply sr_at_print).
  intros Hs. etrans; [exact H0 |]. clear H0. revert Hs.
  destruct (Packet.is_corrupt _) eqn:Hc.
  { intros [= <-]. apply rtc_once. by apply sr_at_print. }
  case_bool_decide as Hin; [| by intros [= <-]].
  set (s1 := _stop_timer _ s0).
  assert (steps s0 (with_eng (λ e, set_sent_count (sent_count e + 1) e)
                      (with_world (print (SenderAckVerified
                                            (Packet.seq (deref (world s0) ack)))) s1)))
    as H3.
  { eapply rtc_l; [apply sr_at_stop_timer |]. apply rtc_once.
    pose proof (sr_at_ack s1 ack) as Ha. subst s1.
    rewrite !sr_stop_timer_deref in Ha. apply Ha; [done |].
    unfold _stop_timer. destruct (timer (eng s0) !! _); cbn [eng]; done. }
  case_bool_decide.
  - intros Hs. apply sr_send_atoms in Hs; [| done]. by etrans.
  - by intros [= <-].
Qed.

Lemma sr_receive_atoms fuel packet : preserves steps (receive fuel packet).
Proof.
  revert packet. induction fuel as [| fuel IH]; intros packet s s' Hs; [done |].
  simpl in Hs. destruct (Packet.type _).
  - by eapply sr_receiver_atoms.
  - by eapply sr_ack_handler_atoms.
Qed.

Lemma sr_on_timeout_atoms self_receive sq :
  (∀ r', preserves steps (self_receive r')) →
  preserves steps (_on_timeout self_receive sq).
Proof.
  intros Hrecv s s'. unfold _on_timeout.
  set (s0 := with_world _ s).
  assert (steps s s0) as H0 by (apply rtc_once; by apply sr_at_print).
  intros Hs. etrans; [exact H0 |].
  destruct (pending_packets (eng s0) !! sq) as [r |]; [| done].
  apply bind_Ok in Hs as (t2 & H2 & [= <-]).
  eapply rtc_r; [| apply sr_at_start_timer].
  by eapply sr_transmit_atoms.
Qed.

Lemma sr_fire_atoms fuel h : preserves steps (fire fuel h).
Proof.
  intros s s'. unfold fire.
  destruct (threads (world s) !! h) as [[i a []] |]; try (by intros [= <-]).
  destruct a as [[| sq []] | packet]; intros Hs.
  - injection Hs as <-. apply rtc_once, sr_at_fired.
  - apply sr_on_timeout_atoms in Hs; [| intros r'; apply sr_receive_atoms].
    eapply rtc_l; [apply (sr_at_fired s h) | exact Hs].
  - injection Hs as <-. apply rtc_once, sr_at_fired.
  - apply sr_receive_atoms in Hs.
    eapply rtc_l; [apply (sr_at_fired s h) | exact Hs].
Qed.

Lemma sr_start_atoms fuel : preserves steps (start fuel).
Proof.
  intros s s' Hs. unfold start in Hs.
  apply sr_send_atoms in Hs; [| intros r'; apply sr_receive_atoms].
  eapply rtc_l; [apply (sr_at_running s true) | exact Hs].
Qed.

Lemma sr_steps_invariant (I : St → Prop) :
  (∀ s s', I s → sr_atom s s' → I s') → ∀ s s', steps s s' → I s → I s'.
Proof. intros Hstep s s'. induction 1; eauto. Qed.

(** An invariant of the atomic updates holds in every state of a run. *)
Lemma sr_reachable_ind_atoms (I : St → Prop) :
  (∀ ch total window tmo g, 0 ≤ window → I (mkState (init ch total window tmo) (empty_world g))) →
  (∀ s s', I s → sr_atom s s' → I s') →
  ∀ s, sr_reachable s → I s.
Proof.
  intros Hinit Hstep.
  pose proof (sr_steps_invariant I Hstep) as Hsteps.
  induction 1 as [| fuel s s' _ IH Hs | fuel s s' _ IH Hs
                  | fuel packet s s' _ IH Hs | fuel h s s' _ IH Hs].
  - by apply Hinit.
  - eapply Hsteps; [by eapply sr_start_atoms | done].
  - eapply Hsteps; [eapply sr_send_atoms; [| exact Hs] | done].
    intros r'; apply sr_receive_atoms.
  - eapply Hsteps; [by eapply sr_receive_atoms | done].
  - eapply Hsteps; [by eapply sr_fire_atoms | done].
Qed.

End SelectiveRepeatAtoms.

(** ** Go-Back-N: units are accepted in order *)

Section GoBackNInOrder.
Import GoBackNRDT.
Implicit Types (s : St).

Lemma gbn_in_order_ext s s' :
  gbn_in_order s →
  ack_received (eng s') = ack_received (eng s) →
  received_count (eng s') = received_count (eng s) →
  buffer (eng s') = buffer (eng s) →
  accepted_seqs (world s') = accepted_seqs (world s) →
  gbn_in_order s'.
Proof. intros [] Hq Hr Hb Ha. split; rewrite ?Hq, ?Hr, ?Hb, ?Ha; done. Qed.

Lemma gbn_atom_in_order s s' : gbn_in_order s → gbn_atom s s' → gbn_in_order s'.
Proof.
  intros HI Hat. destruct Hat.
  all: try (eapply gbn_in_order_ext; [exact HI | reflexivity ..]).
  - eapply gbn_in_order_ext; [exact HI | reflexivity .. |].
    cbn [world with_world]. rewrite accepted_seqs_print.
    destruct l; try discriminate; by rewrite app_nil_r.
  - eapply gbn_in_order_ext; [exact HI | reflexivity .. |].
    by eapply accepted_seqs_channel.
  - unfold _stop_timer. destruct (timer (eng s) !! k); [| done].
    eapply gbn_in_order_ext; [exact HI | reflexivity .. |].
    apply accepted_seqs_stdout, stdout_cancel.
  - cbn [alloc]. eapply gbn_in_order_ext; [exact HI | reflexivity .. |].
    cbn [world]. by rewrite accepted_seqs_print, app_nil_r.
  - eapply gbn_in_order_ext; [exact HI | reflexivity .. |].
    unfold accepted_seqs. cbn. by rewrite omap_app, app_nil_r.
  - destruct HI as [Hc Hb Ha Hk]. cbn zeta. split; cbn [eng world alloc snd].
    + simpl. lia.
    + simpl. lia.
    + simpl. unfold accepted_seqs in *. cbn. rewrite omap_app, Ha. cbn.
      rewrite seqZ_app by lia. f_equal.
      rewrite H0, Hb. unfold seqZ. simpl. f_equal.
    + intros j. simpl. rewrite dom_insert, elem_of_union, elem_of_singleton, Hk. lia.
  - eapply gbn_in_order_ext; [exact HI | reflexivity .. |].
    unfold accepted_seqs. cbn. by rewrite omap_app, app_nil_r.
  - eapply gbn_in_order_ext; [exact HI | reflexivity .. |].
    cbn [world with_world with_eng]. by rewrite accepted_seqs_print, app_nil_r.
Qed.

Lemma gbn_reachable_in_order s : gbn_reachable s → gbn_in_order s.
Proof.
  revert s. apply gbn_reachable_ind_atoms.
  - intros. split; try done. intros j. simpl. rewrite dom_empty, elem_of_empty. lia.
  - intros s s'. apply gbn_atom_in_order.
Qed.



End GoBackNInOrder.

(** ** Selective Repeat: units are accepted in order *)

Section SelectiveRepeatInOrder.
Import SelectiveRepeatRDT.
Implicit Types (s : St).

Lemma sr_in_order_ext s s' :
  sr_in_order s →
  ack_received (eng s') = ack_received (eng s) →
  received_count (eng s') = received_count (eng s) →
  buffer (eng s') = buffer (eng s) →
  accepted_seqs (world s') = accepted_seqs (world s) →
  sr_in_order s'.
Proof. intros [] Hq Hr Hb Ha. split; rewrite ?Hq, ?Hr, ?Hb, ?Ha; done. Qed.

Lemma sr_atom_in_order s s' : sr_in_order s → sr_atom s s' → sr_in_order s'.
Proof.
  intros HI Hat. destruct Hat.
  all: try (eapply sr_in_order_ext; [exact HI | reflexivity ..]).
  - eapply sr_in_order_ext; [exact HI | reflexivity .. |].
    cbn [world with_world]. rewrite accepted_seqs_print.
    destruct l; try discriminate; by rewrite app_nil_r.
  - eapply sr_in_order_ext; [exact HI | reflexivity .. |].
    by eapply accepted_seqs_channel.
  - unfold _stop_timer. destruct (timer (eng s) !! k); [| done].
    eapply sr_in_order_ext; [exact HI | reflexivity .. |].
    apply accepted_seqs_stdout, stdout_cancel.
  - cbn [alloc]. eapply sr_in_order_ext; [exact HI | reflexivity .. |].
    cbn [world]. by rewrite accepted_seqs_print, app_nil_r.
  - eapply sr_in_order_ext; [exact HI | reflexivity .. |].
    unfold accepted_seqs. cbn. by rewrite omap_app, app_nil_r.
  - destruct HI as [Hc Hb Ha Hk]. cbn zeta. split; cbn [eng world alloc snd].
    + simpl. lia.
    + simpl. lia.
    + simpl. unfold accepted_seqs in *. cbn. rewrite omap_app, Ha. cbn.
      rewrite seqZ_app by lia. f_equal.
      rewrite H0, Hb. unfold seqZ. simpl. f_equal.
    + intros j. simpl. rewrite dom_insert, elem_of_union, elem_of_singleton, Hk. lia.
  - eapply sr_in_order_ext; [exact HI | reflexivity .. |].
    unfold accepted_seqs. cbn. by rewrite omap_app, app_nil_r.
  - eapply sr_in_order_ext; [exact HI | reflexivity .. |].
    cbn [world with_world with_eng]. by rewrite accepted_seqs_print, app_nil_r.
Qed.

Lemma sr_reachable_in_order s : sr_reachable s → sr_in_order s.
Proof.
  revert s. apply sr_reachable_ind_atoms.
  - intros. split; try done. intros j. simpl. rewrite dom_empty, elem_of_empty. lia.
  - intros s s'. apply sr_atom_in_order.
Qed.



End SelectiveRepeatInOrder.
(** ** Packet objects and allocation *)

Lemma deref_alloc p w r :
  deref (alloc p w).2 r = if decide (r = length (heap w)) then p else deref w r.
Proof.
  unfold deref. cbn. rewrite !list_lookup_total_alt.
  case_decide as Hr.
  - subst. by rewrite lookup_app_r, Nat.sub_diag by done.
  - destruct (decide (r < length (heap w))%nat).
    + by rewrite lookup_app_l by done.
    + rewrite !lookup_ge_None_2; [done | lia |]. rewrite length_app. simpl. lia.
Qed.

Lemma deref_set_heap_app p w r :
  deref (set_heap (heap w ++ [p]) w) r
  = if decide (r = length (heap w)) then p else deref w r.
Proof. apply deref_alloc. Qed.

Lemma deref_alloc_old p w r :
  (r < length (heap w))%nat → deref (alloc p w).2 r = deref w r.
Proof. intros Hr. rewrite deref_alloc. case_decide; [lia | done]. Qed.

Lemma deref_heap_eq w w' r : heap w' = heap w → deref w' r = deref w r.
Proof. unfold deref. by intros ->. Qed.

Lemma channel_step_logical ch packet w w' r :
  channel_step ch packet w w' → logical (deref w' r) = logical (deref w r).
Proof.
  intros Hcs. destruct (cs_effect _ _ _ _ Hcs) as [_ Ho Hc _].
  destruct (decide (r = packet)) as [-> | Hne]; [done |].
  unfold deref. by rewrite !list_lookup_total_alt, (Ho r Hne).
Qed.

(** A lasting relation is kept by [transmit] when the callback keeps
    it. *)
Lemma transmit_preserves {E} (R : relation (State E)) `{!Reflexive R, !Transitive R}
    ch r (recv : ref → State E → Result (State E)) :
  (∀ s w', channel_step ch r (world s) w' → R s (mkState (eng s) w')) →
  (∀ r', preserves R (recv r')) →
  preserves R (transmit ch r recv).
Proof.
  intros Hch Hrecv s s'. apply transmit_step_elim.
  - intros w' Hcs [= <-]. by apply Hch.
  - intros w' Hcs _ Hs'. etrans; [by apply Hch |]. by eapply Hrecv.
Qed.

Lemma transmit_no_raise {E} ch r (recv : ref → State E → Result (State E)) s :
  (∀ t, no_raise (recv r t)) → no_raise (transmit ch r recv s).
Proof. intros Hrecv. apply transmit_elim; intros w' _; [done | apply Hrecv]. Qed.

(** ** Go-Back-N: what a run keeps *)

Section GoBackNRuns.
Import GoBackNRDT.
Implicit Types (s : St) (self_receive : Receive).

#[local] Instance gbn_grows_refl : Reflexive gbn_grows.
Proof. intros s. by split. Qed.

#[local] Instance gbn_grows_trans : Transitive gbn_grows.
Proof.
  intros s1 s2 s3 [H1 H2 H3 H4 H5 H6] [K1 K2 K3 K4 K5 K6]. split.
  - congruence.
  - congruence.
  - intros HW. rewrite H1 in K3. specialize (H3 HW). specialize (K3 HW). lia.
  - by etrans.
  - lia.
  - intros r Hr. rewrite K6 by lia. by apply H6.
Qed.

Lemma gbn_grows_eng s s' :
  eng s' = eng s → heap (world s') = heap (world s) → gbn_grows s s'.
Proof.
  intros He Hh. split; rewrite ?He, ?Hh; try done.
  intros r _. by rewrite (deref_heap_eq _ _ _ Hh).
Qed.

Lemma gbn_grows_fields s s' :
  window_size (eng s') = window_size (eng s) →
  total_packets (eng s') = total_packets (eng s) →
  (0 ≤ window_size (eng s) → seq_num (eng s) ≤ seq_num (eng s')) →
  pending_packets (eng s) `prefix_of` pending_packets (eng s') →
  (∃ ps, heap (world s') = heap (world s) ++ ps) →
  gbn_grows s s'.
Proof.
  intros Hw Ht Hq Hp [ps Hh]. split; try done.
  - rewrite Hh, length_app. lia.
  - intros r Hr. unfold deref.
    by rewrite !list_lookup_total_alt, Hh, lookup_app_l by done.
Qed.

Lemma gbn_grows_channel ch packet s w' :
  channel_step ch packet (world s) w' → gbn_grows s (mkState (eng s) w').
Proof.
  intros H. split; try done.
  - cbn. pose proof (ce_length _ _ _ (cs_effect _ _ _ _ H)). lia.
  - intros r _. by eapply channel_step_logical.
Qed.

Lemma gbn_atom_grows s s' : gbn_atom s s' → gbn_grows s s'.
Proof.
  intros Hat. destruct Hat.
  all: try (by apply gbn_grows_eng).
  - by eapply gbn_grows_channel.
  - apply gbn_grows_fields; cbn; try done. exists []. by rewrite app_nil_r.
  - unfold _stop_timer. destruct (timer (eng s) !! k); [| reflexivity].
    apply gbn_grows_fields; cbn; try done. exists []. by rewrite heap_cancel, app_nil_r.
  - apply gbn_grows_fields; cbn; try done. exists []. by rewrite app_nil_r.
  - cbn [alloc]. apply gbn_grows_fields; cbn; try done.
    + by apply prefix_app_r.
    + by eexists.
  - apply gbn_grows_fields; cbn; try done; [lia |]. exists []. by rewrite app_nil_r.
  - apply gbn_grows_fields; cbn; try done. by eexists.
  - apply gbn_grows_fields; cbn; try done. by eexists.
  - apply gbn_grows_fields; cbn; try done. by eexists.
  - apply gbn_grows_fields; cbn; try done. exists []. by rewrite app_nil_r.
Qed.

Lemma gbn_steps_grow s s' : rtc gbn_atom s s' → gbn_grows s s'.
Proof.
  induction 1 as [| x y z Hxy _ IH]; [done |].
  etrans; [by apply gbn_atom_grows | done].
Qed.

Lemma gbn_first_window_grows s s' :
  gbn_first_window s → gbn_grows s s' → gbn_first_window s'.
Proof.
  intros [Hu Hq] [H1 H2 H3 H4 H5 H6]. split.
  - intros k Hk. rewrite H1, H2 in Hk. destruct (Hu k Hk) as (r & Hr & Hlt & Hl).
    exists r. split_and!.
    + by eapply prefix_lookup_Some.
    + lia.
    + by rewrite H6.
  - rewrite H1, H2. intros HW Hlt. specialize (H3 ltac:(lia)).
    specialize (Hq HW ltac:(lia)). lia.
Qed.

(** *** Before the first unit is sent *)

#[local] Instance gbn_stays_unsent_refl : Reflexive gbn_stays_unsent.
Proof. by intros s Hs. Qed.

#[local] Instance gbn_stays_unsent_trans : Transitive gbn_stays_unsent.
Proof.
  intros s1 s2 s3 H12 H23 H1. destruct (H12 H1) as (H2 & Hp & Hc).
  destruct (H23 H2) as (H3 & Hp' & Hc'). split_and!; [done | congruence | auto].
Qed.

Lemma gbn_stays_unsent_world s w' :
  (∀ r, Packet.seq (deref w' r) = Packet.seq (deref (world s) r)) →
  (only_callbacks (world s) → only_callbacks w') →
  gbn_stays_unsent s (mkState (eng s) w').
Proof.
  intros Hd Hc [H1 H2 H3]. split_and!; [| done | done].
  split; try done. intros r. cbn. rewrite Hd. apply H3.
Qed.

Lemma gbn_stays_unsent_channel ch packet s w' :
  channel_step ch packet (world s) w' → gbn_stays_unsent s (mkState (eng s) w').
Proof.
  intros Hcs. apply gbn_stays_unsent_world.
  - intros r. pose proof (channel_step_logical _ _ _ _ r Hcs) as Hl.
    unfold logical in Hl. congruence.
  - intros Hc t Ht. destruct (cs_threads _ _ _ _ Hcs) as [Heq | [d Heq]];
      rewrite Heq in Ht; [by apply Hc |].
    apply elem_of_app in Ht as [Ht | Ht%list_elem_of_singleton]; [by apply Hc |].
    subst. by eexists.
Qed.

Lemma gbn_unsent_alloc s e' w0 q :
  seq_num e' = seq_num (eng s) → sent_count e' = sent_count (eng s) →
  heap w0 = heap (world s) → 0 ≤ q →
  gbn_unsent s →
  gbn_unsent (mkState e' (alloc (Packet.new q None ACK) w0).2).
Proof.
  intros Hs Hc Hh Hq [H1 H2 H3]. split; cbn [eng]; try congruence.
  intros r. cbn [world]. rewrite deref_alloc. case_decide; [done |].
  rewrite (deref_heap_eq _ _ _ Hh). apply H3.
Qed.

Lemma gbn_receiver_unsent self_receive packet :
  (∀ r', preserves gbn_stays_unsent (self_receive r')) →
  preserves gbn_stays_unsent (_receiver self_receive packet).
Proof.
  intros Hrecv s s' Hs Hu. revert Hs. unfold _receiver.
  set (s0 := with_world _ s).
  pose proof (gu_heap _ Hu packet) as Hpk. pose proof (gu_seq _ Hu) as Hq.
  destruct (Packet.is_corrupt _); [| case_bool_decide]; cbn [alloc]; intros Hs.
  all: eapply (transmit_preserves gbn_stays_unsent) in Hs;
    [| intros; by eapply gbn_stays_unsent_channel | done].
  all: match type of Hs with gbn_stays_unsent ?s1 _ =>
         assert (gbn_unsent s1) as Hu1
           by (apply (gbn_unsent_alloc s); try done; cbn; lia)
       end.
  all: destruct (Hs Hu1) as (Hu' & Hp' & Hc'); split_and!; [done | by rewrite Hp' | done].
Qed.

Lemma gbn_ack_handler_unsent self_receive ack :
  preserves gbn_stays_unsent (_ack_handler self_receive ack).
Proof.
  intros s s' Hs Hu. revert Hs. unfold _ack_handler, with_world.
  cbn [eng world]. rewrite !deref_print.
  destruct (Packet.is_corrupt _).
  { intros [= <-]. by destruct Hu. }
  pose proof (gu_heap _ Hu ack) as Hpk. pose proof (gu_seq _ Hu) as Hq.
  rewrite (bool_decide_eq_false_2 (Packet.seq _ < _)), andb_false_r by lia.
  intros [= <-]. by destruct Hu.
Qed.

Lemma gbn_receive_unsent fuel packet : preserves gbn_stays_unsent (receive fuel packet).
Proof.
  revert packet. induction fuel as [| fuel IH]; intros packet s s' Hs; [done |].
  simpl in Hs. destruct (Packet.type _).
  - by eapply gbn_receiver_unsent.
  - by eapply gbn_ack_handler_unsent.
Qed.

Lemma gbn_receive_grows fuel packet : preserves gbn_grows (receive fuel packet).
Proof. intros s s' Hs. by eapply gbn_steps_grow, gbn_receive_atoms. Qed.

(** *** The first batch *)

Lemma gbn_send_first fuel s s' :
  gbn_unsent s → pending_packets (eng s) = [] → only_callbacks (world s) →
  send (receive fuel) s = Ok s' → gbn_run_inv s'.
Proof.
  intros Hu Hp Hcb. unfold send. case_bool_decide as Hdone.
  { intros [= <-]. left. split_and!; [by destruct Hu | done | done]. }
  intros Hs. apply bind_Ok in Hs as (s1 & H1 & [= <-]). right.
  set (W := window_size (eng s)) in *. set (N := total_packets (eng s)) in *.
  destruct (decide (W ≤ 0)) as [HW | HW].
  { unfold range in H1. rewrite seqZ_nil in H1 by lia. injection H1 as <-.
    split; cbn; fold W N; [lia | lia]. }
  set (L := λ (i : Z) (t : St),
         gbn_unsent t ∧ window_size (eng t) = W ∧ total_packets (eng t) = N
         ∧ length (pending_packets (eng t)) = Z.to_nat (Z.min i N)
         ∧ ∀ k, 0 ≤ k < Z.min i N →
             ∃ r, pending_packets (eng t) !! Z.to_nat k = Some r
                  ∧ (r < length (heap (world t)))%nat
                  ∧ logical (deref (world t) r) = (k, data_payload k, DATA)).
  assert (L (0 + (W - 0)) s1) as (Hu1 & HW1 & HN1 & _ & Hunits).
  { eapply (for_each_seqZ_invariant L); [lia | | | exact H1].
    - split_and!; try done; [rewrite Hp; simpl; lia | lia].
    - clear dependent s1. intros i t t' Hi (Hut & HWt & HNt & Hlen & Hk).
      pose proof (gu_seq _ Hut) as Hq. pose proof (gu_sent _ Hut) as Hc.
      case_bool_decide as Hlt.
      2:{ intros [= <-]. split_and!; try done.
          - rewrite Hlen. f_equal. lia.
          - intros k Hk'. apply Hk. lia. }
      cbn [alloc]. intros Hb. apply bind_Ok in Hb as (t2 & H2 & [= <-]).
      set (r := length (heap (world t))) in *.
      set (t1 := mkState _ _) in H2.
      assert (gbn_unsent t1) as Hu1.
      { split; [done | done |]. intros x. subst t1. cbn [world].
        rewrite deref_print, deref_set_heap_app. case_decide; [cbn; lia |].
        apply (gu_heap _ Hut). }
      assert (gbn_grows t1 t2 ∧ gbn_stays_unsent t1 t2) as [Hg Hst].
      { split.
        - eapply (transmit_preserves gbn_grows); [| | exact H2].
          + intros. by eapply gbn_grows_channel.
          + intros r'. apply gbn_receive_grows.
        - eapply (transmit_preserves gbn_stays_unsent); [| | exact H2].
          + intros. by eapply gbn_stays_unsent_channel.
          + intros r'. apply gbn_receive_unsent. }
      destruct (Hst Hu1) as (Hu2 & Hp2 & _).
      destruct Hg as [G1 G2 _ _ G5 G6].
      assert (logical (deref (world t1) r)
              = (i, data_payload i, DATA)) as Hnew.
      { subst t1. cbn [world]. rewrite deref_print, deref_set_heap_app.
        rewrite decide_True by done. unfold logical. cbn.
        rewrite Hq, Hc. repeat f_equal; lia. }
      assert (length (heap (world t1)) = S r) as Hlen1.
      { subst t1. cbn. rewrite length_app. simpl. lia. }
      set (t' := _start_timer _ t2).
      assert (pending_packets (eng t') = pending_packets (eng t) ++ [r]) as Hpt
        by (subst t'; cbn; by rewrite Hp2).
      assert (∀ x, deref (world t') x = deref (world t2) x) as Hdt by done.
      assert (length (heap (world t')) = length (heap (world t2))) as Hlt' by done.
      split_and!.
      + by destruct Hu2.
      + subst t'. cbn. rewrite G1. by cbn.
      + subst t'. cbn. rewrite G2. by cbn.
      + rewrite Hpt, length_app, Hlen. simpl. lia.
      + intros k Hk'. rewrite Hpt, Hlt'. setoid_rewrite Hdt.
        destruct (decide (k = i)) as [-> | Hne].
        * exists r. split_and!.
          -- rewrite lookup_app_r by lia.
             replace (Z.to_nat i - length (pending_packets (eng t)))%nat with 0%nat by lia.
             done.
          -- lia.
          -- rewrite <- Hnew. apply G6. lia.
        * destruct (Hk k ltac:(lia)) as (r' & Hr' & Hltr & Hl').
          exists r'. split_and!.
          -- by rewrite lookup_app_l by (by eapply lookup_lt_Some).
          -- lia.
          -- rewrite G6 by lia. rewrite <- Hl'. f_equal. subst t1. cbn [world].
             rewrite deref_print, deref_set_heap_app. case_decide; [lia | done]. }
  pose proof (gu_seq _ Hu1) as Hq1.
  split; cbn; rewrite ?HW1, ?HN1.
  - intros k Hk. apply Hunits. lia.
  - lia.
Qed.

(** *** The invariant of the runs *)

Lemma only_callbacks_fired h w : only_callbacks w → only_callbacks (mark_fired h w).
Proof.
  intros Hc t Ht. cbn in Ht.
  apply list_elem_of_lookup in Ht as [j Hj].
  destruct (decide (j = h)) as [-> | Hne].
  - rewrite list_lookup_alter_eq in Hj.
    destruct (threads w !! h) as [t0 |] eqn:Ht0; [| done].
    injection Hj as <-. cbn. apply Hc. by eapply list_elem_of_lookup_2.
  - rewrite list_lookup_alter_ne in Hj by done.
    apply Hc. by eapply list_elem_of_lookup_2.
Qed.

Lemma gbn_reachable_inv s : gbn_reachable s → gbn_run_inv s.
Proof.
  induction 1 as [ch total window tmo g | fuel s s' _ IH Hs | fuel s s' _ IH Hs
                  | fuel packet s s' _ IH Hs | fuel h s s' _ IH Hs].
  - left. split_and!; [by split | done |]. intros t Ht. by apply elem_of_nil in Ht.
  - destruct IH as [(Hu & Hp & Hc) | Hf].
    + eapply gbn_send_first; [| | | exact Hs]; [by destruct Hu | done | done].
    + right. eapply gbn_first_window_grows; [exact Hf |].
      by eapply gbn_steps_grow, gbn_start_atoms.
  - destruct IH as [(Hu & Hp & Hc) | Hf].
    + by eapply gbn_send_first.
    + right. eapply gbn_first_window_grows; [exact Hf |].
      eapply gbn_steps_grow, gbn_send_atoms; [| exact Hs].
      intros r'. apply gbn_receive_atoms.
  - destruct IH as [(Hu & Hp & Hc) | Hf].
    + left. destruct (gbn_receive_unsent _ _ _ _ Hs Hu) as (Hu' & Hp' & Hc').
      split_and!; [done | congruence | auto].
    + right. eapply gbn_first_window_grows; [exact Hf |].
      by eapply gbn_receive_grows.
  - destruct IH as [(Hu & Hp & Hc) | Hf].
    + left. unfold fire in Hs.
      destruct (threads (world s) !! h) as [[i a st] |] eqn:Hh;
        [| injection Hs as <-; done].
      destruct (Hc _ (list_elem_of_lookup_2 _ _ _ Hh)) as [packet Ha].
      cbn in Ha. subst a.
      destruct st; try (injection Hs as <-; done).
      assert (gbn_unsent (with_world (mark_fired h) s)) as Hu1 by (by destruct Hu).
      destruct (gbn_receive_unsent _ _ _ _ Hs Hu1) as (Hu' & Hp' & Hc').
      split_and!; [done | by rewrite Hp' |].
      apply Hc'. by apply only_callbacks_fired.
    + right. eapply gbn_first_window_grows; [exact Hf |].
      by eapply gbn_steps_grow, gbn_fire_atoms.
Qed.

(** *** No exception *)

Lemma gbn_send_no_raise self_receive s :
  (∀ r t, no_raise (self_receive r t)) → no_raise (send self_receive s).
Proof.
  intros Hrecv. unfold send. case_bool_decide; [done |].
  apply no_raise_bind; [| done].
  apply (for_each_no_raise (λ _, True)); [| done].
  intros i t _ _. split; [| done].
  case_bool_decide; [| done]. cbn [alloc].
  apply no_raise_bind; [| done]. by apply transmit_no_raise.
Qed.

Lemma gbn_receive_no_raise fuel packet s : no_raise (receive fuel packet s).
Proof.
  revert packet s. induction fuel as [| fuel IH]; intros packet s; [done |].
  simpl. destruct (Packet.type _).
  - unfold _receiver. destruct (Packet.is_corrupt _); [| case_bool_decide]; cbn [alloc];
      by apply transmit_no_raise.
  - unfold _ack_handler. destruct (Packet.is_corrupt _); [done |].
    destruct (_ && _); [| done]. case_bool_decide; [| done].
    by apply gbn_send_no_raise.
Qed.

Lemma gbn_on_timeout_no_raise fuel sq s :
  gbn_first_window s → no_raise (_on_timeout (receive fuel) sq s).
Proof.
  intros Hf. unfold _on_timeout.
  set (s0 := with_world _ s).
  assert (gbn_first_window s0) as Hf0 by (by destruct Hf).
  apply (for_each_no_raise (gbn_grows s0)); [| done].
  intros i t Hi Ht. unfold range in Hi. apply elem_of_seqZ in Hi.
  pose proof (gbn_first_window_grows _ _ Hf0 Ht) as [Hu Hq].
  destruct Ht as [G1 G2 G3 G4 G5 G6].
  pose proof (gf_seq _ Hf0) as Hq0.
  assert (0 < window_size (eng s0)) as HW by lia.
  specialize (Hq0 HW ltac:(lia)).
  pose proof (Z.mod_pos_bound i (window_size (eng s0)) HW) as Hmod.
  destruct (Hu (i `mod` window_size (eng s0)) ltac:(lia)) as (r & Hr & _).
  unfold pending_at. rewrite G1, Hr. cbn [mbind Result_bind bind].
  split.
  - apply no_raise_bind; [| done]. apply transmit_no_raise. intros; apply gbn_receive_no_raise.
  - intros t' Hb. apply bind_Ok in Hb as (t2 & H2 & [= <-]).
    etrans; [by split |]. etrans; [| apply gbn_atom_grows, gbn_at_start_timer].
    eapply (transmit_preserves gbn_grows); [| | exact H2].
    + intros. by eapply gbn_grows_channel.
    + intros r'. apply gbn_receive_grows.
Qed.

Lemma gbn_fire_no_raise fuel h s : gbn_run_inv s → no_raise (fire fuel h s).
Proof.
  intros Hinv. unfold fire.
  destruct (threads (world s) !! h) as [[i a st] |] eqn:Hh; [| done].
  destruct st; try done.
  destruct a as [[| sq []] | packet]; try done; [| apply gbn_receive_no_raise].
  destruct Hinv as [(_ & _ & Hc) | Hf].
  - destruct (Hc _ (list_elem_of_lookup_2 _ _ _ Hh)) as [packet Ha]. done.
  - apply gbn_on_timeout_no_raise. by destruct Hf.
Qed.

Lemma gbn_after_timeout_reachable : gbn_reachable gbn_after_timeout.
Proof.
  destruct (start 100 gbn_lossless) as [s1 | |] eqn:H1;
    [| by vm_compute in H1 | by vm_compute in H1].
  apply (gbn_reach_fire 100 0 s1).
  - apply (gbn_reach_start 100 gbn_lossless); [apply gbn_reach_init | exact H1].
  - unfold gbn_after_timeout. rewrite H1. simpl.
    destruct (fire 100 0 s1) as [s2 | |] eqn:H2; [done | |].
    + exfalso. assert ((s ← start 100 gbn_lossless; fire 100 0 s) = Raise e) as Hx
        by (by rewrite H1).
      by vm_compute in Hx.
    + exfalso. assert ((s ← start 100 gbn_lossless; fire 100 0 s) = OutOfFuel) as Hx
        by (by rewrite H1).
      by vm_compute in Hx.
Qed.

Lemma gbn_all_lost_started_reachable : gbn_reachable gbn_all_lost_started.
Proof.
  apply (gbn_reach_start 100 gbn_all_lost); [apply gbn_reach_init |].
  vm_compute; reflexivity.
Qed.



(** X8. What the timeout handler of Go-Back-N retransmits. In every
    state of a run in which a timeout timer is armed, for each index [i]
    of the loop of the handler (from [seq_num] to
    [min(seq_num + window_size, total)]): the index is at or past the
    window size, and the entry [pending_packets[i % window_size]] that
    the handler hands to the channel exists and is the unit of the first
    batch with sequence number and payload index [i % window_size],
    below the window size; it is still that object in every later state
    [t] of the engine. The handler never retransmits a unit with a
    sequence number at or past the window size. *)
Theorem gbn_timeout_resends_first_window s h d sq i :
  gbn_reachable s →
  threads (world s) !! h = Some (mkTimer d (OnTimeout [sq]) Armed) →
  seq_num (eng s) ≤ i
    < Z.min (seq_num (eng s) + window_size (eng s)) (total_packets (eng s)) →
  0 ≤ i `mod` window_size (eng s) < window_size (eng s)
  ∧ window_size (eng s) ≤ i
  ∧ ∃ r, ∀ t, gbn_grows s t →
      pending_at (i `mod` window_size (eng t)) t = Ok r
      ∧ logical (deref (world t) r)
        = (i `mod` window_size (eng s), data_payload (i `mod` window_size (eng s)), DATA).
Proof.
  intros Hinv%gbn_reachable_inv Hh Hi.
  destruct Hinv as [(_ & _ & Hc) | Hf].
  { destruct (Hc _ (list_elem_of_lookup_2 _ _ _ Hh)) as [packet Ha]. done. }
  assert (0 < window_size (eng s)) as HW by lia.
  pose proof (gf_seq _ Hf HW ltac:(lia)) as Hq.
  pose proof (Z.mod_pos_bound i (window_size (eng s)) HW) as Hmod.
  split_and!; [lia | lia | lia |].
  destruct (gf_units _ Hf (i `mod` window_size (eng s)) ltac:(lia)) as (r & Hr & Hlt & Hl).
  exists r. intros t [G1 G2 G3 G4 G5 G6]. split.
  - unfold pending_at. rewrite G1.
    by rewrite (prefix_lookup_Some _ _ _ _ Hr G4).
  - by rewrite G6.
Qed.

Lemma gbn_timeout_resends_first_window_witness :
  ∃ r, pending_at 1 gbn_all_lost_started = Ok r
       ∧ logical (deref (world gbn_all_lost_started) r) = (1, data_payload 1, DATA).
Proof.
  destruct (gbn_timeout_resends_first_window gbn_all_lost_started 0 1%Q 0 5
              gbn_all_lost_started_reachable)
    as (_ & _ & r & Hr).
  - vm_compute; reflexivity.
  - vm_compute. split; [discriminate | reflexivity].
  - exists r. apply (Hr gbn_all_lost_started). by split.
Defined.
End GoBackNRuns.
(** ** Stop-and-Wait: timers never raise *)

Section StopAndWaitNoRaise.
Import StopAndWaitRDT.
Implicit Types (s : St).

Lemma sw_atom_pending s s' :
  sw_atom s s' → pending_packet (eng s) ≠ None → pending_packet (eng s') ≠ None.
Proof.
  intros Hat. destruct Hat; try done.
  unfold _stop_timer. by destruct (timer (eng s)).
Qed.

Lemma sw_steps_pending s s' :
  rtc sw_atom s s' → pending_packet (eng s) ≠ None → pending_packet (eng s') ≠ None.
Proof. induction 1; eauto using sw_atom_pending. Qed.

Lemma sw_run_pending ch total tmo g s :
  sw_run ch total tmo g s →
  pending_packet (eng s) ≠ None ∨ threads (world s) = [].
Proof.
  induction 1 as [fuel s Hs | fuel h s s' _ IH Hs].
  - unfold start, send in Hs. revert Hs. case_bool_decide.
    + intros [= <-]. by right.
    + cbn [alloc]. intros Hs. apply bind_Ok in Hs as (s2 & H2 & [= <-]). left.
      apply (sw_transmit_atoms _ (receive fuel)) in H2;
        [| intros r'; apply sw_receive_atoms].
      apply sw_steps_pending in H2; done.
  - destruct IH as [Hp | Ht].
    + left. by eapply sw_steps_pending; [eapply sw_fire_atoms |].
    + unfold fire in Hs. rewrite Ht in Hs. injection Hs as <-. by right.
Qed.


End StopAndWaitNoRaise.
(** ** Stop-and-Wait without delay: the delivered data is a prefix *)

Section StopAndWaitPrefix.
Import StopAndWaitRDT.
Implicit Types (s : St) (self_receive : Receive).

#[global] Instance sw_quiet_refl : Reflexive sw_quiet.
Proof. intros s. by split. Qed.

#[global] Instance sw_quiet_trans : Transitive sw_quiet.
Proof.
  intros s1 s2 s3 H12 H23. split.
  - rewrite (sq_pending _ _ H23). apply (sq_pending _ _ H12).
  - rewrite (sq_received _ _ H23). apply (sq_received _ _ H12).
  - rewrite (sq_sent _ _ H23). apply (sq_sent _ _ H12).
  - rewrite (sq_seq _ _ H23). apply (sq_seq _ _ H12).
  - rewrite (sq_total _ _ H23). apply (sq_total _ _ H12).
  - rewrite (sq_buffer _ _ H23). apply (sq_buffer _ _ H12).
  - rewrite (sq_channel _ _ H23). apply (sq_channel _ _ H12).
  - pose proof (sq_len _ _ H12). pose proof (sq_len _ _ H23). lia.
  - intros r Hr. pose proof (sq_len _ _ H12).
    rewrite (sq_logical _ _ H23) by lia. by apply (sq_logical _ _ H12).
  - intros q Hq. by apply (sq_draws _ _ H23), (sq_draws _ _ H12).
  - intros Hn Ht. apply (sq_timers _ _ H23).
    + rewrite (sq_channel _ _ H12). by apply (sq_draws _ _ H12).
    + by apply (sq_timers _ _ H12).
Qed.

Lemma sw_quiet_holds s s' r q k : sw_quiet s s' → sw_holds s r q k → sw_holds s' r q k.
Proof.
  intros Hq [Hr Hl]. split; [pose proof (sq_len _ _ Hq); lia |].
  by rewrite (sq_logical _ _ Hq).
Qed.

Lemma sw_quiet_delivered s s' : sw_quiet s s' → sw_is_delivered s → sw_is_delivered s'.
Proof.
  intros Hq (r & Hp & Hh & Hc & Hs). exists r.
  rewrite (sq_pending _ _ Hq), (sq_seq _ _ Hq), (sq_received _ _ Hq),
    (sq_sent _ _ Hq), (sq_total _ _ Hq).
  split_and!; [done | by eapply sw_quiet_holds | lia | lia | done].
Qed.

Lemma sw_quiet_core s s' : sw_quiet s s' → sw_core s → sw_core s'.
Proof.
  intros Hq [H1 H2 H3 H4 H5]. split.
  - rewrite (sq_channel _ _ Hq). by apply (sq_draws _ _ Hq).
  - by apply (sq_timers _ _ Hq).
  - by rewrite (sq_received _ _ Hq).
  - rewrite (sq_received _ _ Hq), (sq_buffer _ _ Hq). done.
  - rewrite (sq_received _ _ Hq), (sq_buffer _ _ Hq). done.
Qed.

Lemma sw_quiet_phase s s' : sw_quiet s s' → sw_phase s → sw_phase s'.
Proof.
  intros Hq Hph. destruct Hph as [Hp Hr Hs | r Hp Hh Hs Hlt | Hd].
  - apply sw_idle; by rewrite ?(sq_pending _ _ Hq), ?(sq_received _ _ Hq), ?(sq_sent _ _ Hq).
  - apply (sw_waiting _ r);
      rewrite ?(sq_pending _ _ Hq), ?(sq_received _ _ Hq), ?(sq_sent _ _ Hq),
        ?(sq_seq _ _ Hq), ?(sq_total _ _ Hq); try done.
    by eapply sw_quiet_holds.
  - apply sw_delivered. by eapply sw_quiet_delivered.
Qed.

Lemma sw_quiet_safe s s' : sw_quiet s s' → sw_safe s → sw_safe s'.
Proof. intros Hq [Hc Hp]. split; [by eapply sw_quiet_core | by eapply sw_quiet_phase]. Qed.

Lemma sw_quiet_deliverable s s' p :
  sw_quiet s s' → sw_deliverable s p → sw_deliverable s' p.
Proof.
  intros Hq [Hp Hd]. split; [pose proof (sq_len _ _ Hq); lia |].
  pose proof (sq_logical _ _ Hq p Hp) as Hl. unfold logical in Hl.
  injection Hl as Hls Hlp Hlt. rewrite Hlt.
  revert Hd. destruct (Packet.type (deref (world s) p)).
  - by rewrite (sq_pending _ _ Hq).
  - intros [Hdel | Hseq]; [left; by eapply sw_quiet_delivered | right].
    by rewrite Hls, (sq_seq _ _ Hq).
Qed.

Lemma sw_quiet_intro s s' ps :
  pending_packet (eng s') = pending_packet (eng s) →
  received_count (eng s') = received_count (eng s) →
  sent_count (eng s') = sent_count (eng s) →
  seq_num (eng s') = seq_num (eng s) →
  total_packets (eng s') = total_packets (eng s) →
  buffer (eng s') = buffer (eng s) →
  channel (eng s') = channel (eng s) →
  heap (world s') = heap (world s) ++ ps →
  rng (world s') = rng (world s) → rng_pos (world s') = rng_pos (world s) →
  (only_timeouts (world s) → only_timeouts (world s')) →
  sw_quiet s s'.
Proof.
  intros H1 H2 H3 H4 H5 H6 H7 Hh Hr Hp Ht. split; try done.
  - rewrite Hh, length_app. lia.
  - intros r Hlt. unfold deref.
    by rewrite !list_lookup_total_alt, Hh, lookup_app_l by done.
  - intros q Hq n Hn. rewrite Hr. apply Hq. lia.
Qed.

Lemma sw_quiet_print l s : sw_quiet s (with_world (print l) s).
Proof. apply (sw_quiet_intro _ _ []); try done. cbn. by rewrite app_nil_r. Qed.

Lemma sw_quiet_channel p s w' :
  channel_step (channel (eng s)) p (world s) w' → sw_quiet s (mkState (eng s) w').
Proof.
  intros Hcs. split; try done.
  - cbn. pose proof (ce_length _ _ _ (cs_effect _ _ _ _ Hcs)). lia.
  - intros r _. by eapply channel_step_logical.
  - intros q Hq. by eapply never_below_step.
  - intros Hn Ht. cbn. unfold only_timeouts. by rewrite (cs_no_delay _ _ _ _ Hcs Hn).
Qed.

Lemma sw_quiet_alloc p s e' w0 :
  pending_packet e' = pending_packet (eng s) →
  received_count e' = received_count (eng s) →
  sent_count e' = sent_count (eng s) →
  seq_num e' = seq_num (eng s) →
  total_packets e' = total_packets (eng s) →
  buffer e' = buffer (eng s) →
  channel e' = channel (eng s) →
  heap w0 = heap (world s) → rng w0 = rng (world s) → rng_pos w0 = rng_pos (world s) →
  threads w0 = threads (world s) →
  sw_quiet s (mkState e' (alloc p w0).2).
Proof.
  intros H1 H2 H3 H4 H5 H6 H7 Hh Hr Hp Ht.
  apply (sw_quiet_intro _ _ [p]); try done.
  - cbn. by rewrite Hh.
  - unfold only_timeouts. cbn. by rewrite Ht.
Qed.

Lemma sw_quiet_start_timer s : sw_quiet s (_start_timer s).
Proof.
  apply (sw_quiet_intro _ _ []); try done; [cbn; by rewrite app_nil_r |].
  intros Ht t. cbn. rewrite elem_of_app, list_elem_of_singleton.
  intros [Hin | ->]; [by apply Ht | by eexists].
Qed.

Lemma only_timeouts_alter (f : Timer → Timer) h w :
  (∀ t, action (f t) = action t) →
  only_timeouts w → only_timeouts (set_threads (alter f h (threads w)) w).
Proof.
  intros Hf Hc t Ht. cbn in Ht.
  apply list_elem_of_lookup in Ht as [j Hj].
  destruct (decide (j = h)) as [-> | Hne].
  - rewrite list_lookup_alter_eq in Hj.
    destruct (threads w !! h) as [t0 |] eqn:Ht0; [| done].
    injection Hj as <-. rewrite Hf. apply Hc. by eapply list_elem_of_lookup_2.
  - rewrite list_lookup_alter_ne in Hj by done.
    apply Hc. by eapply list_elem_of_lookup_2.
Qed.

Lemma only_timeouts_cancel h w : only_timeouts w → only_timeouts (cancel h w).
Proof.
  intros Hc. unfold cancel.
  destruct (threads w !! h) as [[i a []] |] eqn:Hh; try done.
  intros t Ht. cbn in Ht.
  apply list_elem_of_lookup in Ht as [j Hj].
  destruct (decide (j = h)) as [-> | Hne].
  - rewrite list_lookup_insert_eq in Hj by (by eapply lookup_lt_Some).
    injection Hj as <-. apply (Hc _ (list_elem_of_lookup_2 _ _ _ Hh)).
  - rewrite list_lookup_insert_ne in Hj by done.
    apply Hc. by eapply list_elem_of_lookup_2.
Qed.

Lemma sw_quiet_stop_timer s : sw_quiet s (_stop_timer s).
Proof.
  unfold _stop_timer. destruct (timer (eng s)) as [h |]; [| reflexivity].
  apply (sw_quiet_intro _ _ []); try done; cbn.
  - by rewrite heap_cancel, app_nil_r.
  - apply rng_cancel.
  - apply rng_pos_cancel.
  - apply only_timeouts_cancel.
Qed.

Lemma sw_quiet_fired h s : sw_quiet s (with_world (mark_fired h) s).
Proof.
  apply (sw_quiet_intro _ _ []); try done; [cbn; by rewrite app_nil_r |].
  by apply only_timeouts_alter.
Qed.

(** *** The handlers *)

Lemma sw_transmit_safe self_receive p s s' :
  sw_keeps_safe self_receive → sw_safe s → sw_deliverable s p →
  transmit (channel (eng s)) p self_receive s = Ok s' → sw_safe s'.
Proof.
  intros Hk Hs Hd. apply transmit_step_elim.
  - intros w' Hcs [= <-]. eapply sw_quiet_safe; [by eapply sw_quiet_channel | done].
  - intros w' Hcs _ Hs'. pose proof (sw_quiet_channel _ _ _ Hcs) as Hq.
    eapply Hk; [| | exact Hs'].
    + by eapply sw_quiet_safe.
    + by eapply sw_quiet_deliverable.
Qed.

Lemma sw_core_eng s e' :
  channel e' = channel (eng s) → received_count e' = received_count (eng s) →
  buffer e' = buffer (eng s) →
  sw_core s → sw_core (mkState e' (world s)).
Proof. intros H1 H2 H3 [? ? ? ? ?]. split; cbn; rewrite ?H1, ?H2, ?H3; done. Qed.

Lemma sw_ready_phase s :
  total_packets (eng s) ≤ sent_count (eng s) → sw_ready s → sw_phase s.
Proof.
  intros Hdone [(Hp & Hr & Hs) | (r & Hp & Hh & Hc & Hs)].
  - by apply sw_idle.
  - apply sw_delivered. exists r. split_and!; [done | done | lia | lia |].
    right. lia.
Qed.

Lemma sw_send_safe self_receive s s' :
  sw_keeps_safe self_receive → sw_core s → sw_ready s →
  send self_receive s = Ok s' → sw_safe s'.
Proof.
  intros Hk Hc Hr. unfold send. case_bool_decide as Hdone.
  - intros [= <-].
    eapply (sw_quiet_safe s); [| split; [done | by apply sw_ready_phase]].
    apply (sw_quiet_intro _ _ []); try done. cbn. by rewrite app_nil_r.
  - cbn [alloc]. intros Hs. apply bind_Ok in Hs as (s2 & H2 & [= <-]).
    eapply sw_quiet_safe; [apply sw_quiet_start_timer |].
    set (r := length (heap (world s))) in *.
    set (P := Packet.new (seq_num (eng s)) (data_payload (sent_count (eng s))) DATA) in *.
    set (s1 := mkState _ _) in H2.
    assert (sent_count (eng s) = received_count (eng s)) as Hsr.
    { destruct Hr as [(_ & -> & ->) | (_ & _ & _ & _ & [? | ?])]; [done | done | lia]. }
    assert (deref (world s1) r = P) as HP.
    { subst s1. cbn [world]. rewrite deref_print, deref_set_heap_app.
      by rewrite decide_True. }
    assert (length (heap (world s1)) = S r) as Hlen.
    { subst s1. cbn. rewrite length_app. simpl. lia. }
    eapply (sw_transmit_safe _ r s1); [done | | | exact H2].
    + split.
      * eapply (sw_quiet_core (mkState (set_pending_packet (Some r) (eng s)) (world s))).
        -- apply (sw_quiet_intro _ _ [P]); done.
        -- by apply sw_core_eng.
      * apply (sw_waiting _ r); [done | | done | cbn; lia].
        split; [lia |]. rewrite HP. unfold logical, P. cbn. by rewrite Hsr.
    + split; [lia |]. by rewrite HP.
Qed.

Lemma sw_deliverable_ack e w0 q :
  sw_is_delivered (mkState e (alloc (Packet.new q None ACK) w0).2) ∨ q = 1 - seq_num e →
  sw_deliverable (mkState e (alloc (Packet.new q None ACK) w0).2) (length (heap w0)).
Proof.
  intros H. split; [cbn; rewrite length_app; simpl; lia |].
  cbn [world]. rewrite deref_alloc, decide_True by done. done.
Qed.

Lemma sw_receiver_safe self_receive p s s' :
  sw_keeps_safe self_receive → sw_safe s →
  pending_packet (eng s) = Some p →
  _receiver self_receive p s = Ok s' → sw_safe s'.
Proof.
  intros Hk Hs Hp. unfold _receiver.
  set (s0 := with_world _ s).
  assert (sw_safe s0) as [Hc0 Hph0] by (eapply sw_quiet_safe; [apply sw_quiet_print | done]).
  assert (pending_packet (eng s0) = Some p) as Hp0 by done.
  clearbody s0. clear s Hs Hp.
  destruct (Packet.is_corrupt _) eqn:Hcor; [| case_bool_decide as Hseq]; cbn [alloc].
  - (* corrupt *)
    set (s1 := mkState _ _).
    assert (sw_quiet s0 s1) as Hq by (by apply sw_quiet_alloc).
    intros Hs'. eapply (sw_transmit_safe _ _ s1); [done | | | exact Hs'].
    + by eapply sw_quiet_safe.
    + apply sw_deliverable_ack. by right.
  - (* the expected unit *)
    destruct Hph0 as [Hn _ _ | r Hr [Hlt Hl] Hsr Hst | (r & Hr & [Hlt Hl] & _)];
      [congruence | | ].
    2:{ exfalso. assert (r = p) as -> by congruence.
        unfold logical in Hl. injection Hl as Hl _ _. lia. }
    assert (r = p) as -> by congruence.
    unfold logical in Hl. injection Hl as Hl1 Hl2 Hl3.
    pose proof (sc_count _ Hc0) as Hcnt.
    set (s1 := mkState _ _).
    assert (sw_is_delivered s1) as Hdel.
    { exists p. subst s1. cbn [eng world]. split_and!.
      - done.
      - split; [cbn; rewrite length_app; simpl; lia |].
        cbn [world alloc snd]. rewrite deref_set_heap_app, decide_False by (cbn; lia).
        rewrite deref_print. unfold logical. rewrite Hl1, Hl2, Hl3. cbn.
        repeat f_equal; lia.
      - cbn. lia.
      - cbn. lia.
      - left. cbn. lia. }
    intros Hs'. eapply (sw_transmit_safe _ _ s1); [done | | | exact Hs'].
    + split; [| by apply sw_delivered].
      destruct Hc0 as [C1 C2 C3 C4 C5]. subst s1. split; cbn [eng world].
      * intros n Hn. apply C1. exact Hn.
      * exact C2.
      * cbn. lia.
      * intros i Hi. cbn in *. destruct (decide (i = received_count (eng s0))) as [-> | Hne].
        -- by rewrite lookup_insert_eq, Hl2.
        -- rewrite lookup_insert_ne by done. apply C4. lia.
      * intros j. cbn. rewrite dom_insert, elem_of_union, elem_of_singleton.
        intros [-> | Hj%C5]; lia.
    + apply sw_deliverable_ack. by left.
  - (* a duplicate *)
    destruct Hph0 as [Hn _ _ | r Hr [Hlt Hl] Hsr Hst | Hdel]; [congruence | | ].
    { exfalso. assert (r = p) as -> by congruence.
      unfold logical in Hl. injection Hl as Hl _ _. done. }
    set (s1 := mkState _ _).
    assert (sw_quiet s0 s1) as Hq by (by apply sw_quiet_alloc).
    intros Hs'. eapply (sw_transmit_safe _ _ s1); [done | | | exact Hs'].
    + eapply sw_quiet_safe; [done |]. split; [done | by apply sw_delivered].
    + apply sw_deliverable_ack. left. by eapply sw_quiet_delivered.
Qed.

Lemma sw_ack_handler_safe self_receive a s s' :
  sw_keeps_safe self_receive → sw_safe s →
  (a < length (heap (world s)))%nat →
  sw_is_delivered s ∨ Packet.seq (deref (world s) a) = 1 - seq_num (eng s) →
  _ack_handler self_receive a s = Ok s' → sw_safe s'.
Proof.
  intros Hk Hs Ha Hd. unfold _ack_handler.
  set (s0 := with_world _ s).
  assert (sw_quiet s s0) as Hq0 by apply sw_quiet_print.
  assert (sw_safe s0) as Hs0 by (by eapply sw_quiet_safe).
  assert (sw_is_delivered s0 ∨ Packet.seq (deref (world s0) a) = 1 - seq_num (eng s0))
    as Hd0 by (destruct Hd; [left; by eapply sw_quiet_delivered | by right]).
  clearbody s0. clear s Hs Ha Hd Hq0.
  destruct (Packet.is_corrupt _).
  { intros [= <-]. eapply sw_quiet_safe; [apply sw_quiet_print | done]. }
  destruct (pending_packet (eng s0)) as [r |] eqn:Hr; [| done].
  case_bool_decide as Hseq; [| by intros [= <-]].
  assert (sw_is_delivered s0) as (r' & Hr' & Hh & Hc & Hsent).
  { destruct Hd0 as [Hdel | Hnak]; [done |].
    destruct Hs0 as [_ [Hn _ _ | r' Hr' [Hlt Hl] Hsr Hst | Hdel]];
      [congruence | | done].
    exfalso. assert (r' = r) as -> by congruence.
    unfold logical in Hl. injection Hl as Hl _ _. lia. }
  assert (r' = r) as -> by congruence.
  set (s2 := with_world _ (_stop_timer s0)).
  assert (sw_quiet s0 s2) as Hq2.
  { etrans; [apply sw_quiet_stop_timer | apply sw_quiet_print]. }
  clearbody s2.
  intros Hs'. eapply sw_send_safe; [done | | | exact Hs'].
  - apply (sw_core_eng s2); try done. eapply sw_quiet_core; [done | by destruct Hs0].
  - right. exists r. unfold with_eng. cbn.
    rewrite (sq_pending _ _ Hq2), (sq_seq _ _ Hq2), (sq_received _ _ Hq2),
      (sq_total _ _ Hq2), (sq_sent _ _ Hq2).
    split_and!; [done | | lia | lia | lia].
    eapply (sw_quiet_holds s0 s2) in Hh; [| done]. exact Hh.
Qed.

Lemma sw_receive_safe fuel : sw_keeps_safe (receive fuel).
Proof.
  induction fuel as [| fuel IH]; intros p s s' Hs [Hp Hd] Hr; [done |].
  simpl in Hr. destruct (Packet.type (deref (world s) p)).
  - by eapply sw_receiver_safe.
  - by eapply sw_ack_handler_safe.
Qed.

Lemma sw_safe_pending s r :
  sw_safe s → pending_packet (eng s) = Some r → sw_deliverable s r.
Proof.
  intros [_ Hph] Hr.
  destruct Hph as [Hn _ _ | r' Hr' [Hlt Hl] _ _ | (r' & Hr' & [Hlt Hl] & _)];
    [congruence | |].
  all: assert (r' = r) as -> by congruence.
  all: unfold logical in Hl; injection Hl as _ _ Hty.
  all: split; [done | by rewrite Hty].
Qed.

Lemma sw_on_timeout_safe fuel s s' :
  sw_safe s → _on_timeout (receive fuel) s = Ok s' → sw_safe s'.
Proof.
  intros Hs. unfold _on_timeout.
  destruct (pending_packet (eng s)) as [r |] eqn:Hr; [| done].
  intros Hs'. apply bind_Ok in Hs' as (s2 & H2 & [= <-]).
  eapply sw_quiet_safe; [apply sw_quiet_start_timer |].
  set (s1 := with_world _ s) in H2.
  assert (sw_quiet s s1) as Hq by apply sw_quiet_print.
  eapply (sw_transmit_safe _ r s1); [apply sw_receive_safe | | | exact H2].
  - by eapply sw_quiet_safe.
  - eapply sw_quiet_deliverable; [done |]. by apply sw_safe_pending.
Qed.

Lemma sw_fire_safe fuel h s s' : sw_safe s → fire fuel h s = Ok s' → sw_safe s'.
Proof.
  intros Hs. unfold fire.
  destruct (threads (world s) !! h) as [[i a st] |] eqn:Hh; [| by intros [= <-]].
  destruct st; try (by intros [= <-]).
  destruct (sc_timers _ (proj1 Hs) _ (list_elem_of_lookup_2 _ _ _ Hh)) as [args Ha].
  cbn in Ha. subst a. intros Hs'.
  eapply sw_on_timeout_safe; [| exact Hs'].
  eapply sw_quiet_safe; [apply sw_quiet_fired | done].
Qed.

Lemma sw_run_safe ch total tmo g s :
  (delay ch == 0)%Q → (∀ n, 0 <= g n)%Q →
  sw_run ch total tmo g s → sw_safe s.
Proof.
  intros Hd Hg. induction 1 as [fuel s Hs | fuel h s s' _ IH Hs].
  - unfold start in Hs. eapply sw_send_safe; [apply sw_receive_safe | | | exact Hs].
    + split; cbn.
      * by apply never_below_zero.
      * intros t Ht. by apply elem_of_nil in Ht.
      * done.
      * intros i Hi. lia.
      * intros j Hj. by rewrite dom_empty, elem_of_empty in Hj.
    + by left.
  - by eapply sw_fire_safe.
Qed.

Lemma sw_steps_total s s' :
  rtc sw_atom s s' → total_packets (eng s') = total_packets (eng s).
Proof.
  induction 1 as [| x y z Hxy _ IH]; [done |]. rewrite IH.
  destruct Hxy; try done. unfold _stop_timer. by destruct (timer (eng x)).
Qed.

Lemma sw_run_total ch total tmo g s :
  sw_run ch total tmo g s → total_packets (eng s) = total.
Proof.
  induction 1 as [fuel s Hs | fuel h s s' _ IH Hs].
  - apply sw_start_atoms in Hs. by apply sw_steps_total in Hs.
  - apply sw_fire_atoms in Hs. apply sw_steps_total in Hs. congruence.
Qed.

Lemma sw_core_get_data s :
  sw_core s → get_data (eng s) = expected_payloads (received_count (eng s)).
Proof.
  intros [_ _ Hc Hb Hk]. unfold get_data, expected_payloads.
  rewrite (sorted_values_contiguous _ (received_count (eng s))).
  - apply list_fmap_ext. intros i j Hj.
    apply list_elem_of_lookup_2, elem_of_seqZ in Hj.
    by rewrite lookup_total_alt, Hb by lia.
  - intros j. split; [apply Hk |]. intros Hj. apply elem_of_dom. rewrite Hb by done. eauto.
Qed.


End StopAndWaitPrefix.
(** ** Stop-and-Wait: a corrupted unit is never repaired *)

Section StopAndWaitStall.
Import StopAndWaitRDT.
Implicit Types (s t : St).

#[local] Instance sw_still_refl : Reflexive sw_still.
Proof. intros s. split; [reflexivity |]. exists []. by rewrite app_nil_r. Qed.

#[local] Instance sw_still_trans : Transitive sw_still.
Proof.
  intros s1 s2 s3 [H12 [ps1 Hp1]] [H23 [ps2 Hp2]]. split; [by etrans |].
  exists (ps1 ++ ps2). by rewrite Hp2, Hp1, app_assoc.
Qed.

Lemma sw_still_stalled r s t : sw_still s t → sw_stalled r s → sw_stalled r t.
Proof.
  intros [Hq [ps Hps]] [H1 H2 H3 H4 H5 H6 H7 H8].
  assert (deref (world t) r = deref (world s) r) as Hd.
  { unfold deref. by rewrite !list_lookup_total_alt, Hps, lookup_app_l. }
  split; rewrite ?Hd, ?(sq_pending _ _ Hq), ?(sq_seq _ _ Hq), ?(sq_channel _ _ Hq);
    try done.
  - pose proof (sq_len _ _ Hq). lia.
  - by apply (sq_timers _ _ Hq).
  - by apply (sq_draws _ _ Hq).
  - by apply (sq_draws _ _ Hq).
Qed.

Lemma sw_still_print l s : sw_still s (with_world (print l) s).
Proof. split; [apply sw_quiet_print |]. exists []. by rewrite app_nil_r. Qed.

Lemma sw_still_channel p s w' :
  never_below (corruption (channel (eng s))) (world s) →
  channel_step (channel (eng s)) p (world s) w' → sw_still s (mkState (eng s) w').
Proof.
  intros Hn Hcs. split; [by eapply sw_quiet_channel |].
  exists []. cbn. by rewrite (cs_no_corrupt _ _ _ _ Hcs Hn), app_nil_r.
Qed.

Lemma sw_still_start_timer s : sw_still s (_start_timer s).
Proof. split; [apply sw_quiet_start_timer |]. exists []. by rewrite app_nil_r. Qed.

Lemma sw_still_fired h s : sw_still s (with_world (mark_fired h) s).
Proof. split; [apply sw_quiet_fired |]. exists []. by rewrite app_nil_r. Qed.

(** The acknowledgment the receiver makes for a corrupt unit is for the
    other bit: the sender ignores it. *)
Lemma sw_stalled_nak fuel r s t a :
  sw_stalled r s →
  heap (world s) !! a = Some (Packet.new (1 - seq_num (eng s)) None ACK) →
  receive fuel a s = Ok t → sw_still s t.
Proof.
  intros Hst Ha. destruct fuel as [| fuel]; [done |]. simpl.
  rewrite (deref_lookup _ _ _ Ha). cbn [Packet.type Packet.new].
  unfold _ack_handler, with_world. cbn [eng world].
  rewrite !deref_print, (deref_lookup _ _ _ Ha), new_not_corrupt.
  rewrite (st_pending _ _ Hst). rewrite deref_print.
  rewrite bool_decide_eq_false_2.
  2:{ rewrite (st_seq _ _ Hst). cbn. lia. }
  intros [= <-]. apply (sw_still_print _ s).
Qed.

Lemma sw_stalled_receive fuel r s t :
  sw_stalled r s → receive fuel r s = Ok t → sw_still s t.
Proof.
  intros Hst. destruct fuel as [| fuel]; [done |]. simpl.
  rewrite (st_type _ _ Hst). unfold _receiver.
  set (s0 := with_world _ s).
  assert (sw_still s s0) as H0 by apply sw_still_print.
  assert (sw_stalled r s0) as Hst0 by (by eapply sw_still_stalled).
  rewrite (st_corrupt _ _ Hst0). cbn [alloc].
  set (s1 := mkState _ _).
  assert (sw_still s0 s1) as H1.
  { split; [by apply sw_quiet_alloc |]. by eexists. }
  assert (sw_stalled r s1) as Hst1 by (by eapply sw_still_stalled).
  intros Ht. etrans; [exact H0 |]. etrans; [exact H1 |]. revert Ht.
  apply transmit_step_elim.
  - intros w' Hcs [= <-].
    eapply (sw_still_channel _ s1 w'); [apply (st_no_corruption _ _ Hst1) | exact Hcs].
  - intros w' Hcs _ Ht.
    assert (sw_still s1 (mkState (eng s1) w')) as H2
      by (eapply (sw_still_channel _ s1 w'); [apply (st_no_corruption _ _ Hst1) | exact Hcs]).
    etrans; [exact H2 |].
    eapply (sw_stalled_nak fuel r); [by eapply sw_still_stalled | | exact Ht].
    destruct H2 as [_ [ps ->]]. subst s1. cbn.
    rewrite lookup_app_l by (rewrite length_app; simpl; lia).
    by rewrite lookup_app_r, Nat.sub_diag by done.
Qed.

Lemma sw_stalled_fire fuel h r s t :
  sw_stalled r s → fire fuel h s = Ok t → sw_still s t.
Proof.
  intros Hst. unfold fire.
  destruct (threads (world s) !! h) as [[i a st] |] eqn:Hh; [| by intros [= <-]].
  destruct st; try (by intros [= <-]).
  destruct (st_timers _ _ Hst _ (list_elem_of_lookup_2 _ _ _ Hh)) as [args Ha].
  cbn in Ha. subst a.
  set (s1 := with_world _ s).
  assert (sw_still s s1) as H1 by apply sw_still_fired.
  assert (sw_stalled r s1) as Hst1 by (by eapply sw_still_stalled).
  unfold _on_timeout. rewrite (st_pending _ _ Hst1).
  set (s2 := with_world _ s1).
  assert (sw_still s1 s2) as H2 by apply sw_still_print.
  assert (sw_stalled r s2) as Hst2 by (by eapply sw_still_stalled).
  intros Ht. apply bind_Ok in Ht as (s3 & H3 & [= <-]).
  etrans; [exact H1 |]. etrans; [exact H2 |]. etrans; [| apply sw_still_start_timer].
  revert H3. apply transmit_step_elim.
  - intros w' Hcs [= <-].
    eapply (sw_still_channel _ s2 w'); [apply (st_no_corruption _ _ Hst2) | exact Hcs].
  - intros w' Hcs _ Ht.
    assert (sw_still s2 (mkState (eng s2) w')) as H3
      by (eapply (sw_still_channel _ s2 w'); [apply (st_no_corruption _ _ Hst2) | exact Hcs]).
    etrans; [exact H3 |].
    eapply (sw_stalled_receive fuel r); [by eapply sw_still_stalled | exact Ht].
Qed.


Lemma sw_corrupted_started_draws q :
  Qltb pass q = false →
  never_below q (world sw_corrupted_started).
Proof.
  intros Hq n Hn.
  assert (rng_pos (world sw_corrupted_started) = 6%nat) as Hpos by (vm_compute; reflexivity).
  assert (rng (world sw_corrupted_started) = draws [pass; drop] pass) as ->
    by (vm_compute; reflexivity).
  rewrite Hpos in Hn. destruct n as [| [| [| n]]]; [lia | lia | lia |]. exact Hq.
Qed.

End StopAndWaitStall.
(** ** The general results at concrete inputs *)

Lemma sw_lossless_delivery_witness :
  ∃ s', StopAndWaitRDT.start 6
          (mkState (StopAndWaitRDT.init lossless_channel 3 1) (empty_world (λ _, pass)))
        = Ok s'
        ∧ StopAndWaitRDT.get_data (eng s') = expected_payloads 3
        ∧ StopAndWaitRDT.sent_count (eng s') = 3
        ∧ StopAndWaitRDT.running (eng s') = false.
Proof.
  apply (sw_lossless_delivery lossless_channel 3 1 (λ _, pass) 6).
  - repeat split; reflexivity.
  - intros n. vm_compute. discriminate.
  - lia.
  - simpl. lia.
Defined.

Lemma gbn_duplicate_ack_ignored_witness :
  GoBackNRDT._ack_handler (GoBackNRDT.receive 100) 4 gbn_ack_arrives = Ok gbn_ack_handled
  ∧ GoBackNRDT.seq_num (eng gbn_ack_handled) = 8
  ∧ ∃ t', GoBackNRDT._ack_handler (GoBackNRDT.receive 100) 4 gbn_ack_handled = Ok t'
          ∧ GoBackNRDT.seq_num (eng t') = GoBackNRDT.seq_num (eng gbn_ack_handled)
          ∧ heap (world t') = heap (world gbn_ack_handled)
          ∧ length (threads (world t')) = length (threads (world gbn_ack_handled))
          ∧ sent_units (world t') = sent_units (world gbn_ack_handled).
Proof.
  assert (GoBackNRDT._ack_handler (GoBackNRDT.receive 100) 4 gbn_ack_arrives
          = Ok gbn_ack_handled) as Hs by (vm_compute; reflexivity).
  split; [exact Hs |]. split; [vm_compute; reflexivity |].
  assert (0 ≤ GoBackNRDT.window_size (eng gbn_ack_arrives)) as H1
    by (vm_compute; discriminate).
  assert (Packet.is_corrupt (deref (world gbn_ack_arrives) 4) = false) as H2
    by (vm_compute; reflexivity).
  assert (GoBackNRDT.seq_num (eng gbn_ack_arrives) - GoBackNRDT.window_size (eng gbn_ack_arrives)
          ≤ Packet.seq (deref (world gbn_ack_arrives) 4)
          < GoBackNRDT.seq_num (eng gbn_ack_arrives)) as H3
    by (vm_compute; split; [discriminate | reflexivity]).
  assert (gbn_mono gbn_ack_handled gbn_ack_handled) as H4
    by (split; [reflexivity | reflexivity | intros _; apply Z.le_refl | apply Z.le_refl]).
  assert (Packet.is_corrupt (deref (world gbn_ack_handled) 4) = false) as H5
    by (vm_compute; reflexivity).
  assert (Packet.seq (deref (world gbn_ack_handled) 4)
          = Packet.seq (deref (world gbn_ack_arrives) 4)) as H6
    by (vm_compute; reflexivity).
  exact (gbn_duplicate_ack_ignored 100 4%nat gbn_ack_arrives gbn_ack_handled
           gbn_ack_handled 4%nat (GoBackNRDT.receive 100) H1 H2 H3 Hs H4 H5 H6).
Defined.
(** ** What the checksum does not see *)

Section ChecksumOrder.

Lemma sum_bytes_app a b :
  Packet.sum_bytes (a +:+ b) = Packet.sum_bytes a + Packet.sum_bytes b.
Proof. induction a as [| c a IH]; simpl; [done |]. rewrite IH. lia. Qed.

Lemma sum_bytes_list s :
  Packet.sum_bytes s
  = foldr (λ c acc, Z.of_N (Ascii.N_of_ascii c) + acc) 0 (String.list_ascii_of_string s).
Proof. induction s as [| c s IH]; simpl; [done |]. by rewrite IH. Qed.

Lemma sum_bytes_permutation a b :
  String.list_ascii_of_string a ≡ₚ String.list_ascii_of_string b →
  Packet.sum_bytes a = Packet.sum_bytes b.
Proof.
  rewrite !sum_bytes_list. generalize (String.list_ascii_of_string a), (String.list_ascii_of_string b).
  induction 1 as [| x l l' _ IH | x y l | l l' l'' _ IH1 _ IH2]; simpl; lia.
Qed.

(** X14. The checksum is the sum of the bytes of the formatted fields, so
    it does not depend on their order: two payloads with the same bytes
    in a different order give the same checksum, and a packet whose
    payload is replaced by such a payload still passes the integrity
    check. A missing payload and the payload ["None"] are not told apart
    either. *)
Theorem checksum_ignores_byte_order sq ty p1 p2 :
  String.list_ascii_of_string p1 ≡ₚ String.list_ascii_of_string p2 →
  Packet.checksum_of sq (Some p1) ty = Packet.checksum_of sq (Some p2) ty
  ∧ Packet.is_corrupt
      (Packet.mk sq (Some p2) ty (Packet.checksum (Packet.new sq (Some p1) ty))) = false
  ∧ Packet.checksum_of sq None ty = Packet.checksum_of sq (Some "None") ty.
Proof.
  intros Hp.
  assert (Packet.checksum_of sq (Some p1) ty = Packet.checksum_of sq (Some p2) ty) as Heq.
  { unfold Packet.checksum_of. f_equal. rewrite !sum_bytes_app. cbn [Packet.str_payload].
    by rewrite (sum_bytes_permutation p1 p2). }
  split_and!; [exact Heq | | reflexivity].
  apply is_corrupt_false_iff. exact Heq.
Qed.

Lemma checksum_ignores_byte_order_witness :
  Packet.checksum_of 0 (Some "DATA_12") DATA = Packet.checksum_of 0 (Some "DATA_21") DATA
  ∧ Packet.is_corrupt
      (Packet.mk 0 (Some "DATA_21") DATA (Packet.checksum (Packet.new 0 (Some "DATA_12") DATA)))
    = false.
Proof.
  destruct (checksum_ignores_byte_order 0 DATA "DATA_12" "DATA_21") as (H1 & H2 & _).
  - simpl. do 5 apply perm_skip. apply perm_swap.
  - split; [exact H1 | exact H2].
Defined.

End ChecksumOrder.
(** ** A delayed unit *)

Lemma delay_time_bounds (m x : Q) :
  (0 <= m)%Q → (0 <= x)%Q → (x <= 1)%Q →
  (0 <= 0 + (m - 0) * x)%Q ∧ (0 + (m - 0) * x <= m)%Q.
Proof. intros Hm H0 H1. split; nra. Qed.

(** X16. What the channel does with a unit it delays. With draws in
    [0, 1] and a maximal delay that is not negative, a call of
    [transmit] whose callback does nothing returns, leaves the engine
    alone and starts at most one timer thread; that thread holds the
    delivery of the very object that was transmitted, is armed, and its
    delay lies between 0 and [max_delay]. *)
Theorem transmit_delay_bounded {E} ch packet (s : State E) :
  (0 <= max_delay ch)%Q →
  (∀ n, (0 <= rng (world s) n)%Q ∧ (rng (world s) n <= 1)%Q) →
  ∃ s', transmit ch packet (λ _ t, Ok t) s = Ok s'
        ∧ eng s' = eng s
        ∧ (threads (world s') = threads (world s)
           ∨ ∃ d, threads (world s')
                  = threads (world s) ++ [mkTimer d (Callback packet) Armed]
                  ∧ (0 <= d)%Q ∧ (d <= max_delay ch)%Q).
Proof.
  intros Hm Hr. unfold transmit. cbn [random].
  destruct (Qltb _ (loss ch)).
  { eexists. split; [reflexivity |]. split; [done | by left]. }
  destruct (Qltb _ (corruption ch)); cbn [rng rng_pos print set_heap heap threads stdout];
    (destruct (Qltb _ (delay ch)); cbn [start_thread snd random];
     (eexists; split; [reflexivity |]; split; [done |])).
  all: try (by left).
  all: right; eexists; split; [reflexivity |]; cbn [rng set_heap print].
  all: destruct (Hr (S (S (S (rng_pos (world s)))))) as [H0 H1].
  all: by apply delay_time_bounds.
Qed.

Lemma transmit_delay_bounded_witness :
  ∃ s', transmit delaying_channel 0 (λ _ t, Ok t) gbn_lossless = Ok s'
        ∧ eng s' = eng gbn_lossless
        ∧ (threads (world s') = threads (world gbn_lossless)
           ∨ ∃ d, threads (world s')
                  = threads (world gbn_lossless) ++ [mkTimer d (Callback 0) Armed]
                  ∧ (0 <= d)%Q ∧ (d <= max_delay delaying_channel)%Q).
Proof.
  apply (transmit_delay_bounded delaying_channel 0%nat gbn_lossless).
  - vm_compute. discriminate.
  - intros n. split; vm_compute; discriminate.
Defined.
(** ** Go-Back-N: the bookkeeping of the sender *)

Section GoBackNBookkeeping.
Import GoBackNRDT.
Implicit Types (s : St).

Lemma count_lines_channel (f : Line → bool) ch r w w' :
  (∀ l, is_channel_line l = true → f l = false) →
  channel_step ch r w w' →
  length (filter f (stdout w')) = length (filter f (stdout w)).
Proof.
  intros Hf Hcs. destruct (cs_stdout _ _ _ _ Hcs) as (ls & -> & Hall).
  rewrite filter_app, length_app.
  assert (filter f ls = []) as ->; [| simpl; lia].
  induction Hall as [| l ls Hl _ IH]; [done |].
  rewrite filter_cons_False; [done |]. rewrite (Hf l Hl). by intros [].
Qed.

Lemma count_lines_print (f : Line → bool) l w :
  length (filter f (stdout (print l w)))
  = (length (filter f (stdout w)) + if f l then 1 else 0)%nat.
Proof.
  simpl. rewrite filter_app, length_app. f_equal.
  destruct (f l) eqn:Hl.
  - rewrite filter_cons_True; [done |]. by rewrite Hl.
  - rewrite filter_cons_False; [done |]. rewrite Hl. by intros [].
Qed.

Lemma gbn_atom_books s s' : gbn_books s → gbn_atom s s' → gbn_books s'.
Proof.
  unfold gbn_books, sent_units, verified_acks.
  intros [Hp Hv] Hat. destruct Hat; cbn [eng world with_world with_eng alloc snd].
  all: rewrite ?count_lines_print; cbn.
  all: rewrite ?filter_app, ?length_app; cbn.
  all: rewrite ?length_app; cbn.
  all: repeat match goal with
         | |- context [decide False] => destruct (decide False) as [[] |]
         end; cbn.
  all: try (split; lia).
  - destruct l; try discriminate; cbn; split; lia.
  - assert (∀ l, is_channel_line l = true → is_sending l = false) as F1 by (by intros []).
    assert (∀ l, is_channel_line l = true → is_verified l = false) as F2 by (by intros []).
    rewrite (count_lines_channel (λ l, is_sending l) _ _ _ _ F1 H).
    rewrite (count_lines_channel (λ l, is_verified l) _ _ _ _ F2 H). done.
  - unfold _stop_timer. destruct (timer (eng s) !! k); cbn; rewrite ?stdout_cancel; done.
Qed.

(** X10. The bookkeeping of the Go-Back-N sender, in every state the
    engine can reach: [pending_packets] holds one entry for every unit
    ever sent (first transmissions), nothing is ever removed from it;
    and [sent_count] is the number of acknowledgments verified so far,
    not the number of units sent. *)
Theorem gbn_bookkeeping s :
  gbn_reachable s →
  length (pending_packets (eng s)) = sent_units (world s)
  ∧ sent_count (eng s) = Z.of_nat (verified_acks (world s)).
Proof.
  revert s. apply (gbn_reachable_ind_atoms gbn_books).
  - intros. by split.
  - apply gbn_atom_books.
Qed.

Lemma gbn_bookkeeping_witness :
  gbn_reachable gbn_after_timeout
  ∧ length (pending_packets (eng gbn_after_timeout)) = 8%nat
  ∧ sent_units (world gbn_after_timeout) = 8%nat
  ∧ sent_count (eng gbn_after_timeout) = 1.
Proof.
  split; [exact gbn_after_timeout_reachable |].
  destruct (gbn_bookkeeping gbn_after_timeout gbn_after_timeout_reachable) as [Hp Hv].
  assert (sent_units (world gbn_after_timeout) = 8%nat) as Hu by (vm_compute; reflexivity).
  assert (verified_acks (world gbn_after_timeout) = 1%nat) as Ha by (vm_compute; reflexivity).
  rewrite Hu in Hp. rewrite Ha in Hv. split_and!; [exact Hp | exact Hu | exact Hv].
Defined.
End GoBackNBookkeeping.
(** ** Selective Repeat on a lossless channel *)

Section SelectiveRepeatLossless.
Import SelectiveRepeatRDT.
Implicit Types (s : St).

(** The rest of the loop of [send] once [sent_count] has reached the
    total: nothing is sent. *)
Lemma sr_send_loop_done self_receive (xs : list Z) s :
  total_packets (eng s) ≤ sent_count (eng s) → (∀ i, i ∈ xs → 0 ≤ i) →
  for_each xs
    (λ i s,
       if bool_decide (sent_count (eng s) + i < total_packets (eng s)) then
         let '(r, w) :=
           alloc (Packet.new (seq_num (eng s) + i)
                             (data_payload (sent_count (eng s) + i)) DATA)
                 (world s) in
         let e1 := set_pending_packets
                     (<[seq_num (eng s) + i := r]> (pending_packets (eng s)))
                     (eng s) in
         let s1 := mkState e1 (print (SenderSending (deref w r)) w) in
         s2 ← transmit (channel e1) r self_receive s1;
         Ok (_start_timer (seq_num (eng s2) + i) s2)
       else Ok s)
    s = Ok s.
Proof.
  intros Hdone Hxs. induction xs as [| i xs IH]; [done |]. simpl.
  rewrite bool_decide_eq_false_2.
  2:{ pose proof (Hxs i ltac:(by left)). lia. }
  simpl. apply IH. intros j Hj. apply Hxs. by right.
Qed.

(** A data unit with sequence number 0 that arrives after the first one
    was accepted: the receiver acknowledges it as out of order. *)
Lemma sr_receive_duplicate fuel packet s p :
  lossless (channel (eng s)) → (∀ n, 0 <= rng (world s) n)%Q →
  heap (world s) !! packet = Some p →
  Packet.type p = DATA → Packet.is_corrupt p = false →
  Packet.seq p ≠ ack_received (eng s) →
  ∃ w2, receive (S fuel) packet s
        = receive fuel (length (heap (world s))) (mkState (eng s) w2)
        ∧ heap w2 = heap (world s) ++ [Packet.new (Packet.seq p) None ACK]
        ∧ rng w2 = rng (world s)
        ∧ threads w2 = threads (world s).
Proof.
  intros Hch Hr Hp Hty Hc Hseq. cbn [receive].
  rewrite (deref_lookup _ _ _ Hp), Hty.
  unfold _receiver, with_world. cbn [eng world].
  rewrite !deref_print, (deref_lookup _ _ _ Hp), Hc.
  rewrite bool_decide_eq_false_2 by done. cbn [alloc].
  match goal with |- context [transmit ?c ?r ?f ?st] =>
    destruct (transmit_lossless_frame c r f st) as (w' & -> & Hh & Hg & Ht); [done.. |]
  end.
  exists w'. done.
Qed.

Lemma sr_receive_first fuel packet s p :
  lossless (channel (eng s)) → (∀ n, 0 <= rng (world s) n)%Q →
  heap (world s) !! packet = Some p →
  Packet.type p = DATA → Packet.is_corrupt p = false →
  Packet.seq p = ack_received (eng s) →
  ∃ w2, receive (S fuel) packet s
        = receive fuel (length (heap (world s)))
            (mkState
               (set_ack_received (ack_received (eng s) + 1)
                  (set_received_count (received_count (eng s) + 1)
                     (set_buffer (<[received_count (eng s) := Packet.payload p]>
                                    (buffer (eng s))) (eng s))))
               w2)
        ∧ heap w2 = heap (world s) ++ [Packet.new (Packet.seq p) None ACK]
        ∧ rng w2 = rng (world s)
        ∧ threads w2 = threads (world s).
Proof.
  intros Hch Hr Hp Hty Hc Hseq. cbn [receive].
  rewrite (deref_lookup _ _ _ Hp), Hty.
  unfold _receiver, with_world. cbn [eng world].
  rewrite !deref_print, (deref_lookup _ _ _ Hp), Hc.
  rewrite bool_decide_eq_true_2 by done. cbn [alloc].
  match goal with |- context [transmit ?c ?r ?f ?st] =>
    destruct (transmit_lossless_frame c r f st) as (w' & -> & Hh & Hg & Ht); [done.. |]
  end.
  exists w'. done.
Qed.

(** The acknowledgment of a tracked sequence number, no timer armed: it
    is counted, and the handler goes on with [send] while units are
    left. *)
Lemma sr_receive_ack fuel ack s a :
  heap (world s) !! ack = Some a →
  Packet.type a = ACK → Packet.is_corrupt a = false →
  is_Some (pending_packets (eng s) !! Packet.seq a) →
  timer (eng s) = ∅ →
  ∃ w3, receive (S fuel) ack s
        = (let s3 := mkState (set_sent_count (sent_count (eng s) + 1) (eng s)) w3 in
           if bool_decide (sent_count (eng s3) < total_packets (eng s3))
           then send (receive fuel) s3 else Ok s3)
        ∧ heap w3 = heap (world s)
        ∧ rng w3 = rng (world s)
        ∧ threads w3 = threads (world s).
Proof.
  intros Ha Hty Hc Hin Htm. cbn [receive].
  rewrite (deref_lookup _ _ _ Ha), Hty.
  unfold _ack_handler, with_world. cbn [eng world].
  rewrite !deref_print, (deref_lookup _ _ _ Ha), Hc.
  rewrite bool_decide_eq_true_2 by done.
  unfold _stop_timer. cbn [eng world]. rewrite Htm, lookup_empty.
  eexists. split; [reflexivity |]. done.
Qed.

(** The first pass of the loop of [send] on a lossless channel: the
    unit is created and tracked under [seq_num], and handed to
    [receive]; the timer is armed when that call returns. *)
Lemma sr_send_unroll fuel s :
  sent_count (eng s) < total_packets (eng s) → 1 ≤ window_size (eng s) →
  lossless (channel (eng s)) → (∀ n, 0 <= rng (world s) n)%Q →
  ∃ w1 body,
    send (receive fuel) s
    = (s2 ← receive fuel (length (heap (world s)))
              (mkState (set_pending_packets
                          (<[seq_num (eng s) + 0 := length (heap (world s))]>
                             (pending_packets (eng s))) (eng s)) w1);
       s3 ← for_each (seqZ 1 (window_size (eng s) - 1)) body
              (_start_timer (seq_num (eng s2) + 0) s2);
       Ok (with_eng (λ e, set_seq_num (seq_num e + window_size e) e) s3))
    ∧ (∀ xs t, total_packets (eng t) ≤ sent_count (eng t) → (∀ i, i ∈ xs → 0 ≤ i) →
               for_each xs body t = Ok t)
    ∧ heap w1 = heap (world s)
                ++ [Packet.new (seq_num (eng s) + 0)
                               (data_payload (sent_count (eng s) + 0)) DATA]
    ∧ rng w1 = rng (world s)
    ∧ threads w1 = threads (world s).
Proof.
  intros Hlt HW Hch Hr. unfold send. rewrite bool_decide_eq_false_2 by lia.
  unfold range. rewrite seqZ_cons by lia.
  replace (Z.succ 0) with 1 by lia.
  replace (Z.pred (window_size (eng s) - 0)) with (window_size (eng s) - 1) by lia.
  cbn [for_each]. rewrite bool_decide_eq_true_2 by lia. cbn [alloc].
  match goal with |- context [transmit ?c ?r ?f ?st] =>
    destruct (transmit_lossless_frame c r f st) as (w' & -> & Hh & Hg & Ht); [done.. |]
  end.
  eexists w', _. split_and!; [| apply sr_send_loop_done | done..].
  destruct (receive fuel _ _); reflexivity.
Qed.

Lemma sr_unwound_timers_snoc W tmo n :
  0 ≤ n →
  sr_unwound_timers W tmo (n + 1)
  = sr_unwound_timers W tmo n ++ [mkTimer tmo (OnTimeout [n * W]) Armed].
Proof.
  intros Hn. unfold sr_unwound_timers. rewrite seqZ_app, fmap_app by lia. f_equal.
Qed.

(** The descent and the return: each acknowledgment handler calls
    [send] before the loop of the [send] below it has advanced
    [seq_num] or armed its timer; on the way back each level arms its
    timer under the [seq_num] the levels above have left. *)
Lemma sr_continue N W tmo n : ∀ k s fuel,
  1 ≤ W → 1 ≤ k → sr_descent N W tmo k s →
  Z.of_nat n = N - k → (2 * n ≤ fuel)%nat →
  ∃ s', (if bool_decide (sent_count (eng s) < total_packets (eng s))
         then send (receive fuel) s else Ok s) = Ok s'
        ∧ sr_unwound N W tmo k s s'.
Proof.
  induction n as [| n IH]; intros k s fuel HW Hk [D1 D2 D3 D4 D5 D6 D7 D8 D9 D10 D11] Hn Hf.
  - rewrite bool_decide_eq_false_2 by lia. exists s. split; [done |].
    split; try done; [lia | rewrite D5; nia |].
    rewrite D9. replace (N - k) with 0 by lia. done.
  - rewrite bool_decide_eq_true_2 by lia.
    destruct (sr_send_unroll fuel s) as (w1 & body & -> & Hskip & Hh1 & Hg1 & Ht1);
      [lia | lia | done | done |].
    destruct fuel as [| [| fuel]]; [lia | lia |].
    rewrite D5, D4 in *. replace (0 + 0) with 0 in * by lia.
    set (r := length (heap (world s))) in *.
    set (P := Packet.new 0 (data_payload (k + 0)) DATA) in *.
    set (e1 := set_pending_packets _ _).
    assert (heap w1 !! r = Some P) as Hr1.
    { rewrite Hh1. by rewrite lookup_app_r, Nat.sub_diag by done. }
    assert (∀ m, (0 <= rng w1 m)%Q) as Hg1' by (intros m; by rewrite Hg1).
    destruct (sr_receive_duplicate (S fuel) r (mkState e1 w1) P)
      as (w2 & -> & Hh2 & Hg2 & Ht2); [done | done | done | done | apply new_not_corrupt | |].
    { cbn. rewrite D6. done. }
    cbn [eng world] in *.
    set (A := Packet.new (Packet.seq P) None ACK) in *.
    assert (heap w2 !! length (heap w1) = Some A) as Ha2.
    { rewrite Hh2. by rewrite lookup_app_r, Nat.sub_diag by done. }
    destruct (sr_receive_ack fuel (length (heap w1)) (mkState e1 w2) A)
      as (w3 & -> & Hh3 & Hg3 & Ht3); [done | done | apply new_not_corrupt | | done |].
    { cbn. rewrite lookup_insert_eq. eauto. }
    cbn [eng world] in *. cbn zeta.
    set (s3 := mkState _ w3).
    match goal with |- context [if ?b then send (receive fuel) s3 else Ok s3] =>
      change (if b then send (receive fuel) s3 else Ok s3)
        with (if bool_decide (sent_count (eng s3) < total_packets (eng s3))
              then send (receive fuel) s3 else Ok s3)
    end.
    destruct (IH (k + 1) s3 fuel) as (s'' & Hs'' & U); [lia | lia | | lia | lia |].
    { subst s3. split; cbn; try done.
      - lia.
      - rewrite dom_insert_L, D7. set_solver.
      - congruence.
      - intros m. by rewrite Hg3, Hg2, Hg1. }
    destruct U as [U1 U2 U3 U4 U5 U6 U7 U8 U9 U10].
    unfold St in Hs'' |- *. rewrite Hs''.
    cbn [mbind Result_bind bind].
    rewrite Hskip.
    2:{ cbn. lia. }
    2:{ intros i Hi%elem_of_seqZ. lia. }
    cbn [mbind Result_bind bind].
    eexists. split; [reflexivity |].
    split; cbn; try done.
    + rewrite U2, U5. nia.
    + rewrite U7, U3, U5.
      replace (N - k) with ((N - (k + 1)) + 1) by lia.
      rewrite sr_unwound_timers_snoc by lia. by rewrite Z.add_0_r.
Qed.

(** X13. Selective Repeat on a channel that never loses, corrupts or
    delays, for every total of at least one unit and every window of at
    least one: [start] returns (with fuel for two calls of [receive] per
    unit). Every acknowledgment arrives inside the loop of [send],
    before [seq_num] is advanced, and makes the handler call [send]
    again: all units are sent with sequence number 0, the receiver
    accepts the first only, and the sender counts an acknowledgment for
    each. When [start] returns, [get_data] holds the single payload
    DATA_0 while [sent_count] has reached the total; [pending_packets]
    tracks sequence number 0 only; no timer was cancelled: one is armed
    for every unit, the [j]-th under the key [j * window_size]; and with
    two units or more, the second of them raises [KeyError] when it
    fires. *)
Theorem sr_lossless_start ch N W tmo g fuel :
  lossless ch → (∀ n, 0 <= g n)%Q → 1 ≤ N → 1 ≤ W → (2 * Z.to_nat N ≤ fuel)%nat →
  ∃ s', start fuel (mkState (init ch N W tmo) (empty_world g)) = Ok s'
        ∧ get_data (eng s') = expected_payloads 1
        ∧ sent_count (eng s') = N
        ∧ seq_num (eng s') = N * W
        ∧ dom (pending_packets (eng s')) = {[0]}
        ∧ threads (world s') = sr_unwound_timers W tmo N
        ∧ (2 ≤ N → ∀ fuel', fire fuel' 1 s' = Raise KeyError).
Proof.
  intros Hch Hg HN HW Hf. unfold start.
  set (s0 := with_eng (set_running true) (mkState (init ch N W tmo) (empty_world g))).
  destruct (sr_send_unroll fuel s0) as (w1 & body & -> & Hskip & Hh1 & Hg1 & Ht1);
    [cbn; lia | cbn; lia | done | done |].
  destruct fuel as [| [| fuel]]; [lia | lia |].
  cbn [s0 with_eng eng world init seq_num sent_count set_running empty_world heap length
       pending_packets] in *.
  replace (0 + 0) with 0 in * by lia.
  set (P := Packet.new 0 (data_payload 0) DATA) in *.
  set (e1 := set_pending_packets _ _).
  assert (heap w1 !! 0%nat = Some P) as Hr1 by (by rewrite Hh1).
  assert (∀ m, (0 <= rng w1 m)%Q) as Hg1' by (intros m; by rewrite Hg1).
  destruct (sr_receive_first (S fuel) 0%nat (mkState e1 w1) P)
    as (w2 & -> & Hh2 & Hg2 & Ht2); [done | done | done | done | apply new_not_corrupt | done |].
  cbn [eng world] in *.
  set (A := Packet.new (Packet.seq P) None ACK) in *.
  set (e2 := set_ack_received _ _).
  assert (heap w2 !! length (heap w1) = Some A) as Ha2.
  { rewrite Hh2. by rewrite lookup_app_r, Nat.sub_diag by done. }
  destruct (sr_receive_ack fuel (length (heap w1)) (mkState e2 w2) A)
    as (w3 & -> & Hh3 & Hg3 & Ht3); [done | done | apply new_not_corrupt | | done |].
  { cbn. rewrite lookup_insert_eq. eauto. }
  cbn [eng world] in *. cbn zeta.
  set (s3 := mkState _ w3).
  match goal with |- context [if ?b then send (receive fuel) s3 else Ok s3] =>
    change (if b then send (receive fuel) s3 else Ok s3)
      with (if bool_decide (sent_count (eng s3) < total_packets (eng s3))
            then send (receive fuel) s3 else Ok s3)
  end.
  destruct (sr_continue N W tmo (Z.to_nat (N - 1)) 1 s3 fuel) as (s'' & Hs'' & U);
    [lia | lia | | lia | lia |].
  { subst s3. split; try done.
    - cbn. by rewrite Ht3, Ht2, Ht1.
    - intros m. cbn. rewrite Hg3, Hg2, Hg1. apply Hg. }
  destruct U as [U1 U2 U3 U4 U5 U6 U7 U8 U9 U10].
  unfold St in Hs'' |- *. rewrite Hs''.
  cbn [mbind Result_bind bind].
  rewrite Hskip.
  2:{ cbn. lia. }
  2:{ intros i Hi%elem_of_seqZ. lia. }
  cbn [mbind Result_bind bind].
  eexists. split; [reflexivity |].
  assert (sr_unwound_timers W tmo (N - 1) ++ [mkTimer tmo (OnTimeout [(N - 1) * W + 0]) Armed]
          = sr_unwound_timers W tmo N) as Hth.
  { replace N with ((N - 1) + 1) at 3 by lia.
    rewrite sr_unwound_timers_snoc by lia. by rewrite Z.add_0_r. }
  split_and!; cbn.
  - unfold get_data. cbn. rewrite U8. subst s3. cbn.
    rewrite sorted_values_insert_max by (intros j; by rewrite dom_empty, elem_of_empty).
    reflexivity.
  - done.
  - rewrite U2, U5. nia.
  - done.
  - by rewrite U7, U3, U5.
  - intros HN2 fuel'. unfold fire. cbn [world _start_timer start_thread with_eng set_threads threads].
    rewrite U7, U3, U5, Hth.
    assert (sr_unwound_timers W tmo N !! 1%nat
            = Some (mkTimer tmo (OnTimeout [1 * W]) Armed)) as ->.
    { unfold sr_unwound_timers. rewrite list_lookup_fmap, lookup_seqZ_lt by lia. done. }
    unfold _on_timeout. cbn.
    rewrite (proj1 (not_elem_of_dom _ _)); [done |].
    rewrite U6, elem_of_singleton. lia.
Qed.

Lemma sr_lossless_start_witness :
  ∃ s', start 100 sr_lossless = Ok s'
        ∧ get_data (eng s') = expected_payloads 1
        ∧ sent_count (eng s') = 10
        ∧ seq_num (eng s') = 40
        ∧ fire 100 1 s' = Raise KeyError.
Proof.
  destruct (sr_lossless_start lossless_channel 10 4 1 (λ _, pass) 100)
    as (s' & Hs & Hd & Hc & Hq & _ & _ & Hk).
  - repeat split; reflexivity.
  - intros n. vm_compute. discriminate.
  - lia.
  - lia.
  - simpl. lia.
  - exists s'. split_and!; [exact Hs | exact Hd | exact Hc | exact Hq |].
    apply Hk. lia.
Defined.
End SelectiveRepeatLossless.

(** ** Go-Back-N on a lossless channel *)

Section GoBackNLossless.
Import GoBackNRDT.
Implicit Types (s : St).

Lemma gbn_receive_first fuel packet s p :
  lossless (channel (eng s)) → (∀ n, 0 <= rng (world s) n)%Q →
  heap (world s) !! packet = Some p →
  Packet.type p = DATA → Packet.is_corrupt p = false →
  Packet.seq p = ack_received (eng s) →
  ∃ w2, receive (S fuel) packet s
        = receive fuel (length (heap (world s)))
            (mkState
               (set_ack_received (ack_received (eng s) + 1)
                  (set_received_count (received_count (eng s) + 1)
                     (set_buffer (<[received_count (eng s) := Packet.payload p]>
                                    (buffer (eng s))) (eng s))))
               w2)
        ∧ heap w2 = heap (world s) ++ [Packet.new (Packet.seq p) None ACK]
        ∧ rng w2 = rng (world s)
        ∧ verified_acks w2 = verified_acks (world s).
Proof.
  intros Hch Hr Hp Hty Hc Hseq. cbn [receive].
  rewrite (deref_lookup _ _ _ Hp), Hty.
  unfold _receiver, with_world. cbn [eng world].
  rewrite !deref_print, (deref_lookup _ _ _ Hp), Hc.
  rewrite bool_decide_eq_true_2 by done. cbn [alloc].
  rewrite transmit_lossless; [| apply Hch | apply Hch | apply Hch | done].
  eexists. split; [reflexivity |]. split_and!; try done.
  unfold verified_acks. cbn. rewrite !filter_app. cbn. by rewrite !app_nil_r.
Qed.

(** An acknowledgment that arrives while [seq_num] is still 0, for a
    sequence number that is not negative: outside the window, ignored. *)
Lemma gbn_receive_ack_early fuel ack s a :
  heap (world s) !! ack = Some a →
  Packet.type a = ACK → Packet.is_corrupt a = false →
  seq_num (eng s) = 0 → 0 ≤ Packet.seq a →
  receive (S fuel) ack s
  = Ok (with_world (print (SenderAckReceived a)) s).
Proof.
  intros Ha Hty Hc Hq Hseq. cbn [receive].
  rewrite (deref_lookup _ _ _ Ha), Hty.
  unfold _ack_handler, with_world. cbn [eng world].
  rewrite !deref_print, (deref_lookup _ _ _ Ha), Hc.
  rewrite (bool_decide_eq_false_2 (Packet.seq a < _)), andb_false_r by lia.
  done.
Qed.
End GoBackNLossless.

(** A loop over [range] whose passes all return: it returns, and an
    invariant indexed by the loop variable holds at the end. *)
Lemma for_each_seqZ_returns {S} (I : Z → S → Prop) a n
    (body : Z → S → Result S) s :
  0 ≤ n → I a s →
  (∀ i t, a ≤ i < a + n → I i t → ∃ t', body i t = Ok t' ∧ I (i + 1) t') →
  ∃ s', for_each (seqZ a n) body s = Ok s' ∧ I (a + n) s'.
Proof.
  intros Hn. remember (Z.to_nat n) as k eqn:Hk. revert a n s Hn Hk.
  induction k as [| k IH]; intros a n s Hn Hk Hs Hb.
  - assert (n = 0) as -> by lia. rewrite seqZ_nil by lia.
    exists s. by rewrite Z.add_0_r.
  - rewrite seqZ_cons by lia. simpl.
    destruct (Hb a s ltac:(lia) Hs) as (s1 & H1 & HI). rewrite H1. simpl.
    replace (a + n) with (Z.succ a + Z.pred n) by lia.
    apply IH; [lia | lia | by replace (Z.succ a) with (a + 1) by lia |].
    intros i t Hi. apply Hb. lia.
Qed.

Section GoBackNLosslessStart.
Import GoBackNRDT.
Implicit Types (s : St).

Lemma gbn_first_pass_body fuel N W i t :
  gbn_first_pass N W i t → 0 ≤ i →
  ∃ t',
    (if bool_decide (sent_count (eng t) + i < total_packets (eng t)) then
       let '(r, w) :=
         alloc (Packet.new (seq_num (eng t) + i)
                           (data_payload (sent_count (eng t) + i)) DATA)
               (world t) in
       let e1 := set_pending_packets (pending_packets (eng t) ++ [r]) (eng t) in
       let s1 := mkState e1 (print (SenderSending (deref w r)) w) in
       s2 ← transmit (channel e1) r (receive (S (S fuel))) s1;
       Ok (_start_timer (seq_num (eng s2) + i) s2)
     else Ok t) = Ok t'
    ∧ gbn_first_pass N W (i + 1) t'.
Proof.
  intros [H1 H2 H3 H4 H5 H6 H7 H8 H9 H10 Hrun H11 H12] Hi.
  rewrite H1, H3, H4, !Z.add_0_l.
  case_bool_decide as Hlt.
  2:{ exists t. split; [done |].
      split; try done; replace (Z.min (i + 1) N) with (Z.min i N) by lia; done. }
  cbn [alloc].
  rewrite transmit_lossless; [| apply H11 | apply H11 | apply H11 | done].
  set (p := Packet.new i (data_payload i) DATA).
  match goal with |- context [receive _ _ ?st] => set (s1 := st) end.
  assert (heap (world s1) !! length (heap (world t)) = Some p) as Hp.
  { subst s1. cbn. by rewrite lookup_app_r, Nat.sub_diag by lia. }
  destruct (gbn_receive_first (S fuel) (length (heap (world t))) s1 p) as (w2 & -> & Hh & Hg & Hv);
    [done | done | done | done | apply new_not_corrupt | cbn; lia |].
  match goal with |- context [receive _ ?r ?st] =>
    rewrite (gbn_receive_ack_early fuel r st (Packet.new i None ACK))
  end; [| | done | apply new_not_corrupt | done | cbn; lia].
  2:{ cbn [world]. rewrite Hh. by rewrite lookup_app_r, Nat.sub_diag by lia. }
  eexists. split; [reflexivity |].
  assert (Z.min (i + 1) N = i + 1) as Hm1 by lia.
  assert (Z.min i N = i) as Hm by lia.
  rewrite Hm in H5, H6, H7, H8, H9.
  split; rewrite ?Hm1; cbn; try done.
  - lia.
  - lia.
  - unfold get_data in *. cbn.
    rewrite sorted_values_insert_max, expected_payloads_succ; [| lia |].
    + rewrite H7. done.
    + rewrite H6. done.
  - intros j. rewrite dom_insert_L, elem_of_union, elem_of_singleton.
    intros [-> | Hj]; [lia |]. apply H8 in Hj. lia.
  - rewrite length_app, H9. simpl. lia.
  - unfold verified_acks in *. cbn. cbn in Hv. rewrite filter_app. cbn.
    rewrite app_nil_r. rewrite Hv. subst s1. cbn. rewrite filter_app. cbn.
    by rewrite app_nil_r.
  - by rewrite Hg.
Qed.

(** X11. Go-Back-N on a channel that never loses, corrupts or delays,
    for every total of at least one unit and every window size that is
    not negative: [start] returns (with fuel for two calls of [receive]).
    The loop of [send] sends the first [min window total] units; the
    receiver accepts each, so [get_data] holds their payloads in order.
    Every acknowledgment arrives inside the loop, while [seq_num] is
    still 0, and is outside the window the handler tests: none is
    counted, [sent_count] stays 0 and no "verified" line is printed.
    Then [seq_num] is moved by a whole window and the engine is still
    running. *)
Theorem gbn_lossless_start ch N W tmo g fuel :
  lossless ch → (∀ n, 0 <= g n)%Q → 1 ≤ N → 0 ≤ W → (2 ≤ fuel)%nat →
  ∃ s', start fuel (mkState (init ch N W tmo) (empty_world g)) = Ok s'
        ∧ get_data (eng s') = expected_payloads (Z.min W N)
        ∧ received_count (eng s') = Z.min W N
        ∧ sent_count (eng s') = 0
        ∧ verified_acks (world s') = 0%nat
        ∧ seq_num (eng s') = W
        ∧ running (eng s') = true.
Proof.
  intros Hch Hg HN HW Hf.
  destruct fuel as [| [| fuel]]; [lia | lia |].
  unfold start, send, with_eng. cbn [eng world].
  rewrite bool_decide_eq_false_2 by (cbn; lia).
  unfold range. rewrite Z.sub_0_r.
  match goal with |- context [for_each (seqZ 0 ?n) ?b ?st] =>
    destruct (for_each_seqZ_returns (gbn_first_pass N W) 0 n b st)
      as (s' & Hs' & HI)
  end.
  - done.
  - assert (Z.min 0 N = 0) as Hm by lia.
    split; rewrite ?Hm; try done.
  - intros i t Hi Ht. apply gbn_first_pass_body; [done | lia].
  - unfold St in Hs' |- *. rewrite Hs'. cbn [bind]. eexists. split; [reflexivity |].
    replace (0 + window_size (set_running true (init ch N W tmo))) with W in HI
      by reflexivity.
    destruct HI as [H1 H2 H3 H4 H5 H6 H7 H8 H9 H10 Hrun H11 H12].
    unfold get_data in *. cbn [eng world set_seq_num buffer received_count
                                sent_count seq_num running].
    rewrite H2, H4. done.
Qed.

Lemma gbn_lossless_start_witness :
  ∃ s', start 2 (mkState (init lossless_channel 10 4 1) (empty_world (λ _, pass))) = Ok s'
        ∧ get_data (eng s') = expected_payloads 4
        ∧ sent_count (eng s') = 0.
Proof.
  destruct (gbn_lossless_start lossless_channel 10 4 1 (λ _, pass) 2)
    as (s' & Hs & Hd & _ & Hc & _).
  - repeat split; reflexivity.
  - intros n. vm_compute. discriminate.
  - lia.
  - lia.
  - lia.
  - exists s'. split; [exact Hs |]. split; [exact Hd | exact Hc].
Defined.
End GoBackNLosslessStart.

(** ** Stop-and-Wait: the nesting of the calls *)

Section StopAndWaitNesting.
Import StopAndWaitRDT.

Lemma sw_send_nesting N n : ∀ k s fuel,
  sw_inv N k s → Z.of_nat n = Z.max 0 (N - k) → (fuel < 2 * n)%nat →
  send (receive fuel) s = OutOfFuel.
Proof.
  induction n as [| n IH]; intros k s fuel [Ht Hs Hr Hd Hk Hch Hg H0] Hn Hf; [lia |].
  destruct (sw_send_step (receive fuel) s) as (w1 & -> & Hh1 & Hg1); [lia | done.. |].
  destruct fuel as [| fuel]; [done |].
  set (r := length (heap (world s))) in *.
  set (P := Packet.new (seq_num (eng s)) (data_payload (sent_count (eng s))) DATA) in *.
  set (e1 := set_pending_packet (Some r) (eng s)).
  assert (heap w1 !! r = Some P) as Hr1.
  { rewrite Hh1. by rewrite lookup_app_r, Nat.sub_diag by done. }
  assert (∀ m, (0 <= rng w1 m)%Q) as Hg1' by (intros m; by rewrite Hg1).
  destruct (sw_receive_data fuel r (mkState e1 w1) P Hch Hg1' Hr1 eq_refl
              (new_not_corrupt _ _ _) eq_refl)
    as (w2 & -> & Hh2 & Hg2).
  cbn [eng world] in *.
  destruct fuel as [| fuel]; [done |].
  set (e2 := set_seq_num _ _).
  set (A := Packet.new (Packet.seq P) None ACK) in *.
  assert (heap w2 !! length (heap w1) = Some A) as Ha2.
  { rewrite Hh2. by rewrite lookup_app_r, Nat.sub_diag by done. }
  assert (heap w2 !! r = Some P) as Hr2.
  { rewrite Hh2. rewrite lookup_app_l; [done |]. by eapply lookup_lt_Some. }
  destruct (sw_receive_ack fuel (length (heap w1)) (mkState e2 w2) A r P
              Ha2 eq_refl (new_not_corrupt _ _ _) eq_refl Hr2 eq_refl)
    as (w3 & -> & Hh3 & Hg3).
  cbn [eng world] in *.
  set (e3 := set_sent_count _ _).
  rewrite (IH (k + 1) (mkState e3 w3) fuel); [done | | lia | lia].
  split; cbn [eng world]; simpl; try done; try lia.
  - unfold get_data in *. simpl.
    rewrite sorted_values_insert_max by (by rewrite Hr).
    rewrite Hd. by rewrite expected_payloads_succ, Hs.
  - intros j. rewrite dom_insert_L, elem_of_union, elem_of_singleton.
    intros [-> | Hj]; [lia |]. apply Hk in Hj. lia.
  - intros m. by rewrite Hg3, Hg2, Hg1.
Qed.

(** X17. The calls of Stop-and-Wait nest: on a channel that never loses,
    corrupts or delays, the acknowledgment of a unit is handled inside
    the call that delivers the unit, and the next unit is sent inside
    the handler of that acknowledgment. A transfer of [N] units so needs
    [2 * N] calls of [receive] inside one another before [start] returns:
    under any smaller bound on the nesting the run does not complete. *)
Theorem sw_lossless_nesting ch N tmo g fuel :
  lossless ch → (∀ n, 0 <= g n)%Q → (fuel < 2 * Z.to_nat N)%nat →
  start fuel (mkState (init ch N tmo) (empty_world g)) = OutOfFuel.
Proof.
  intros Hch Hg Hf. unfold start.
  apply (sw_send_nesting N (Z.to_nat N) 0); [| lia | done].
  by split.
Qed.

Lemma sw_lossless_nesting_witness :
  start 19 sw_lossless = OutOfFuel
  ∧ ∃ s', start 20 sw_lossless = Ok s'.
Proof.
  split.
  - apply (sw_lossless_nesting lossless_channel 10 1 (λ _, pass) 19).
    + repeat split; reflexivity.
    + intros n. vm_compute. discriminate.
    + simpl. lia.
  - eexists. vm_compute. reflexivity.
Defined.
End StopAndWaitNesting.
